(* ===== verification/_CoqProject ===== *)
-Q . S2P
Prelude.v
CppString.v
Log.v
Tokenizer.v
Singleton.v
Index.v
Searcher.v
Json.v
Parser.v
Pipeline.v
Server.v
ParserLog.v
System.v
Serving.v
