(* ===== verification/Prelude.v ===== *)
(** * A verified model of the Boost document search engine

    The repository is a small C++ search engine over the Boost HTML
    documentation.  An offline parser turns the HTML files into a corpus
    file; the server builds a forward and an inverted index from that
    file once at start-up and answers [/s?query=...] requests by
    tokenizing the query, scoring the documents from the posting lists,
    sorting them and returning titles, URLs and highlighted snippets.

    ** Files, and what they model

    - [Prelude.v] (this file): the scope [search_scope] and the notation
      [txt "..."] for the source's string literals, the hint databases
      [search] and [search_rw] and the rewrite database [bits] (masks and
      shifts as division and remainder), the tactics [decide_by_vm],
      [case_arity], [zlia] and [ztests], the relation [factor_of]
      (substring), [subscript_update] ([unordered_map::operator[]]
      followed by an update) and the generic lemmas on lists, sorting,
      maps and bit operations the components share.
    - [CppString.v]: the library calls the sources make, written out as
      the C++ and Boost documentation define them: [c_str] (a
      [std::string] read as a C string), [std::string::substr]
      ([None] is [std::out_of_range]), [find], [replace], [std::search]
      with a predicate, the [std::getline] loop ([getlines]),
      [boost::to_lower], and [split_string] of [src/tools.hpp]
      ([boost::split] with [token_compress_on]).
    - [Tokenizer.v]: [JiebaUtil] of [src/tools.hpp].  The cppjieba
      segmenter is the class [Segmenter] with the law class
      [SegmenterFactors] (tokens are substrings); the state is the
      stop-word set, [InitJiebaUtil], [CutStringHelper], [get_instance]
      and [CutString] are its operations, the singleton an [option].
    - [Index.v]: [src/index.hpp].  The state [Index] is the forward index
      (a list, id = position) and the inverted index (a [gmap] from words
      to posting lists); [create_forward_index], [count_words] and
      [push_posting] (the loops of [create_inverted_index]),
      [index_line] (one iteration of the [getline] loop) and
      [create_index] thread it.  The invariant [index_wf] (ids, sorted
      postings, posting weights, completeness) holds of the empty index
      and is preserved by every line.
    - [Searcher.v]: [Searcher::search] and the snippet functions of
      [src/searcher.hpp].  The score table is a [gmap nat]; the copy out of
      the [unordered_map] and the unstable [std::sort] by weight are the
      relation [code_ranking] (every order the code may produce);
      [search_code] is the code, [search] the executable version with the
      spec's tie-break (ascending id).  [GetDescWithHighlight] and the
      former [GetDesc] are modelled with their [substr] bounds.
    - [Parser.v]: every function of [src/parser.cc].  The file system is
      a function from paths to optional contents, the recursive directory
      walk a list of entries, the corpus file an optional text that
      [save_file] appends to; the [get_content] state machine is
      [content_step] folded over the file.
    - [Singleton.v], Module [DCL]: the double-checked locking of
      [Index::get_instance] and [JiebaUtil::get_instance] under
      concurrency.  The state is the static pointer, the mutex, the
      number of objects constructed and one program counter per thread;
      [step] has one constructor per statement of one thread, in any
      interleaving; [thread_step] is its executable form and [run] runs a
      schedule.
    - [Json.v]: the response text.  The loop of [Searcher::search] builds
      a [Json::Value] ([result_value], [append_results]) and
      [Json::FastWriter::write] prints it ([fast_write], [json_response]).
      The jsoncpp library (1.9) is not in the repository; the parts of it
      the response depends on are written out under their jsoncpp names:
      [std::map] key order ([key_lt], [map_set]), [valueToQuotedStringN]
      with its fast path, its short escapes, [\u00XX] for control
      bytes, [utf8ToCodepoint] (U+FFFD for malformed input), [\uXXXX] and
      surrogate pairs ([escape_go], the loop, on a fuel).  A JSON reader
      ([read_string], [read_results]) is the specification side.
    - [Log.v]: [src/Log.hpp].  The state [log_state] is the global
      [is_save], the content of ["log.log"] and standard output;
      [log_message] formats with [vsnprintf] into [char buff[1024]]
      ([format_go] for [%s], [%d], [%%]), builds the bracketed record
      ([log_line]) and appends it ([log_save_file]) or prints it;
      [run_log] runs a sequence of [LOG] calls.  [parse_log_line] reads a
      record back (specification side).
    - [Pipeline.v]: how the parts meet.  [index_get_instance] and
      [init_search] (start-up), the [/s] route of [src/http_server.cc]
      ([handle_s_code], and [handle_s] with the spec's tie-break; the
      body is the JSON text of [Json.v]), and the reading of the corpus
      ([corpus_docs]) that links [save_file] to [create_index].
    - [Server.v]: [main] of [src/http_server.cc] with every [LOG] call of
      the server: the process state is the [Index] singleton, the
      tokenizer singleton and the log; [index_lines_log] is the
      [getline] loop of [create_index] with its WARNING/DEBUG calls,
      [get_inverted_index_log] and [get_forward_index_log] the WARNINGs
      of [Index::get_inverted_index] and [Index::get_forward_index],
      [search_log] what [Searcher::search] logs through them,
      [server_start] runs [main] up to [svr.listen] and [handle_request]
      one [/s] request.  The constructor of [JiebaUtil] builds a
      [cppjieba::Jieba] that aborts the process when the stop-word file
      cannot be opened ([Tokenizer.new_JiebaUtil] is [None]): the process
      then ends, [server_start] and [handle_request] have no result, and
      the FATAL of [InitJiebaUtil] is never written.
    - [ParserLog.v]: [main] of [src/parser.cc] with its [LOG] calls
      ([parser_main_log], which returns what [Parser.parser_main]
      returns: [parser_main_log_result]) and the process that writes
      them ([parser_process]); [parser_log_exit] shows that the last
      record of a run tells its exit code.
    - [System.v]: the two programs on one file system ([disk], a
      function from paths to optional contents, updated with stdpp's
      [<[path := contents]>]): [run_parser] writes the corpus and the log
      back, [run_server] starts the server on the same files, [serve] is
      the loop of [svr.listen], one request after the other;
      [parse_serve_demo] runs the whole system on a one-page site.
    - [Serving.v], Module [Serving]: [svr.listen] handing requests to
      worker threads that run the [/s] handler concurrently.  The state
      [pool] is what the workers share (the [JiebaUtil] objects, the
      static [instance] and [mtx] of [JiebaUtil], the log) and one
      program counter [hpc] per worker; [pool_step] has one constructor
      per statement of the handler, of [JiebaUtil::get_instance] and of
      [InitJiebaUtil] (which fills the stop-word table of the object
      [get_instance] has already published); [worker_step] and
      [run_pool] execute a schedule.  The invariant [pool_inv] is proved
      by induction on [pool_step] from the state [server_start] leaves.

    ** The theorems (claims C1 to C38)

    - Index (C1-C6, C8): posting weights are exactly 5 x title + body
      occurrences; ids are contiguous; every word of a document is
      posted; posted words occur in the document; posting lists are
      sorted by id; malformed lines are skipped; the result does not
      depend on the hash-map iteration order.
    - Searcher (C10, C11, C15, C16, C18, C19): the scores of [search]
      against the spec; the orders the copy loop and [std::sort] may
      leave are exactly the permutations of the spec ranking with its
      weight sequence; the result loop never fails; title against body
      matches; the snippet window and its length bound.  The refinement
      [search_refines_code], the uniqueness [rank_unique], the ambiguity
      of ties and the counterexample to the spec's ranking example are
      lemmas of [Searcher.v].
    - JSON (C21): the response text reads back as the results (a round
      trip through escapes and UTF-8).  Termination of the escaping
      loop, 7-bit output and the replacement of a cut UTF-8 character
      are lemmas of [Json.v].
    - Parser (C24, C26-C28): the state machine computes [strip_tags];
      title extraction and the [size_t] arithmetic; one record per file;
      line breaks dropped by [get_file_all].
    - Logging (C7, C29, C38): the log file reads back record by record;
      [vsnprintf] truncates to 1023 bytes; a query holding a line break
      forges a genuine-looking record after its own.
    - The server process (C9, C12, C23, C33): the WARNING of
      [get_forward_index] is unreachable from [search]; a request is
      answered exactly when it has no query, the tokenizer exists or
      the stop-word file opens (otherwise cppjieba aborts the process on
      the first query); what a request writes (one [info] record, then
      one [warning] per query word without postings); start-up aborts
      exactly when the stop-word file is missing and a corpus line is
      accepted, and otherwise writes one [debug] or [warning] record per
      corpus line between its [info] records.
    - Pipeline (C30-C32, C34, C35): the corpus round trip; empty bodies
      dropped; re-running the parser duplicates documents; an unreadable
      corpus is silent and answered with [null]; the [/s] route never
      fails.
    - System (C14, C37): requests served one after the other never
      modify the index built at start-up, each gets the response of the
      code, and the log gets, per request, an [info] record and one
      [warning] per unmatched word; the parser then the server on one
      file system index page [i] as document [i], with both programs'
      records in ["log.log"].
    - Singletons (C25, C36), by induction on the step relation with the
      invariant [inv]: at most one object is constructed and every thread
      returns it; no deadlock, and every execution ends.
    - Concurrent serving (C13, C17, C20, C22): whatever the interleaving
      of the workers, each request gets a response the sequential
      handler may give on the start-up index, at most one tokenizer
      exists, and (when start-up built the tokenizer) the log is the
      start-up log followed by the requests' records in some order; the
      tokenizer is published before its stop words are loaded (a worker
      can cut its query with an empty table); unless the process
      aborts, every interleaving ends with all workers returned; at most
      one worker is inside the critical section of [get_instance].

    ** Bounds and fuel

    Every function of the sources is modelled by structural recursion
    except the escaping loop of [valueToQuotedStringN], whose index
    [utf8ToCodepoint] moves by one to four bytes: [escape_go] takes a
    fuel, [S (length s)] is given, and [escape_go_fuel] shows that any fuel above
    [length s] gives the same complete result.  The interleavings of
    [DCL] are finite: the measure [5 n] for [n] threads bounds the length
    of every execution (C36), and the sum over the requests of
    [10 + W + L] bounds that of concurrent requests, [W] the number of
    words of the query and [L] the number of lines of the stop-word file
    (C20).  Text is [list ascii] (a [std::string] is
    bytes); bytes are read as [Z] for the bit arithmetic of
    [utf8ToCodepoint] ([Z.land], [Z.shiftl], [Z.lor]).  Counters are
    [nat] and weights [Z]; [Index.posting_weight_bounds] bounds a weight by 5 x title words + body
    words, so the C++ [int] does not overflow while that sum stays below
    2^31.  [size_t] subtraction is written modulo 2^64 ([size_t_sub])
    and shown exact in [get_title] for files below 2^64 bytes; the [int]
    positions of [GetDescWithHighlight] and the [int count] of
    [create_index] are [nat] and [Z], exact below 2^31 (the Boost pages
    and corpus are far smaller).  [char buff[1024]] is kept at its
    width: C38.

    ** Not modelled

    The httplib library behind [svr.listen]: sockets, HTTP parsing and
    URL decoding of the parameters, the static files of [./wwwroot]
    ([set_base_dir(root_path)], which read files and change no state),
    and the size of its thread pool, which only restricts the
    interleavings [Serving.pool_step] allows; the cppjieba segmentation
    algorithm (an interface); the C++ weak memory model, under which the
    unlocked read of the singletons' pointer, and the reads of a stop-word
    table another thread is filling, are data races ([DCL] and [Serving]
    interleave statements under sequential consistency, a [LOG] call is
    one atomic append and [CutStringHelper] reads the table in one
    step).  [Pipeline.v] uses the sequential [index_get_instance];
    [DCL.solo_get_instance] shows that one thread alone behaves so.
    [vsnprintf] is modelled for [%s], [%d] and [%%] only, the
    conversions the sources use; the clock and the process id are
    inputs.

    Nothing in the development is assumed: the hypotheses of a theorem
    (the segmenter law, a well-formed corpus) are binders of that theorem,
    and each theorem with hypotheses has a witness at a concrete input. *)

From Stdlib Require Export Ascii.
From Stdlib Require String.
From stdpp Require Export base list gmap strings sorting.
From Stdlib Require Import ZArith.

Declare Scope search_scope.
Delimit Scope search_scope with search.
Open Scope search_scope.

(** Text as the C++ code has it: a sequence of bytes. *)
Abbreviation text := (list ascii).

(** A string literal of the source, as bytes. *)
Notation "'txt' s" := (String.list_ascii_of_string s%string)
  (at level 9, s at level 0, only parsing) : search_scope.

Create HintDb search discriminated.
Create Rewrite HintDb search_rw.
Create Rewrite HintDb bits.

(** ** Tactics *)

(** A decidable proposition on closed data, by evaluation. *)
Ltac decide_by_vm := apply (bool_decide_unpack _); vm_compute; reflexivity.

(** Case analysis of a field list on its arity: none, one, two, three
    fields, or more (the [create_forward_index] test). *)
Ltac case_arity e := destruct e as [|? [|? [|? [|? ?]]]].

(** Linear integer arithmetic with division and modulo by constants. *)
Ltac zlia := Z.to_euclidean_division_equations; lia.

(** Case analysis of every integer comparison in the goal. *)
Ltac ztests :=
  repeat match goal with
  | |- context [Z.ltb ?a ?b] => destruct (Z.ltb_spec a b); try zlia
  | |- context [Z.leb ?a ?b] => destruct (Z.leb_spec a b); try zlia
  | |- context [Z.eqb ?a ?b] => destruct (Z.eqb_spec a b); try zlia
  end; cbn [andb orb negb].

(** ** Generic lemmas on lists and options *)

Lemma list_ascii_of_string_app (s1 s2 : String.string) :
  String.list_ascii_of_string (String.append s1 s2)
  = String.list_ascii_of_string s1 ++ String.list_ascii_of_string s2.
Proof. induction s1; simpl; [done | by f_equal]. Qed.

Lemma foldl_app_cons {A B} (f : B -> A -> B) (l : list A) x b :
  foldl f b (l ++ [x]) = f (foldl f b l) x.
Proof. by rewrite foldl_app. Qed.

#[export] Hint Rewrite list_ascii_of_string_app : search_rw.

(** [x] comes before [y] in [l]. *)
Definition precedes {A} (l : list A) (x y : A) : Prop :=
  exists l1 l2 l3, l = l1 ++ x :: l2 ++ y :: l3.

(** ** Factors: contiguous sublists (a substring of a string) *)

Definition factor {A} (l1 l2 : list A) : Prop := exists k1 k2, l2 = k1 ++ l1 ++ k2.
Infix "`factor_of`" := factor (at level 70) : search_scope.

Section factor.
Context {A : Type}.
Implicit Types l k : list A.

Lemma prefix_factor l k : l `prefix_of` k -> l `factor_of` k.
Proof. intros [k2 ->]. by exists [], k2. Qed.

Lemma factor_cons_r x l k : l `factor_of` k -> l `factor_of` x :: k.
Proof. intros (k1 & k2 & ->). by exists (x :: k1), k2. Qed.

Lemma factor_app_r l k1 k2 : l `factor_of` k2 -> l `factor_of` k1 ++ k2.
Proof. intros (a & b & ->). exists (k1 ++ a), b. by rewrite app_assoc. Qed.

Lemma factor_app_l l k1 k2 : l `factor_of` k1 -> l `factor_of` k1 ++ k2.
Proof. intros (a & b & ->). exists a, (b ++ k2). by rewrite <- !app_assoc. Qed.

Lemma factor_refl l : l `factor_of` l.
Proof. exists [], []. by rewrite app_nil_r. Qed.

Lemma factor_map {B} (f : A -> B) l k : l `factor_of` k -> map f l `factor_of` map f k.
Proof. intros (a & b & ->). exists (map f a), (map f b). by rewrite !map_app. Qed.
End factor.

#[export] Hint Resolve prefix_factor factor_cons_r factor_app_r factor_app_l
  factor_refl factor_map : search.

(** ** [m[k]] followed by an update, for [std::unordered_map]

    [operator[]] inserts a value-initialised [d] when [k] is missing; the
    statement then changes the value it refers to with [f]. *)
Definition subscript_update `{Countable K} {V} (d : V) (f : V -> V) (k : K)
    (m : gmap K V) : gmap K V :=
  <[k := f (default d (m !! k))]> m.

Lemma filter_nil_Forall {A} (P : A -> Prop) `{!forall x, Decision (P x)} (l : list A) :
  Forall (fun x => ¬ P x) l -> filter P l = [].
Proof. induction 1; [done|]. by rewrite filter_cons_False. Qed.

Lemma filter_Forall_id {A} (P : A -> Prop) `{!forall x, Decision (P x)} (l : list A) :
  Forall P l -> filter P l = l.
Proof. induction 1; [done|]. rewrite filter_cons_True by done. by f_equal. Qed.

Lemma StronglySorted_weaken {A} (R R' : relation A) (l : list A) :
  (forall x y, R x y -> R' x y) -> StronglySorted R l -> StronglySorted R' l.
Proof.
  intros HR. induction 1; constructor; [done|]. eapply Forall_impl; [done|]. auto.
Qed.

(** Sorted by a key: the keys are sorted. *)
Lemma StronglySorted_fmap_iff {A B} (R : relation B) (f : A -> B) (l : list A) :
  StronglySorted R (f <$> l) <-> StronglySorted (fun a b => R (f a) (f b)) l.
Proof.
  induction l as [|x l IH]; csimpl; [split; constructor|].
  split; intros H; inversion H as [|? ? Hs Hf]; subst; constructor.
  - by apply IH.
  - apply (Forall_fmap f) in Hf. exact Hf.
  - by apply IH.
  - by apply (Forall_fmap f).
Qed.

(** Two orders of the same entries, both sorted by a key descending,
    agree on the key at every position. *)
Lemma sorted_perm_keys {A} (f : A -> Z) (l1 l2 : list A) :
  l1 ≡ₚ l2 -> StronglySorted (fun a b => f b <= f a)%Z l1 -> StronglySorted (fun a b => f b <= f a)%Z l2 ->
  f <$> l1 = f <$> l2.
Proof.
  intros Hp H1 H2. assert (AntiSymm (=) (fun x y : Z => (y <= x)%Z)) by (intros ? ? ? ?; lia).
  apply (StronglySorted_unique (fun x y : Z => (y <= x)%Z)); [by apply StronglySorted_fmap_iff.. |].
  by rewrite Hp.
Qed.

Lemma StronglySorted_precedes {A} (R : relation A) (l : list A) x y :
  StronglySorted R l -> x ∈ l -> y ∈ l -> ¬ R y x -> x <> y -> precedes l x y.
Proof.
  intros Hs Hx Hy HR Hne. apply list_elem_of_split in Hx as (l1 & l2 & ->).
  apply elem_of_app in Hy as [Hy|Hy].
  - exfalso. apply HR. eapply (StronglySorted_app_1_elem_of R l1 (x :: l2)); [done..|].
    apply list_elem_of_here.
  - apply elem_of_cons in Hy as [->|Hy]; [done|].
    apply list_elem_of_split in Hy as (l2' & l3 & ->). by exists l1, l2', l3.
Qed.

Lemma filter_eq_not_elem {A} `{EqDecision A} (k : A) (l : list A) :
  k ∉ l -> filter (eq k) l = [].
Proof.
  induction l as [|x l IH]; intros Hk; [done|].
  apply not_elem_of_cons in Hk as [Hx Hl]. rewrite filter_cons_False; [by apply IH | done].
Qed.

Section subscript_update.
Context `{Countable K} {V : Type} (d : V) (f : V -> V).
Implicit Types m : gmap K V.

Lemma lookup_subscript_update m k k' :
  subscript_update d f k m !! k'
  = if decide (k = k') then Some (f (default d (m !! k))) else m !! k'.
Proof. unfold subscript_update. by rewrite lookup_insert. Qed.

(** Folding the update over a list of keys applies [f] to each key once
    per occurrence. *)
Lemma lookup_foldl_subscript_update m (ks : list K) k :
  foldl (fun m k => subscript_update d f k m) m ks !! k
  = if decide (k ∈ ks)
    then Some (Nat.iter (length (filter (eq k) ks)) f (default d (m !! k)))
    else m !! k.
Proof.
  revert m. induction ks as [|k1 ks IH]; intros m; cbn [foldl].
  - rewrite decide_False; [done | apply not_elem_of_nil].
  - rewrite IH, lookup_subscript_update, filter_cons.
    destruct (decide (k1 = k)) as [->|Hne].
    + rewrite (decide_True _ _ (list_elem_of_here k ks)).
      rewrite (decide_True (P := k = k)) by done. cbn [length].
      rewrite Nat.iter_succ_r. case_decide; [done|].
      by rewrite filter_eq_not_elem.
    + rewrite (decide_False (P := k = k1)) by congruence.
      destruct (decide (k ∈ ks)); rewrite ?decide_True, ?decide_False by set_solver; done.
Qed.
End subscript_update.

(** ** Lists updated at an index: one program counter per thread *)

Section insert_at.
Context {A : Type}.
Implicit Types l : list A.

Lemma lookup_insert_at l i k y x :
  l !! i = Some x -> <[i := y]> l !! k = if decide (i = k) then Some y else l !! k.
Proof.
  intros Hi. rewrite list_lookup_insert. apply lookup_lt_Some in Hi.
  destruct (decide (i = k)) as [->|Hik].
  - by rewrite decide_True.
  - rewrite decide_False; [done|]. intros [? _]; done.
Qed.

(** Replacing one element changes a sum over the list by the difference. *)
Lemma sum_list_insert (f : A -> nat) l i x y :
  l !! i = Some x -> sum_list (f <$> <[i := y]> l) + f x = sum_list (f <$> l) + f y.
Proof.
  revert i. induction l as [|z l IH]; intros [|i] Hi; simplify_eq/=; [lia|].
  specialize (IH i Hi). lia.
Qed.

(** ... and what the elements contribute to a concatenation, up to order. *)
Lemma bind_insert_perm {B} (f : A -> list B) l i x y :
  l !! i = Some x -> (<[i := y]> l ≫= f) ++ f x ≡ₚ (l ≫= f) ++ f y.
Proof.
  revert i. induction l as [|z l IH]; intros [|i] Hi; simplify_eq/=.
  - solve_Permutation.
  - rewrite <- !(assoc (++)). f_equiv. by apply IH.
Qed.

(** Replacing an element by one with the same image changes no image. *)
Lemma fmap_insert_same {B} (f : A -> B) l i x y :
  l !! i = Some x -> f y = f x -> f <$> <[i := y]> l = f <$> l.
Proof.
  intros Hi Hf. rewrite list_fmap_insert, Hf. apply list_insert_id. by rewrite list_lookup_fmap, Hi.
Qed.

Lemma bind_insert_same {B} (f : A -> list B) l i x y :
  l !! i = Some x -> f y = f x -> <[i := y]> l ≫= f = l ≫= f.
Proof.
  revert i. induction l as [|z l IH]; intros [|i] Hi Hf; simplify_eq/=; [by rewrite Hf|].
  by rewrite IH.
Qed.

(** A bind whose every step gives nothing or the one element [c] does
    not see the order of the list. *)
Lemma bind_perm_const {B} (f : A -> list B) (c : B) l1 l2 :
  (forall x, f x = [] \/ f x = [c]) -> l1 ≡ₚ l2 -> l1 ≫= f = l2 ≫= f.
Proof.
  intros Hf Hp. assert (Hc : forall l, Forall (eq c) (l ≫= f)).
  { intros l. apply Forall_bind, Forall_forall. intros x _. unfold compose. by destruct (Hf x) as [-> | ->]; repeat constructor. }
  rewrite <- (replicate_as_Forall_2 c (length (l1 ≫= f)) (l1 ≫= f)), <- (replicate_as_Forall_2 c (length (l2 ≫= f)) (l2 ≫= f)) by done.
  by rewrite Hp.
Qed.

(** A bind whose every step gives nothing is empty. *)
Lemma bind_nil_forall {B} (f : A -> list B) l : (forall x, x ∈ l -> f x = []) -> l ≫= f = [].
Proof. induction l as [|x l IH]; intros H; [done|]. csimpl. rewrite H, IH; set_solver. Qed.

Lemma option_bind_Some_l {B} (x : A) (f : A -> option B) : Some x ≫= f = f x.
Proof. done. Qed.

Lemma existsb_insert_same (g : A -> bool) l i x y :
  l !! i = Some x -> g y = g x -> existsb g (<[i := y]> l) = existsb g l.
Proof.
  revert i. induction l as [|z l IH]; intros [|i] Hi Hg; simplify_eq/=; [by rewrite Hg|].
  by rewrite IH.
Qed.

Lemma forallb_false (g : A -> bool) l :
  forallb g l = false -> exists i x, l !! i = Some x /\ g x = false.
Proof.
  induction l as [|x l IH]; [done|]. cbn. destruct (g x) eqn:Hx; cbn.
  - intros H. destruct (IH H) as (i & y & ? & ?). by exists (S i), y.
  - intros _. by exists 0, x.
Qed.

(** A property of every element survives an update that keeps it for
    the other elements and establishes it for the new one. *)
Lemma Forall_insert_at (P Q : A -> Prop) l i x :
  Forall P l -> (forall k y, k ≠ i -> l !! k = Some y -> P y -> Q y) -> Q x ->
  Forall Q (<[i := x]> l).
Proof.
  rewrite !Forall_lookup. intros HP HPQ HQ k y. rewrite list_lookup_insert.
  case_decide as Hk; [destruct Hk as [-> _]; by intros [= <-]|].
  intros Hy. apply (HPQ k); [|done | by apply (HP k)].
  intros ->. apply Hk. split; [done|]. by eapply lookup_lt_Some.
Qed.
End insert_at.

(** Reduce the binds of [option] whose argument is known. *)
Ltac bind_red := repeat (rewrite option_bind_Some_l; cbv beta iota zeta).
Tactic Notation "bind_red" "in" hyp(H) := repeat (rewrite option_bind_Some_l in H; cbv beta iota zeta in H).

(** ** Integers and bit operations *)

Section bits.
Open Scope Z_scope.

Lemma land_ones_mod a n : 0 <= n -> Z.land a (2 ^ n - 1) = a mod 2 ^ n.
Proof. intros Hn. rewrite <- Z.land_ones by done. f_equal. by rewrite Z.ones_equiv. Qed.

Lemma lor_disjoint a b k :
  0 <= k -> 0 <= b < 2 ^ k -> a mod 2 ^ k = 0 -> Z.lor a b = a + b.
Proof.
  intros Hk Hb Ha. rewrite <- Z.lxor_lor, Z.add_nocarry_lxor; [done| |].
  all: apply Z.bits_inj_0; intros i; rewrite Z.land_spec;
    destruct (Z.lt_ge_cases i k) as [Hi|Hi];
    [ rewrite <- (Z.mod_pow2_bits_low a k i) by lia; rewrite Ha, Z.bits_0; done
    | rewrite <- (Z.mod_small b (2 ^ k)), Z.mod_pow2_bits_high by lia; apply andb_false_r ].
Qed.

Lemma land_31 a : Z.land a 31 = a mod 32. Proof. exact (land_ones_mod a 5 ltac:(lia)). Qed.
Lemma land_15 a : Z.land a 15 = a mod 16. Proof. exact (land_ones_mod a 4 ltac:(lia)). Qed.
Lemma land_7 a : Z.land a 7 = a mod 8. Proof. exact (land_ones_mod a 3 ltac:(lia)). Qed.
Lemma land_63 a : Z.land a 63 = a mod 64. Proof. exact (land_ones_mod a 6 ltac:(lia)). Qed.
Lemma land_255 a : Z.land a 255 = a mod 256. Proof. exact (land_ones_mod a 8 ltac:(lia)). Qed.
Lemma land_1023 a : Z.land a 1023 = a mod 1024. Proof. exact (land_ones_mod a 10 ltac:(lia)). Qed.
Lemma shiftl_6 a : Z.shiftl a 6 = a * 64. Proof. exact (Z.shiftl_mul_pow2 a 6 ltac:(lia)). Qed.
Lemma shiftl_12 a : Z.shiftl a 12 = a * 4096. Proof. exact (Z.shiftl_mul_pow2 a 12 ltac:(lia)). Qed.
Lemma shiftl_18 a : Z.shiftl a 18 = a * 262144. Proof. exact (Z.shiftl_mul_pow2 a 18 ltac:(lia)). Qed.
Lemma shiftr_4 a : Z.shiftr a 4 = a / 16. Proof. exact (Z.shiftr_div_pow2 a 4 ltac:(lia)). Qed.
Lemma shiftr_8 a : Z.shiftr a 8 = a / 256. Proof. exact (Z.shiftr_div_pow2 a 8 ltac:(lia)). Qed.
Lemma shiftr_10 a : Z.shiftr a 10 = a / 1024. Proof. exact (Z.shiftr_div_pow2 a 10 ltac:(lia)). Qed.

End bits.

#[export] Hint Rewrite land_31 land_15 land_7 land_63 land_255 land_1023
  shiftl_6 shiftl_12 shiftl_18 shiftr_4 shiftr_8 shiftr_10 : bits.
