(* ===== verification/CppString.v ===== *)
(** * The string library the sources call

    The C++ standard library and Boost functions that [src/] applies to
    [std::string], written out as their documentation defines them:
    [std::tolower] and [boost::to_lower] in the "C" locale,
    [std::search] with a binary predicate (the result is the iterator
    distance, [length] for [end()]), [std::string::find], [substr] and
    [replace] (an [std::out_of_range] is [None]), the [std::getline] loop,
    and [boost::split] with [token_compress_on], through which
    [split_string] of [src/tools.hpp] is defined.  The lemmas give each
    function its specification (first match, no earlier match, bounds,
    round trips) once, for the components to share. *)

From S2P Require Import Prelude.

(** ** Case folding *)

(** [std::tolower] / the [ctype<char>] facet of the classic locale: only
    ['A'..'Z'] change. *)
Definition ascii_tolower (c : ascii) : ascii :=
  let n := nat_of_ascii c in
  if (65 <=? n) && (n <=? 90) then ascii_of_nat (n + 32) else c.

(** [boost::to_lower(word)], which folds the string in place. *)
Definition to_lower (s : text) : text := map ascii_tolower s.

(** ** Searching *)

(** The comparison a search uses: equality of the images under [f];
    [f := id] is [operator==] on [char], [f := ascii_tolower] is the
    lambda [std::tolower(c1) == std::tolower(c2)] of [src/searcher.hpp]. *)
Definition eq_under (f : ascii -> ascii) (a b : ascii) : bool :=
  Ascii.eqb (f a) (f b).

(** [needle] occurs at the start of [hay] (element-wise [eqc]). *)
Fixpoint matches_at (eqc : ascii -> ascii -> bool) (hay needle : text) : bool :=
  match needle, hay with
  | [], _ => true
  | n :: ns, h :: hs => eqc h n && matches_at eqc hs ns
  | _ :: _, [] => false
  end.

(** The first position of [needle] in [hay]. *)
Fixpoint find_by (eqc : ascii -> ascii -> bool) (hay needle : text) : option nat :=
  if matches_at eqc hay needle then Some 0
  else match hay with
       | [] => None
       | _ :: hs => S <$> find_by eqc hs needle
       end.

(** [std::search(first1, last1, first2, last2, p)], as the distance of the
    returned iterator from [first1]: [last1] (distance [length hay]) when
    there is no match; [first1] for an empty needle. *)
Definition std_search (eqc : ascii -> ascii -> bool) (hay needle : text) : nat :=
  match find_by eqc hay needle with
  | Some i => i
  | None => length hay
  end.

(** [hay.find(needle)] with [npos] as [None]. *)
Definition str_find (hay needle : text) : option nat :=
  find_by (eq_under id) hay needle.

(** ** Substrings *)

(** [s.substr(pos, n)]: [std::out_of_range] when [pos > s.size()]. *)
Definition substr (s : text) (pos n : nat) : option text :=
  if bool_decide (pos <= length s) then Some (take n (drop pos s)) else None.

(** [s.substr(pos)] (count [npos]). *)
Definition substr_from (s : text) (pos : nat) : option text :=
  if bool_decide (pos <= length s) then Some (drop pos s) else None.

(** [s.replace(pos, n, r)]. *)
Definition str_replace (s : text) (pos n : nat) (r : text) : option text :=
  if bool_decide (pos <= length s)
  then Some (take pos s ++ r ++ drop (pos + n) s) else None.

(** ** Lines and fields *)

Definition newline : ascii := "010"%char.

(** The loop [while (std::getline(in, line)) ...]: one line per ['\n'],
    plus a last line when the input does not end with ['\n'];
    [getline] fails only when it extracts no character at all. *)
Fixpoint getlines_go (s cur : text) : list text :=
  match s with
  | [] => match cur with [] => [] | _ => [cur] end
  | c :: s' =>
      if Ascii.eqb c newline then cur :: getlines_go s' []
      else getlines_go s' (cur ++ [c])
  end.

Definition getlines (s : text) : list text := getlines_go s [].

(** [s.c_str()] read as a C string: the prefix of [s] before its first
    NUL byte. *)
Fixpoint c_str (s : text) : text :=
  match s with
  | [] => []
  | c :: s' => if Ascii.eqb c "000"%char then [] else c :: c_str s'
  end.

(** The text after the prefix [p] of [s], if [s] starts with [p]
    (specifications only). *)
Definition expect (p s : text) : option text :=
  if bool_decide (p `prefix_of` s) then Some (drop (length p) s) else None.

(** The characters of [s] from [a] up to, not including, [b]
    (specifications only). *)
Definition slice (s : text) (a b : nat) : text := take (b - a) (drop a s).

(** [boost::split(res, s, pred, token_compress_on)]: tokens between
    separators, a run of adjacent separators counting as one; a leading
    (trailing) separator still yields an empty first (last) token, and an
    empty input yields one empty token.  [in_run] is set while a run of
    separators is being skipped. *)
Fixpoint split_go (sep : ascii -> bool) (s cur : text) (in_run : bool) : list text :=
  match s with
  | [] => [cur]
  | c :: s' =>
      if sep c then
        if in_run then split_go sep s' cur true
        else cur :: split_go sep s' [] true
      else split_go sep s' (cur ++ [c]) false
  end.

(** [split_string(str, res, sep)] of [src/tools.hpp]: [boost::split] with
    [boost::is_any_of(sep)] and [token_compress_on]. *)
Definition split_string (str sep : text) : list text :=
  split_go (fun c => bool_decide (c ∈ sep)) str [] false.

(** Splitting at every occurrence of [c], without merging (used by the
    specifications: the segments of a path, the tags of a page). *)
Fixpoint split_plain (c : ascii) (s : text) : list text :=
  match s with
  | [] => [[]]
  | x :: s' =>
      let r := split_plain c s' in
      if Ascii.eqb x c then [] :: r
      else match r with [] => [[x]] | seg :: segs => (x :: seg) :: segs end
  end.

(** What follows the first [c], if any. *)
Fixpoint after_first (c : ascii) (s : text) : option text :=
  match s with
  | [] => None
  | x :: s' => if Ascii.eqb x c then Some s' else after_first c s'
  end.

(** ** Lemmas *)

Lemma length_to_lower s : length (to_lower s) = length s.
Proof. apply length_map. Qed.

Lemma to_lower_app s1 s2 : to_lower (s1 ++ s2) = to_lower s1 ++ to_lower s2.
Proof. apply map_app. Qed.

Lemma ascii_tolower_idem c : ascii_tolower (ascii_tolower c) = ascii_tolower c.
Proof. destruct c as [[] [] [] [] [] [] [] []]; reflexivity. Qed.

Lemma to_lower_idem s : to_lower (to_lower s) = to_lower s.
Proof. unfold to_lower. rewrite map_map. apply map_ext, ascii_tolower_idem. Qed.

#[export] Hint Rewrite length_to_lower to_lower_app to_lower_idem : search_rw.

Lemma matches_at_iff f hay needle :
  matches_at (eq_under f) hay needle = true <-> map f needle `prefix_of` map f hay.
Proof.
  revert hay. induction needle as [|n ns IH]; intros [|h hs]; simpl.
  - split; [intros _; apply prefix_nil | done].
  - split; [intros _; apply prefix_nil | done].
  - split; [done | intros Hp; by apply prefix_nil_inv in Hp].
  - rewrite andb_true_iff, IH. unfold eq_under.
    rewrite Ascii.eqb_eq. split.
    + intros [-> Hp]. by apply prefix_cons.
    + intros Hp. split; [symmetry; by eapply prefix_cons_inv_1 | by eapply prefix_cons_inv_2].
Qed.

Lemma matches_at_length eqc hay needle :
  matches_at eqc hay needle = true -> length needle <= length hay.
Proof.
  revert hay. induction needle as [|n ns IH]; intros [|h hs]; simpl; try lia.
  rewrite andb_true_iff. intros [_ H]. apply IH in H. lia.
Qed.

(** The specification of [find_by]: the first match, and none before. *)
Lemma find_by_spec eqc hay needle :
  match find_by eqc hay needle with
  | Some i => matches_at eqc (drop i hay) needle = true
              /\ i + length needle <= length hay
              /\ forall j, j < i -> matches_at eqc (drop j hay) needle = false
  | None => forall j, matches_at eqc (drop j hay) needle = false
  end.
Proof.
  induction hay as [|h hs IH]; cbn [find_by];
    destruct (matches_at eqc _ needle) eqn:E;
    try (pose proof (matches_at_length _ _ _ E);
         split_and!; [done | simpl in *; lia | intros; lia]).
  - intros j. by rewrite drop_nil.
  - destruct (find_by eqc hs needle) as [i|]; simpl.
    + destruct IH as (Hm & Hl & Hmin). split_and!; [done | lia |].
      intros [|j] Hj; [done | apply Hmin; lia].
    + intros [|j]; [done | apply IH].
Qed.

Lemma find_by_Some eqc hay needle i :
  find_by eqc hay needle = Some i ->
  matches_at eqc (drop i hay) needle = true /\ i + length needle <= length hay
  /\ forall j, j < i -> matches_at eqc (drop j hay) needle = false.
Proof. intros E. pose proof (find_by_spec eqc hay needle) as H. by rewrite E in H. Qed.

Lemma find_by_None eqc hay needle j :
  find_by eqc hay needle = None -> matches_at eqc (drop j hay) needle = false.
Proof. intros E. pose proof (find_by_spec eqc hay needle) as H. rewrite E in H. apply H. Qed.

Lemma std_search_le eqc hay needle : std_search eqc hay needle <= length hay.
Proof.
  unfold std_search. destruct (find_by eqc hay needle) eqn:E; [|lia].
  apply find_by_Some in E. lia.
Qed.

(** *** [getline] *)

Lemma getlines_go_line l rest cur :
  newline ∉ l ->
  getlines_go (l ++ newline :: rest) cur = (cur ++ l) :: getlines_go rest [].
Proof.
  revert cur. induction l as [|c l IH]; intros cur Hl; simpl.
  - by rewrite app_nil_r.
  - rewrite not_elem_of_cons in Hl. destruct Hl as [Hc Hl].
    destruct (Ascii.eqb_spec c newline); [done|].
    by rewrite IH, <- app_assoc.
Qed.

(** Lines written with a terminating ['\n'] each are read back by the
    [getline] loop. *)
Lemma getlines_unlines (ls : list text) :
  Forall (fun l => newline ∉ l) ls ->
  getlines (mjoin ((fun l => l ++ [newline]) <$> ls)) = ls.
Proof.
  unfold getlines. induction 1 as [|l ls Hl _ IH]; [done|]. simpl.
  rewrite <- app_assoc. cbn [app]. rewrite getlines_go_line by done. by f_equal.
Qed.

(** Concatenating what the [getline] loop reads drops exactly the
    line breaks. *)
Lemma mjoin_getlines_go s cur :
  mjoin (getlines_go s cur) = cur ++ filter (fun c => c <> newline) s.
Proof.
  revert cur. induction s as [|c s IH]; intros cur; simpl.
  - destruct cur; simpl; by rewrite ?app_nil_r.
  - rewrite filter_cons. destruct (Ascii.eqb_spec c newline) as [->|Hc].
    + rewrite decide_False by tauto. simpl. by rewrite IH.
    + rewrite decide_True by done. rewrite IH. by rewrite <- app_assoc.
Qed.

Lemma mjoin_getlines s : mjoin (getlines s) = filter (fun c => c <> newline) s.
Proof. apply mjoin_getlines_go. Qed.

(** *** [boost::split] with [token_compress_on] *)

Lemma split_go_field sep f rest cur b :
  Forall (fun c => sep c = false) f ->
  split_go sep (f ++ rest) cur b
  = split_go sep rest (cur ++ f) (b && bool_decide (f = [])).
Proof.
  revert cur b. induction f as [|c f IH]; intros cur b Hf; simpl.
  - by rewrite app_nil_r, andb_true_r.
  - apply Forall_cons in Hf as [Hc Hf]. rewrite Hc, IH by done.
    by rewrite <- app_assoc, andb_false_r.
Qed.

(** A record of three fields joined by one separator splits back into its
    fields exactly when the middle field is not empty: the two separators
    around an empty middle field are one run. *)
Lemma split_string_three (s : ascii) t c u :
  s ∉ t -> s ∉ c -> s ∉ u ->
  split_string (t ++ [s] ++ c ++ [s] ++ u) [s]
  = if bool_decide (c = []) then [t; u] else [t; c; u].
Proof.
  intros Ht Hc Hu. unfold split_string.
  assert (Hnot : forall f, s ∉ f ->
            Forall (fun x => bool_decide (x ∈ [s]) = false) f).
  { intros f Hf. apply Forall_forall. intros x Hx.
    apply bool_decide_eq_false. set_solver. }
  assert (Hs : bool_decide (s ∈ [s]) = true) by (apply bool_decide_eq_true_2; set_solver).
  rewrite split_go_field by auto. simpl. rewrite Hs.
  rewrite split_go_field by auto. simpl. rewrite Hs.
  destruct (decide (c = [])) as [->|Hc0];
    [rewrite bool_decide_eq_true_2 by done | rewrite bool_decide_eq_false_2 by done];
    rewrite <- (app_nil_r u), split_go_field by auto; simpl; by rewrite app_nil_r.
Qed.

(** Every field [boost::split] returns is a factor of its input. *)
Lemma split_go_factor sep s cur b w :
  (b = true -> cur = []) ->
  w ∈ split_go sep s cur b ->
  (exists p, p `prefix_of` s /\ w = cur ++ p) \/ w `factor_of` s.
Proof.
  revert cur b. induction s as [|c s IH]; intros cur b Hb Hw; simpl in Hw.
  - apply list_elem_of_singleton in Hw as ->. left. exists []. by rewrite app_nil_r.
  - destruct (sep c) eqn:Hc; [destruct b|].
    + rewrite Hb in Hw |- * by done. right.
      destruct (IH [] true) as [(p & Hp & ->)|Hi]; [done..| |].
      * apply factor_cons_r, prefix_factor, Hp.
      * by apply factor_cons_r.
    + apply elem_of_cons in Hw as [->|Hw].
      * left. exists []. split; [apply prefix_nil | by rewrite app_nil_r].
      * right. destruct (IH [] true) as [(p & Hp & ->)|Hi]; [done..| |].
        -- apply factor_cons_r, prefix_factor, Hp.
        -- by apply factor_cons_r.
    + destruct (IH (cur ++ [c]) false) as [(p & Hp & ->)|Hi]; [done..| |].
      * left. exists (c :: p). split; [by apply prefix_cons | by rewrite <- app_assoc].
      * right. by apply factor_cons_r.
Qed.

Lemma split_string_factor s sep w : w ∈ split_string s sep -> w `factor_of` s.
Proof.
  intros Hw. destruct (split_go_factor (fun c => bool_decide (c ∈ sep)) s [] false w)
    as [(p & Hp & ->)|]; [done..| |done].
  by apply prefix_factor.
Qed.

(** *** In-range calls do not throw *)

Lemma substr_in_range s pos n :
  pos <= length s -> substr s pos n = Some (take n (drop pos s)).
Proof. intros H. unfold substr. by rewrite bool_decide_eq_true_2. Qed.

Lemma substr_from_in_range s pos :
  pos <= length s -> substr_from s pos = Some (drop pos s).
Proof. intros H. unfold substr_from. by rewrite bool_decide_eq_true_2. Qed.

Lemma str_replace_in_range s pos n r :
  pos <= length s -> str_replace s pos n r = Some (take pos s ++ r ++ drop (pos + n) s).
Proof. intros H. unfold str_replace. by rewrite bool_decide_eq_true_2. Qed.

Lemma str_find_Some hay needle p :
  str_find hay needle = Some p ->
  needle `prefix_of` drop p hay /\ p + length needle <= length hay
  /\ forall q, q < p -> ¬ needle `prefix_of` drop q hay.
Proof.
  unfold str_find. intros (Hm & Hl & Hmin)%find_by_Some.
  apply matches_at_iff in Hm. rewrite !map_id in Hm. split_and!; [done | done |].
  intros q Hq Hp. specialize (Hmin q Hq).
  assert (matches_at (eq_under id) (drop q hay) needle = true) as Ht
    by (apply matches_at_iff; by rewrite !map_id).
  congruence.
Qed.

Lemma str_find_None hay needle q :
  str_find hay needle = None -> ¬ needle `prefix_of` drop q hay.
Proof.
  unfold str_find. intros Hn Hp. pose proof (find_by_None _ _ _ q Hn) as Hf.
  assert (matches_at (eq_under id) (drop q hay) needle = true) as Ht
    by (apply matches_at_iff; by rewrite !map_id).
  congruence.
Qed.

(** The first match characterises the result of [find_by]. *)
Lemma find_by_first eqc hay needle pos :
  matches_at eqc (drop pos hay) needle = true ->
  (forall q, q < pos -> matches_at eqc (drop q hay) needle = false) ->
  find_by eqc hay needle = Some pos.
Proof.
  intros Hm Hmin. pose proof (find_by_spec eqc hay needle) as Hs.
  destruct (find_by eqc hay needle) as [i|].
  - destruct Hs as (Hi & _ & Hmin'). f_equal.
    destruct (Nat.lt_trichotomy i pos) as [Hlt|[->|Hgt]]; [|done|].
    + rewrite Hmin in Hi by done. discriminate.
    + rewrite Hmin' in Hm by done. discriminate.
  - by rewrite Hs in Hm.
Qed.

(** The case-insensitive search of [src/searcher.hpp], in terms of the
    case-folded strings. *)
Lemma find_by_tolower_first hay needle pos :
  to_lower needle `prefix_of` to_lower (drop pos hay) ->
  Forall (fun q => ¬ to_lower needle `prefix_of` to_lower (drop q hay)) (seq 0 pos) ->
  find_by (eq_under ascii_tolower) hay needle = Some pos.
Proof.
  intros Hp Hmin. apply find_by_first; [by apply matches_at_iff|].
  intros q Hq. rewrite Forall_forall in Hmin.
  destruct (matches_at _ _ _) eqn:E; [|done]. exfalso.
  apply (Hmin q); [apply elem_of_seq; lia|]. by apply matches_at_iff.
Qed.

Lemma expect_app p t : expect p (p ++ t) = Some t.
Proof. unfold expect. rewrite bool_decide_eq_true_2 by (by exists t). by rewrite drop_app_length. Qed.

Lemma c_str_prefix s : c_str s `prefix_of` s.
Proof.
  induction s as [|c s IH]; simpl; [done|].
  destruct (Ascii.eqb c _); [apply prefix_nil | by apply prefix_cons].
Qed.

(** A C string holds no NUL byte. *)
Lemma c_str_no_nul s : "000"%char ∉ c_str s.
Proof.
  induction s as [|c s IH]; simpl; [apply not_elem_of_nil|].
  destruct (Ascii.eqb_spec c "000"%char); [apply not_elem_of_nil|].
  apply not_elem_of_cons. done.
Qed.

Lemma c_str_id s : "000"%char ∉ s -> c_str s = s.
Proof.
  induction s as [|c s IH]; intros Hs; simpl; [done|].
  apply not_elem_of_cons in Hs as [Hc Hs].
  destruct (Ascii.eqb_spec c "000"%char); [done|]. by rewrite IH.
Qed.
