(* ===== verification/Log.v ===== *)
(** * Logging: [src/Log.hpp]

    Every component logs through the macro [LOG(level, format, ...)],
    which calls [log_message(__FILE__, __LINE__, level, format, ...)].
    [log_message] formats the arguments with [vsnprintf] into a
    1024-byte buffer, builds the record
    [[time][level][pid][file][line][message]] followed by a line feed,
    and writes it to standard output or, once [able_save()] has set the
    global [is_save], appends it to the file ["log.log"] (opened in
    append mode for each record; a file that cannot be opened drops the
    record).

    The state is [log_state]: [is_save], the contents of ["log.log"]
    ([None]: it cannot be opened) and what was written to standard
    output.  The clock ([localtime]) and the process id are inputs of a
    call.  [format_go] is the part of [vsnprintf] the sources use: the
    conversions [%s] (a [const char*]) and [%d] (an [int]) and [%%]. *)

From S2P Require Import Prelude CppString.
From stdpp Require Import pretty.
From Stdlib Require Import ZArith.

(** ** Data *)

(** [enum Level]. *)
Inductive Level := DEBUG | INFO | WARNING | ERROR | FATAL.

#[export] Instance Level_eq_dec : EqDecision Level.
Proof. solve_decision. Defined.

Record log_state := mkLogState {
  is_save : bool;
  log_file : option text;
  stdout : text;
}.

(** The fields of [struct tm] [get_time] reads. *)
Record tm := mkTm {
  tm_year : Z; tm_mon : Z; tm_mday : Z; tm_hour : Z; tm_min : Z; tm_sec : Z;
}.

(** The variadic arguments of a [LOG] call. *)
Inductive arg := AStr (s : text) | AInt (z : Z).

(** ** Operations *)

(** [able_save()] and [enable_save()]. *)
Definition able_save (s : log_state) : log_state := mkLogState true (log_file s) (stdout s).
Definition enable_save (s : log_state) : log_state := mkLogState false (log_file s) (stdout s).

(** [std::to_string(int)]: decimal, with a minus sign when negative. *)
Definition to_string (z : Z) : text := String.list_ascii_of_string (pretty z).

(** [get_level(level)]. *)
Definition get_level (level : Level) : text :=
  match level with
  | DEBUG => txt "debug"
  | ERROR => txt "error"
  | FATAL => txt "fatal"
  | INFO => txt "info"
  | WARNING => txt "warning"
  end.

(** [get_time()]: [localtime] returns [nullptr] ([None]) or the broken
    down time, printed without padding. *)
Definition get_time (now : option tm) : text :=
  match now with
  | None => txt "null"
  | Some t =>
      to_string (tm_year t + 1900) ++ txt ":" ++ to_string (tm_mon t + 1) ++ txt ":"
      ++ to_string (tm_mday t) ++ txt ":" ++ to_string (tm_hour t) ++ txt ":"
      ++ to_string (tm_min t) ++ txt ":" ++ to_string (tm_sec t)
  end.

(** The output of [printf]-style formatting for [%s], [%d] and [%%];
    a conversion without its argument, or another conversion, is
    undefined behaviour ([None]). *)
Fixpoint format_go (fmt : text) (args : list arg) : option text :=
  match fmt with
  | [] => Some []
  | c :: fmt' =>
      if Ascii.eqb c "%"%char then
        match fmt' with
        | d :: fmt'' =>
            if Ascii.eqb d "s"%char then
              match args with
              | AStr s :: args' => (c_str s ++.) <$> format_go fmt'' args'
              | _ => None
              end
            else if Ascii.eqb d "d"%char then
              match args with
              | AInt z :: args' => (to_string z ++.) <$> format_go fmt'' args'
              | _ => None
              end
            else if Ascii.eqb d "%"%char then ("%"%char ::.) <$> format_go fmt'' args
            else None
        | [] => None
        end
      else (c ::.) <$> format_go fmt' args
  end.

(** [char buff[1024]]. *)
Definition buff_size : nat := 1024.

(** [vsnprintf(buff, sizeof(buff), format, arg)], read back as the C
    string [buff]: at most [sizeof(buff) - 1] bytes of the output. *)
Definition vsnprintf (fmt : text) (args : list arg) : option text :=
  out ← format_go (c_str fmt) args; Some (c_str (take (buff_size - 1) out)).

(** The record [log_message] builds. *)
Definition log_line (time level pid file line buff : text) : text :=
  txt "[" ++ time ++ txt "]" ++ txt "[" ++ level ++ txt "]" ++ txt "[" ++ pid ++ txt "]"
  ++ txt "[" ++ file ++ txt "]" ++ txt "[" ++ line ++ txt "]" ++ txt "[" ++ buff ++ txt "]"
  ++ [newline].

(** [save_file(message)] of [Log.hpp]: append, or drop the record when
    ["log.log"] cannot be opened. *)
Definition log_save_file (message : text) (s : log_state) : log_state :=
  match log_file s with
  | None => s
  | Some old => mkLogState (is_save s) (Some (old ++ message)) (stdout s)
  end.

(** [log_message(file_name, line, level, format, ...)], with the clock
    [now] and the process id [pid]. *)
Definition log_message (file_name : text) (line : Z) (level : Level) (fmt : text)
    (args : list arg) (now : option tm) (pid : Z) (s : log_state) : option log_state :=
  buff ← vsnprintf fmt args;
  let message := log_line (get_time now) (get_level level) (to_string pid) file_name
                          (to_string line) buff in
  Some (if is_save s then log_save_file message s
        else mkLogState (is_save s) (log_file s) (stdout s ++ message)).

(** One [LOG] call: its [__FILE__], [__LINE__], level, format and
    arguments, and the clock when it runs. *)
Record log_call := mkCall {
  lc_file : text; lc_line : Z; lc_level : Level; lc_fmt : text; lc_args : list arg;
  lc_now : option tm;
}.

(** A sequence of [LOG] calls of one process. *)
Fixpoint run_log (pid : Z) (calls : list log_call) (s : log_state) : option log_state :=
  match calls with
  | [] => Some s
  | c :: calls' =>
      s' ← log_message (lc_file c) (lc_line c) (lc_level c) (lc_fmt c) (lc_args c)
                       (lc_now c) pid s;
      run_log pid calls' s'
  end.

(** ** Specification: reading the log back *)

(** A record of the log file, field by field. *)
Record log_record := mkRecord {
  r_time : text; r_level : text; r_pid : text; r_file : text; r_line : text; r_msg : text;
}.

(** The text up to the first [']'], and the text after it. *)
Fixpoint split_field (s : text) : option (text * text) :=
  match s with
  | [] => None
  | c :: s' =>
      if Ascii.eqb c "]"%char then Some ([], s')
      else '(f, r) ← split_field s'; Some (c :: f, r)
  end.

(** A line of the log file: five bracketed fields without [']'], then
    the message, which runs to the last [']'] of the line. *)
Definition parse_log_line (l : text) : option log_record :=
  r0 ← expect (txt "[") l; '(time, r1) ← split_field r0;
  r2 ← expect (txt "[") r1; '(level, r3) ← split_field r2;
  r4 ← expect (txt "[") r3; '(pid, r5) ← split_field r4;
  r6 ← expect (txt "[") r5; '(file, r7) ← split_field r6;
  r8 ← expect (txt "[") r7; '(line, r9) ← split_field r8;
  r10 ← expect (txt "[") r9;
  match last r10 with
  | Some c => if Ascii.eqb c "]"%char then Some (mkRecord time level pid file line (removelast r10))
              else None
  | None => None
  end.

(** The record a call writes, [None] when its formatting is undefined. *)
Definition call_record (pid : Z) (c : log_call) : option log_record :=
  buff ← vsnprintf (lc_fmt c) (lc_args c);
  Some (mkRecord (get_time (lc_now c)) (get_level (lc_level c)) (to_string pid) (lc_file c)
                 (to_string (lc_line c)) buff).

(** A call whose record stays on one line and parses back: no line
    break in the file name, the format or a string argument, no [']'] in
    the file name. *)
Definition arg_ok (a : arg) : Prop :=
  match a with AStr s => newline ∉ s | AInt _ => True end.

#[export] Instance arg_ok_dec a : Decision (arg_ok a).
Proof. destruct a; simpl; apply _. Defined.

Definition call_ok (c : log_call) : Prop :=
  "]"%char ∉ lc_file c /\ newline ∉ lc_file c /\ newline ∉ lc_fmt c /\ Forall arg_ok (lc_args c).

#[export] Instance call_ok_dec c : Decision (call_ok c).
Proof. unfold call_ok. apply _. Defined.

(** The empty log, before [able_save()]. *)
Definition log_init : log_state := mkLogState false (Some []) [].

(** The call [LOG(INFO,"query:%s",query.c_str())] of the handler of
    [/s] ([src/http_server.cc], line 22), at the time [now]. *)
Definition query_call (now : option tm) (query : text) : log_call :=
  mkCall (txt "http_server.cc") 22 INFO (txt "query:%s") [AStr query] now.

(** The level filter of a list of calls. *)
Definition at_level (L : Level) (cs : list log_call) : list log_call :=
  filter (fun c => lc_level c = L) cs.

(** A call that stays on one line of the log and formats without error. *)
Definition call_fine (pid : Z) (c : log_call) : Prop := call_ok c /\ is_Some (call_record pid c).

(** The text of the record [r] as [log_message] writes it, without the
    closing [']'] and line break (specification side). *)
Definition record_head (r : log_record) : text :=
  txt "[" ++ r_time r ++ txt "]" ++ txt "[" ++ r_level r ++ txt "]" ++ txt "[" ++ r_pid r ++ txt "]"
  ++ txt "[" ++ r_file r ++ txt "]" ++ txt "[" ++ r_line r ++ txt "]" ++ txt "[" ++ r_msg r.

(** ** Lemmas *)

(** The characters [std::to_string] prints: digits and the sign. *)
Definition num_char (c : ascii) : Prop := c = "-"%char \/ exists d, c = pretty_N_char d.

Lemma pretty_N_go_chars x s c :
  c ∈ String.list_ascii_of_string (pretty_N_go x s) ->
  c ∈ String.list_ascii_of_string s \/ num_char c.
Proof.
  revert s. induction (N.lt_wf_0 x) as [x _ IH]; intros s Hc.
  destruct (decide (0 < x)%N) as [Hx|Hx].
  - rewrite pretty_N_go_step in Hc by done.
    destruct (IH (x / 10)%N ltac:(apply N.div_lt; lia) _ Hc) as [Hc'|]; [|by right].
    simpl in Hc'. apply elem_of_cons in Hc' as [->|Hc']; [right; right; eauto | by left].
  - assert (x = 0%N) as -> by lia. rewrite pretty_N_go_0 in Hc. by left.
Qed.

Lemma pretty_N_chars (x : N) : Forall num_char (String.list_ascii_of_string (pretty x)).
Proof.
  apply Forall_forall. intros c Hc. unfold pretty, pretty_N in Hc. case_decide.
  - apply list_elem_of_singleton in Hc as ->. right. by exists 0%N.
  - by apply pretty_N_go_chars in Hc as [Hc%not_elem_of_nil|].
Qed.

Lemma to_string_chars z : Forall num_char (to_string z).
Proof.
  unfold to_string, pretty, pretty_Z. destruct z as [|p|p].
  - apply Forall_singleton. right. by exists 0%N.
  - apply pretty_N_chars.
  - rewrite list_ascii_of_string_app. apply Forall_app. split; [apply Forall_singleton; by left|].
    apply pretty_N_chars.
Qed.

Lemma num_char_special c : num_char c -> c ≠ "]"%char /\ c ≠ newline /\ c ≠ "000"%char.
Proof.
  intros [->|[d ->]]; [done|].
  unfold pretty_N_char; repeat case_match; done.
Qed.

(** What [format_go] prints comes from the format, the strings of the
    arguments and the digits of [%d]. *)
Lemma format_go_Forall (P : ascii -> Prop) fmt args out :
  Forall P fmt ->
  Forall (fun a => match a with AStr s => Forall P (c_str s) | AInt _ => True end) args ->
  (forall c, num_char c -> P c) ->
  format_go fmt args = Some out -> Forall P out.
Proof.
  intros Hf Ha Hn. revert args out Hf Ha.
  induction fmt as [fmt IH] using (induction_ltof1 _ (@length _)); intros args out Hf Ha Hfo.
  unfold ltof in IH. destruct fmt as [|c fmt']; simpl in Hfo; [by simplify_eq|].
  apply Forall_cons in Hf as [Hc Hf].
  destruct (Ascii.eqb_spec c "%"%char) as [->|].
  - destruct fmt' as [|d fmt'']; [done|]. apply Forall_cons in Hf as [Hd Hf].
    destruct (Ascii.eqb d "s"%char); [|destruct (Ascii.eqb d "d"%char);
                                         [|destruct (Ascii.eqb d "%"%char); [|done]]].
    + destruct args as [|[s|z] args']; try done. apply Forall_cons in Ha as [Hs Ha].
      apply fmap_Some in Hfo as (o & Ho & ->). apply Forall_app. split; [done|].
      apply (IH fmt'') in Ho; simpl; auto.
    + destruct args as [|[s|z] args']; try done. apply Forall_cons in Ha as [_ Ha].
      apply fmap_Some in Hfo as (o & Ho & ->). apply Forall_app.
      split; [eapply Forall_impl; [apply to_string_chars | done]|].
      apply (IH fmt'') in Ho; simpl; auto.
    + apply fmap_Some in Hfo as (o & Ho & ->). constructor; [done|].
      apply (IH fmt'') in Ho; simpl; auto.
  - apply fmap_Some in Hfo as (o & Ho & ->). constructor; [done|].
    apply (IH fmt') in Ho; simpl; auto.
Qed.

Lemma not_elem_Forall (x : ascii) l : x ∉ l <-> Forall (fun c => c ≠ x) l.
Proof. rewrite Forall_forall. split; [intros Hx c Hc ->; done | intros H Hx; by apply (H x)]. Qed.

(** The output of [vsnprintf] is never cut by a NUL byte: a [%s]
    argument is read up to its own NUL, and [%d] prints digits. *)
Lemma format_go_no_nul fmt args out :
  format_go (c_str fmt) args = Some out -> "000"%char ∉ out.
Proof.
  intros H. apply not_elem_Forall. eapply format_go_Forall; [| |intros c Hc; apply num_char_special, Hc| exact H].
  - apply not_elem_Forall, c_str_no_nul.
  - apply Forall_forall. intros [s|z] _; [apply not_elem_Forall, c_str_no_nul | done].
Qed.

Lemma vsnprintf_take fmt args out :
  format_go (c_str fmt) args = Some out -> vsnprintf fmt args = Some (take 1023 out).
Proof.
  intros H. unfold vsnprintf. rewrite H. cbn [mbind option_bind]. f_equal.
  apply c_str_id. intros Hin. apply (format_go_no_nul fmt args out H). apply elem_of_take in Hin as (i & Hi & _). by eapply list_elem_of_lookup_2.
Qed.

(** A field [log_message] writes between brackets. *)
Definition plain_field (f : text) : Prop := Forall (fun c => c ≠ "]"%char /\ c ≠ newline) f.

Lemma to_string_plain z : plain_field (to_string z).
Proof. eapply Forall_impl; [apply to_string_chars|]. intros c ?%num_char_special. tauto. Qed.

Lemma get_level_plain level : plain_field (get_level level).
Proof. destruct level; decide_by_vm. Qed.

Lemma get_time_plain now : plain_field (get_time now).
Proof.
  destruct now as [t|]; [|decide_by_vm]. cbn [get_time].
  assert (plain_field (txt ":")) as Hc by decide_by_vm.
  unfold plain_field. rewrite ?Forall_app. repeat split; first [apply Hc | apply to_string_plain].
Qed.

Lemma split_field_app f r : "]"%char ∉ f -> split_field (f ++ "]"%char :: r) = Some (f, r).
Proof.
  induction f as [|c f IH]; intros Hf; simpl; [done|].
  apply not_elem_of_cons in Hf as [Hc Hf].
  destruct (Ascii.eqb_spec c "]"%char); [done|]. by rewrite IH.
Qed.

Lemma expect_cons (c : ascii) t : expect [c] (c :: t) = Some t.
Proof. exact (expect_app [c] t). Qed.

Lemma plain_field_not f : plain_field f -> "]"%char ∉ f /\ newline ∉ f.
Proof. intros Hf. rewrite !not_elem_Forall. split; eapply Forall_impl; eauto; naive_solver. Qed.

(** The record [log_message] writes is a line of the log and is read
    back field by field; the message may hold [']']. *)
Lemma log_line_parse t l p f n b :
  plain_field t -> plain_field l -> plain_field p -> plain_field f -> plain_field n ->
  newline ∉ b ->
  exists line, log_line t l p f n b = line ++ [newline] /\ newline ∉ line /\
               parse_log_line line = Some (mkRecord t l p f n b).
Proof.
  intros [Ht Ht']%plain_field_not [Hl Hl']%plain_field_not [Hp Hp']%plain_field_not
         [Hf Hf']%plain_field_not [Hn Hn']%plain_field_not Hb.
  eexists. split; [unfold log_line; rewrite !app_assoc; reflexivity|]. split.
  - rewrite !not_elem_Forall in *. cbn [String.list_ascii_of_string].
    rewrite ?Forall_app. repeat split; repeat constructor; done.
  - rewrite <- !app_assoc. unfold parse_log_line. cbn [String.list_ascii_of_string app].
    repeat (first [rewrite expect_cons | rewrite split_field_app by done];
            cbn [mbind option_bind]).
    rewrite last_snoc, removelast_last. done.
Qed.

Lemma prefix_not_elem (x : ascii) l1 l2 : l1 `prefix_of` l2 -> x ∉ l2 -> x ∉ l1.
Proof. intros [k ->] Hx Hin. apply Hx, elem_of_app. by left. Qed.

Lemma vsnprintf_no_newline fmt args buff :
  newline ∉ fmt -> Forall arg_ok args -> vsnprintf fmt args = Some buff -> newline ∉ buff.
Proof.
  intros Hf Ha Hv. unfold vsnprintf in Hv.
  destruct (format_go (c_str fmt) args) as [out|] eqn:Ho; [|done]. simplify_eq/=.
  eapply prefix_not_elem; [apply c_str_prefix|]. eapply prefix_not_elem; [apply prefix_take|].
  apply not_elem_Forall. eapply format_go_Forall; [| | | exact Ho].
  - apply not_elem_Forall. eapply prefix_not_elem; [apply c_str_prefix | done].
  - eapply Forall_impl; [exact Ha|]. intros [s|z]; simpl; [|done].
    intros Hs. apply not_elem_Forall. eapply prefix_not_elem; [apply c_str_prefix | done].
  - intros c ?%num_char_special. tauto.
Qed.

(** A well-formed call writes one line of the log, which reads back as
    the call's record. *)
Lemma log_message_line pid c r s :
  call_ok c -> call_record pid c = Some r ->
  exists line, newline ∉ line /\ parse_log_line line = Some r /\
    log_message (lc_file c) (lc_line c) (lc_level c) (lc_fmt c) (lc_args c) (lc_now c) pid s =
    Some (if is_save s then log_save_file (line ++ [newline]) s
          else mkLogState (is_save s) (log_file s) (stdout s ++ line ++ [newline])).
Proof.
  intros (Hf & Hf' & Hfmt & Ha) Hr. unfold call_record in Hr.
  destruct (vsnprintf (lc_fmt c) (lc_args c)) as [buff|] eqn:Hv; simplify_eq/=.
  destruct (log_line_parse (get_time (lc_now c)) (get_level (lc_level c)) (to_string pid)
              (lc_file c) (to_string (lc_line c)) buff) as (line & Hl & Hnl & Hp);
    [apply get_time_plain | apply get_level_plain | apply to_string_plain | |
     apply to_string_plain | by eapply vsnprintf_no_newline |].
  - unfold plain_field. rewrite Forall_forall. intros x Hx. split; intros ->; [by apply Hf | by apply Hf'].
  - exists line. split_and!; [done..|]. unfold log_message. rewrite Hv. cbn [mbind option_bind].
    by rewrite Hl.
Qed.

(** [run_log] on a saved log appends one line per call. *)
Lemma run_log_lines pid calls old out recs :
  Forall call_ok calls -> mapM (call_record pid) calls = Some recs ->
  exists lines, Forall (fun l => newline ∉ l) lines /\ mapM parse_log_line lines = Some recs /\
    run_log pid calls (mkLogState true (Some old) out)
    = Some (mkLogState true (Some (old ++ mjoin ((fun l => l ++ [newline]) <$> lines))) out).
Proof.
  intros Hok. revert old recs. induction Hok as [|c calls Hc Hok IH]; intros old recs Hm.
  - simplify_eq/=. exists []. by rewrite app_nil_r.
  - cbn [mapM] in Hm. destruct (call_record pid c) as [r|] eqn:Hr; [|done].
    cbn [mbind option_bind] in Hm. destruct (mapM (call_record pid) calls) as [rs|] eqn:Hrs; [|done].
    injection Hm as <-. destruct (log_message_line pid c r (mkLogState true (Some old) out) Hc Hr)
      as (line & Hnl & Hp & Hl).
    destruct (IH (old ++ line ++ [newline]) rs eq_refl) as (lines & Hnls & Hps & Hrun).
    exists (line :: lines). split_and!; [by constructor| |].
    + cbn [mapM]. rewrite Hp. cbn [mbind option_bind]. by rewrite Hps.
    + cbn [run_log]. rewrite Hl. cbn [mbind option_bind is_save log_save_file log_file].
      cbn [stdout]. rewrite Hrun. rewrite fmap_cons. cbn [mjoin list_join]. by rewrite !app_assoc.
Qed.

Lemma at_level_app L l1 l2 : at_level L (l1 ++ l2) = at_level L l1 ++ at_level L l2.
Proof. apply filter_app. Qed.

Lemma at_level_in L c cs : lc_level c = L -> at_level L (c :: cs) = c :: at_level L cs.
Proof. intros H. unfold at_level. by rewrite filter_cons_True. Qed.

Lemma at_level_out L c cs : lc_level c ≠ L -> at_level L (c :: cs) = at_level L cs.
Proof. intros H. unfold at_level. by rewrite filter_cons_False. Qed.

Lemma records_levels pid cs recs :
  mapM (call_record pid) cs = Some recs -> r_level <$> recs = (fun c => get_level (lc_level c)) <$> cs.
Proof.
  intros Hm. apply mapM_Some_1 in Hm. induction Hm as [|c r cs recs Hr _ IH]; [done|].
  unfold call_record in Hr. destruct (vsnprintf _ _); simplify_eq/=. by rewrite IH.
Qed.

(** The records of well-formed calls have their calls' levels. *)
Lemma records_at_level pid cs recs L :
  mapM (call_record pid) cs = Some recs ->
  length (filter (fun r => r_level r = get_level L) recs) = length (at_level L cs).
Proof.
  intros Hm. apply mapM_Some_1 in Hm. induction Hm as [|c r cs recs Hr _ IH]; [done|].
  unfold call_record in Hr. destruct (vsnprintf _ _); simplify_eq/=.
  rewrite filter_cons. destruct (decide (lc_level c = L)) as [<-|HL].
  - rewrite decide_True, at_level_in by done. simpl. by rewrite IH.
  - rewrite decide_False, at_level_out by (done || destruct (lc_level c), L; done). done.
Qed.
Lemma get_level_inj L L' : get_level L = get_level L' -> L = L'.
Proof. by destruct L, L'. Qed.

(** The last record has the level of the last call; no record has a
    level no call has. *)
Lemma records_last_level pid cs recs :
  mapM (call_record pid) cs = Some recs ->
  r_level <$> last recs = (fun c => get_level (lc_level c)) <$> last cs.
Proof. intros Hm. by rewrite <- fmap_last, (records_levels pid cs recs Hm), fmap_last. Qed.

Lemma records_level_absent pid cs recs L :
  mapM (call_record pid) cs = Some recs -> at_level L cs = [] ->
  Forall (fun r => r_level r ≠ get_level L) recs.
Proof.
  intros Hm Ha. apply Forall_forall. intros r Hr HL.
  assert (Hin : get_level L ∈ r_level <$> recs) by (apply list_elem_of_fmap; eauto).
  rewrite (records_levels pid cs recs Hm) in Hin. apply list_elem_of_fmap in Hin as (c & HcL & Hc).
  apply get_level_inj in HcL. assert (Hc' : c ∈ at_level L cs) by (by apply list_elem_of_filter).
  rewrite Ha in Hc'. by apply not_elem_of_nil in Hc'.
Qed.

(** Running two sequences of calls is running their concatenation. *)
Lemma run_log_app pid cs1 cs2 s :
  run_log pid (cs1 ++ cs2) s = s1 ← run_log pid cs1 s; run_log pid cs2 s1.
Proof.
  revert s. induction cs1 as [|c cs1 IH]; intros s; [done|]. cbn [app run_log].
  destruct (log_message _ _ _ _ _ _ _ s); [apply IH | done].
Qed.

(** Well-formed calls can be written and read back ([run_log_lines]). *)
(** [run_log] writes every call whose formatting is defined. *)
Lemma run_log_total pid cs s : Forall (fun c => is_Some (call_record pid c)) cs -> is_Some (run_log pid cs s).
Proof.
  intros Hcs. revert s. induction Hcs as [|c cs [r Hr] _ IH]; intros s; [by eexists|].
  cbn [run_log]. unfold log_message. unfold call_record in Hr.
  destruct (vsnprintf _ _); [|done]. apply IH.
Qed.

Lemma call_fine_split pid cs :
  Forall (call_fine pid) cs -> Forall call_ok cs /\ is_Some (mapM (call_record pid) cs).
Proof.
  intros Hf. split; [|apply mapM_is_Some_2];
    (apply Forall_forall; intros c Hc; rewrite Forall_forall in Hf; by destruct (Hf c Hc)).
Qed.

(** A call of the sources with a constant file and format is fine. *)
Ltac call_fine_const :=
  unfold call_fine, call_ok; split;
  [split_and!; [decide_by_vm.. | repeat constructor] | eapply mk_is_Some; reflexivity].

(** ** Properties *)

(** C29. Log round trip: on a log that [able_save()] has switched to the
    file, a sequence of [LOG] calls whose file names hold no [']'] and
    whose formats and string arguments hold no line break leaves
    standard output untouched and appends to ["log.log"] text whose
    lines, read back field by field, are exactly the records of the
    calls, in order (the message may contain [']']). *)
Theorem log_file_roundtrip pid calls old out recs :
  Forall call_ok calls -> mapM (call_record pid) calls = Some recs ->
  exists new, run_log pid calls (mkLogState true (Some old) out)
                = Some (mkLogState true (Some (old ++ new)) out) /\
              mapM parse_log_line (getlines new) = Some recs.
Proof.
  intros Hok Hm. destruct (run_log_lines pid calls old out recs Hok Hm) as (lines & Hnl & Hp & Hrun).
  eexists. split; [exact Hrun|]. by rewrite getlines_unlines.
Qed.

(** C38. [vsnprintf] into [char buff[1024]]: the message of a record is
    the formatted output cut to its first 1023 bytes, never more, and
    the whole output when it fits (the output holds no NUL byte, so
    reading [buff] as a C string loses nothing else). *)
Theorem vsnprintf_truncates fmt args out :
  format_go (c_str fmt) args = Some out ->
  exists buff, vsnprintf fmt args = Some buff /\ buff `prefix_of` out /\
               length buff = Nat.min (length out) 1023.
Proof.
  intros H. exists (take 1023 out). split_and!.
  - by apply vsnprintf_take.
  - apply prefix_take.
  - rewrite length_take. lia.
Qed.

(** A message that closes its record and spells out another one. *)
Lemma log_line_split t l p f n b r :
  log_line t l p f n (b ++ txt "]" ++ [newline] ++ record_head r)
  = log_line t l p f n b ++ log_line (r_time r) (r_level r) (r_pid r) (r_file r) (r_line r) (r_msg r).
Proof.
  unfold log_line, record_head. cbn [String.list_ascii_of_string].
  repeat progress (cbn [app]; rewrite <- ?app_assoc). reflexivity.
Qed.

(** C7. Log injection: the query of [/s] is logged verbatim, so a query
    that closes its own record with [']'] and a line break and then
    spells out any record [r] (fields without [']'] or line break, a
    message without line break, the whole within the 1017 bytes
    [vsnprintf] keeps, no NUL) makes one [LOG(INFO,"query:%s",...)] call
    append to ["log.log"] text that reads back as two records: the
    genuine one, with the query cut at the [']'], and the forged [r] --
    at any level, process id, file and line. *)
Theorem log_injection pid now pre r old out :
  newline ∉ pre -> "000"%char ∉ pre ++ record_head r ->
  plain_field (r_time r) -> plain_field (r_level r) -> plain_field (r_pid r) ->
  plain_field (r_file r) -> plain_field (r_line r) -> newline ∉ r_msg r ->
  length pre + length (record_head r) <= 1015 ->
  exists new,
    run_log pid [query_call now (pre ++ txt "]" ++ [newline] ++ record_head r)] (mkLogState true (Some old) out)
      = Some (mkLogState true (Some (old ++ new)) out) /\
    mapM parse_log_line (getlines new)
      = Some [mkRecord (get_time now) (txt "info") (to_string pid) (txt "http_server.cc") (txt "22")
                       (txt "query:" ++ pre); r].
Proof.
  intros Hpre Hnul Ht Hl Hp Hf Hn Hm Hlen.
  set (q := pre ++ txt "]" ++ [newline] ++ record_head r).
  assert (Hq : c_str q = q).
  { apply c_str_id. unfold q. intros Hc. apply Hnul.
    apply elem_of_app in Hc as [Hc|Hc]; [by apply elem_of_app; left|].
    apply elem_of_app in Hc as [Hc|Hc]; [by apply list_elem_of_singleton in Hc|].
    apply elem_of_app in Hc as [Hc|Hc]; [by apply list_elem_of_singleton in Hc|].
    apply elem_of_app; by right. }
  assert (Hv : vsnprintf (txt "query:%s") [AStr q] = Some (txt "query:" ++ q)).
  { rewrite (vsnprintf_take _ _ (txt "query:" ++ c_str q)).
    - rewrite Hq, take_ge; [done|]. unfold q. rewrite !length_app. cbn [length String.list_ascii_of_string]. lia.
    - cbn. by rewrite app_nil_r. }
  destruct (log_line_parse (get_time now) (txt "info") (to_string pid) (txt "http_server.cc") (txt "22")
              (txt "query:" ++ pre)) as (line1 & Hl1 & Hnl1 & Hp1);
    [apply get_time_plain | decide_by_vm | apply to_string_plain | decide_by_vm | decide_by_vm | |].
  { rewrite elem_of_app. intros [Hc|Hc]; [|done]. revert Hc. decide_by_vm. }
  destruct r as [rt rl rp rf rn rm].
  destruct (log_line_parse rt rl rp rf rn rm) as (line2 & Hl2 & Hnl2 & Hp2); [done..|].
  exists (line1 ++ [newline] ++ line2 ++ [newline]). split.
  - cbn [run_log lc_file lc_line lc_level lc_fmt lc_args lc_now query_call]. unfold log_message.
    rewrite Hv. cbn [mbind option_bind is_save log_save_file log_file stdout].
    unfold q. change (txt "query:" ++ pre ++ txt "]" ++ [newline] ++ record_head {| r_time := rt; r_level := rl; r_pid := rp; r_file := rf; r_line := rn; r_msg := rm |})
      with ((txt "query:" ++ pre) ++ txt "]" ++ [newline] ++ record_head {| r_time := rt; r_level := rl; r_pid := rp; r_file := rf; r_line := rn; r_msg := rm |}).
    rewrite log_line_split. cbn [r_time r_level r_pid r_file r_line r_msg].
    change (get_level INFO) with (txt "info"). change (to_string 22) with (txt "22"). rewrite Hl1, Hl2.
    by rewrite <- !app_assoc.
  - assert (Hj : line1 ++ [newline] ++ line2 ++ [newline]
                 = mjoin ((fun l => l ++ [newline]) <$> [line1; line2])).
    { cbn. by rewrite <- !app_assoc, app_nil_r. }
    rewrite Hj, getlines_unlines; [|by repeat constructor]. cbn [mapM]. rewrite Hp1, Hp2. done.
Qed.

Lemma log_file_roundtrip_witness :
  exists new, run_log 7 [query_call None (txt "hello")] (mkLogState true (Some []) [])
                = Some (mkLogState true (Some ([] ++ new)) []) /\
              mapM parse_log_line (getlines new)
                = Some [mkRecord (txt "null") (txt "info") (txt "7") (txt "http_server.cc")
                                 (txt "22") (txt "query:hello")].
Proof. apply log_file_roundtrip; [decide_by_vm | vm_compute; reflexivity]. Defined.

(** The query ["a]\n[null][fatal][1][x][1][forged"]: a forged [fatal]
    record after the genuine one. *)
Lemma log_injection_witness :
  exists new,
    run_log 7 [query_call None (txt "a" ++ txt "]" ++ [newline]
                 ++ record_head (mkRecord (txt "null") (txt "fatal") (txt "1") (txt "x") (txt "1") (txt "forged")))]
            (mkLogState true (Some []) [])
      = Some (mkLogState true (Some ([] ++ new)) []) /\
    mapM parse_log_line (getlines new)
      = Some [mkRecord (get_time None) (txt "info") (to_string 7) (txt "http_server.cc") (txt "22") (txt "query:" ++ txt "a");
              mkRecord (txt "null") (txt "fatal") (txt "1") (txt "x") (txt "1") (txt "forged")].
Proof. apply log_injection; decide_by_vm. Defined.

Lemma vsnprintf_truncates_witness :
  format_go (c_str (txt "query:%s")) [AStr (replicate 2000 "a"%char)]
    = Some (txt "query:" ++ replicate 2000 "a"%char) /\
  exists buff, vsnprintf (txt "query:%s") [AStr (replicate 2000 "a"%char)] = Some buff /\
               buff `prefix_of` (txt "query:" ++ replicate 2000 "a"%char) /\
               length buff = Nat.min (length (txt "query:" ++ replicate 2000 "a"%char)) 1023.
Proof.
  assert (H : format_go (c_str (txt "query:%s")) [AStr (replicate 2000 "a"%char)]
              = Some (txt "query:" ++ replicate 2000 "a"%char)) by (vm_compute; reflexivity).
  split; [exact H | exact (vsnprintf_truncates _ _ _ H)].
Defined.
