(* ===== verification/Tokenizer.v ===== *)
(** * The tokenizer: [JiebaUtil] of [src/tools.hpp]

    [JiebaUtil] owns the cppjieba segmenter and a stop-word table
    ([std::unordered_map<std::string,bool>], a set: only [find] is used).
    The segmenter is a third-party library: it is the interface
    [Segmenter], and what clients may assume of it is the class
    [SegmenterFactors] (every token is a factor of the input).  The
    stop-word table is loaded by [InitJiebaUtil]; [CutStringHelper] erases
    the stop words from the segmenter's output in order.  The constructor
    [JiebaUtil()] builds a [cppjieba::Jieba] with the stop-word file,
    which aborts the process when that file cannot be opened:
    [new_JiebaUtil], and with it [get_instance] and [CutString], return
    [None] then.  [space_segmenter]
    is a concrete segmenter (tokens separated by spaces) that satisfies the
    interface, for the witnesses of the development. *)

From S2P Require Import Prelude CppString.

(** ** The segmenter interface *)

Class Segmenter := cut_for_search : text -> list text.

(** The law of [cppjieba::Jieba::CutForSearch] the index relies on: the
    words it returns are substrings of the sentence. *)
Class SegmenterFactors (seg : Segmenter) : Prop :=
  seg_factor : forall s w, w ∈ cut_for_search s -> w `factor_of` s.

(** ** State and operations *)

Record JiebaUtil := { stop_words : gset text }.

(** [new JiebaUtil()]: the constructor builds [cppjieba::Jieba] from the
    dictionaries and [STOP_WORD_PATH]; cppjieba checks that each file
    opens ([XCHECK]) and aborts the process when one does not.  The
    dictionaries are the segmenter and are taken to be present;
    [stop_file] is the content of [STOP_WORD_PATH] ([None]: it cannot be
    opened).  The new object has an empty stop-word table. *)
Definition new_JiebaUtil (stop_file : option text) : option JiebaUtil :=
  match stop_file with
  | Some _ => Some {| stop_words := ∅ |}
  | None => None
  end.

(** [InitJiebaUtil]: every line of the stop-word file is a stop word.
    The branch of a file that cannot be opened ([None]) logs FATAL and
    returns, leaving the table empty; it is never taken in the program,
    whose constructor has already aborted on such a file. *)
Definition InitJiebaUtil (stop_file : option text) : JiebaUtil :=
  match stop_file with
  | None => {| stop_words := ∅ |}
  | Some contents => {| stop_words := list_to_set (getlines contents) |}
  end.

(** [CutStringHelper]: segment, then erase every stop word (the
    [erase]/[iter++] loop keeps the order of the others). *)
Definition CutStringHelper `{Segmenter} (j : JiebaUtil) (src : text) : list text :=
  filter (fun w => w ∉ stop_words j) (cut_for_search src).

(** [JiebaUtil::get_instance] as one thread runs it: the singleton, built
    by the first call (constructor, then [InitJiebaUtil]) and returned as
    is afterwards; [None]: the constructor aborted the process. *)
Definition get_instance (inst : option JiebaUtil) (stop_file : option text)
  : option (JiebaUtil * option JiebaUtil) :=
  match inst with
  | Some j => Some (j, Some j)
  | None =>
      match new_JiebaUtil stop_file with
      | Some _ => let j := InitJiebaUtil stop_file in Some (j, Some j)
      | None => None
      end
  end.

(** [JiebaUtil::CutString]: [CutStringHelper] on the singleton. *)
Definition CutString `{Segmenter} (inst : option JiebaUtil) (stop_file : option text)
    (src : text) : option (list text * option JiebaUtil) :=
  '(j, inst') ← get_instance inst stop_file; Some (CutStringHelper j src, inst').

(** ** A concrete segmenter *)

Definition space : ascii := " "%char.

#[export] Instance space_segmenter : Segmenter :=
  fun s => filter (fun w => w <> []) (split_string s [space]).

#[export] Instance space_segmenter_factors : SegmenterFactors space_segmenter.
Proof.
  intros s w Hw. apply list_elem_of_filter in Hw as [_ Hw].
  by eapply split_string_factor.
Qed.

(** ** Lemmas *)

Section tokenizer.
Context `{seg : Segmenter}.

Lemma CutStringHelper_elem j src w :
  w ∈ CutStringHelper j src <-> w ∈ cut_for_search src /\ w ∉ stop_words j.
Proof. unfold CutStringHelper. rewrite list_elem_of_filter. tauto. Qed.

Lemma CutStringHelper_factor `{!SegmenterFactors seg} j src w :
  w ∈ CutStringHelper j src -> w `factor_of` src.
Proof. rewrite CutStringHelper_elem. intros [Hw _]. by eapply seg_factor. Qed.

Lemma InitJiebaUtil_stop_words stop_file w :
  w ∈ stop_words (InitJiebaUtil stop_file)
  <-> exists contents, stop_file = Some contents /\ w ∈ getlines contents.
Proof.
  destruct stop_file as [contents|]; simpl.
  - rewrite elem_of_list_to_set. naive_solver.
  - split; [set_solver | by intros (? & ? & _)].
Qed.
End tokenizer.

#[export] Hint Resolve CutStringHelper_factor : search.

(** ** Properties of the tokenizer *)

Section claims.
Context `{seg : Segmenter}.

(** The FATAL branch of [InitJiebaUtil] is dead: without a stop-word
    file the first [CutString] aborts the process in the constructor,
    before [InitJiebaUtil] runs; with one, the table holds its lines. *)
Lemma CutString_no_stop_file s : CutString None None s = None.
Proof. reflexivity. Qed.

Lemma CutString_first f s :
  CutString None (Some f) s
  = Some (CutStringHelper (InitJiebaUtil (Some f)) s, Some (InitJiebaUtil (Some f))).
Proof. reflexivity. Qed.
End claims.
