(* ===== verification/Singleton.v ===== *)
(** * The double-checked-locking singletons

    [Index::get_instance] ([src/index.hpp]) and [JiebaUtil::get_instance]
    ([src/tools.hpp]) have the same shape:
<<
    if (instance == nullptr) {         // Start
        mtx.lock();                    // Lock
        if (instance == nullptr)       // Check
            instance = new T(); ...    //   (and InitJiebaUtil for JiebaUtil)
        mtx.unlock();                  // Unlock
    }
    return instance;                   // Ret
>>
    Here any number of threads run [get_instance] concurrently, one
    statement at a time in any interleaving (sequential consistency):
    [step] is the transition relation, one constructor per statement of
    one thread, [thread_step] its executable form.  Objects are numbered
    in allocation order, so [allocs] counts the [new] expressions
    executed.  The model does not cover the weak memory of C++, under
    which the unlocked read of [instance] is a data race. *)

From S2P Require Import Prelude.

Module DCL.

(** Where each thread is in [get_instance]; [Done r] has returned [r]
    ([None] is [nullptr]). *)
Inductive pc :=
  | Start
  | Lock
  | Check
  | Unlock
  | Ret
  | Done (r : option nat).

#[export] Instance pc_eq_dec : EqDecision pc.
Proof. solve_decision. Defined.

Record state := mkState {
  instance : option nat;
  mtx : option nat;
  allocs : nat;
  threads : list pc;
}.

Definition set_pc (s : state) (i : nat) (p : pc) : state :=
  mkState (instance s) (mtx s) (allocs s) (<[i := p]> (threads s)).

(** [n] threads about to call [get_instance], nothing allocated. *)
Definition init (n : nat) : state := mkState None None 0 (replicate n Start).

Inductive step : state -> state -> Prop :=
  | step_fast s i p :
      threads s !! i = Some Start -> instance s = Some p ->
      step s (set_pc s i (Done (Some p)))
  | step_slow s i :
      threads s !! i = Some Start -> instance s = None ->
      step s (set_pc s i Lock)
  | step_lock s i :
      threads s !! i = Some Lock -> mtx s = None ->
      step s (mkState (instance s) (Some i) (allocs s) (<[i := Check]> (threads s)))
  | step_new s i :
      threads s !! i = Some Check -> instance s = None ->
      step s (mkState (Some (allocs s)) (mtx s) (S (allocs s)) (<[i := Unlock]> (threads s)))
  | step_skip s i p :
      threads s !! i = Some Check -> instance s = Some p ->
      step s (set_pc s i Unlock)
  | step_unlock s i :
      threads s !! i = Some Unlock ->
      step s (mkState (instance s) None (allocs s) (<[i := Ret]> (threads s)))
  | step_ret s i :
      threads s !! i = Some Ret ->
      step s (set_pc s i (Done (instance s))).

Definition reachable (n : nat) (s : state) : Prop := rtc step (init n) s.

(** The statement thread [i] executes next, if it can ([mtx.lock()]
    blocks while another thread holds the mutex). *)
Definition thread_step (s : state) (i : nat) : option state :=
  match threads s !! i with
  | Some Start =>
      match instance s with
      | Some p => Some (set_pc s i (Done (Some p)))
      | None => Some (set_pc s i Lock)
      end
  | Some Lock =>
      match mtx s with
      | None => Some (mkState (instance s) (Some i) (allocs s) (<[i := Check]> (threads s)))
      | Some _ => None
      end
  | Some Check =>
      match instance s with
      | None => Some (mkState (Some (allocs s)) (mtx s) (S (allocs s)) (<[i := Unlock]> (threads s)))
      | Some _ => Some (set_pc s i Unlock)
      end
  | Some Unlock => Some (mkState (instance s) None (allocs s) (<[i := Ret]> (threads s)))
  | Some Ret => Some (set_pc s i (Done (instance s)))
  | Some (Done _) | None => None
  end.

(** Run a schedule: the threads to step, in order; [None] when a
    scheduled thread cannot move. *)
Fixpoint run (s : state) (sched : list nat) : option state :=
  match sched with
  | [] => Some s
  | i :: sched' => s' ← thread_step s i; run s' sched'
  end.

(** Statements left to a thread: the measure of termination. *)
Definition remaining (p : pc) : nat :=
  match p with
  | Start => 5 | Lock => 4 | Check => 3 | Unlock => 2 | Ret => 1 | Done _ => 0
  end.

Definition measure (s : state) : nat := sum_list (remaining <$> threads s).

Definition is_done (p : pc) : Prop := exists r, p = Done r.

#[export] Instance is_done_dec p : Decision (is_done p).
Proof.
  destruct p; try (right; intros [? ?]; discriminate). left. eexists; reflexivity.
Defined.

(** The invariant: the single object is object [0]; the mutex is held
    exactly by the thread in its critical section; a thread past the
    check, and a thread that returned, sees the object. *)
Record inv (s : state) : Prop := {
  inv_alloc : (allocs s = 0 /\ instance s = None) \/ (allocs s = 1 /\ instance s = Some 0);
  inv_crit : forall i, threads s !! i = Some Check \/ threads s !! i = Some Unlock <->
                       mtx s = Some i;
  inv_past : forall i, threads s !! i = Some Unlock \/ threads s !! i = Some Ret ->
                       instance s = Some 0;
  inv_done : forall i r, threads s !! i = Some (Done r) -> r = Some 0 /\ instance s = Some 0;
}.

(** The race of two threads that both see [nullptr]: thread 0 creates
    the object while thread 1 waits for the mutex, then thread 1 finds it. *)
Definition race_schedule : list nat := [0; 1; 0; 0; 0; 1; 1; 1; 0; 1].

Definition race_final : state := mkState (Some 0) None 1 [Done (Some 0); Done (Some 0)].


(** ** Lemmas *)

Lemma inv_init n : inv (init n).
Proof.
  constructor; cbn.
  - by left.
  - intros i. rewrite !lookup_replicate. split; [intros [[? _]|[? _]]; done | done].
  - intros i. rewrite !lookup_replicate. intros [[? _]|[? _]]; done.
  - intros i r. rewrite lookup_replicate. intros [? _]; done.
Qed.

Ltac inv_case Hi :=
  constructor; cbn [instance mtx allocs threads]; [| intros k | intros k | intros k r];
  repeat match goal with
  | |- context [<[_ := _]> _ !! ?k] => rewrite (lookup_insert_at _ _ k _ _ Hi)
  end;
  try (case_decide; [subst|]).

Lemma inv_step s s' : inv s -> step s s' -> inv s'.
Proof.
  intros [Ha Hc Hp Hd] Hst.
  destruct Hst as [s i p Hi Hs|s i Hi Hs|s i Hi Hs|s i Hi Hs|s i p Hi Hs|s i Hi|s i Hi];
    pose proof (Hc i) as Hci; pose proof (Hp i) as Hpi; pose proof (Hd i) as Hdi;
    unfold set_pc; inv_case Hi;
    try (specialize (Hc k); specialize (Hp k)); try specialize (Hd k r).
  all: simpl; intuition congruence.
Qed.

Lemma rtc_inv s s' : rtc step s s' -> inv s -> inv s'.
Proof. induction 1; eauto using inv_step. Qed.

Lemma reachable_inv n s : reachable n s -> inv s.
Proof. intros H. eapply rtc_inv; [exact H | apply inv_init]. Qed.

Lemma thread_step_sound s i s' : thread_step s i = Some s' -> step s s'.
Proof.
  unfold thread_step. destruct (threads s !! i) as [[| | | | |r]|] eqn:Hi; try done.
  - destruct (instance s) eqn:?; intros [= <-]; by constructor.
  - destruct (mtx s) eqn:?; intros [= <-]; by constructor.
  - destruct (instance s) eqn:?; intros [= <-]; [by eapply step_skip | by constructor].
  - intros [= <-]. by constructor.
  - intros [= <-]. by constructor.
Qed.

Lemma run_reachable n sched s : run (init n) sched = Some s -> reachable n s.
Proof.
  unfold reachable. generalize (init n) as s0. revert s.
  induction sched as [|i sched IH]; intros s s0 H; simpl in H.
  - by injection H as ->.
  - destruct (thread_step s0 i) as [s1|] eqn:E; [|done].
    eapply rtc_l; [exact (thread_step_sound _ _ _ E) | by apply IH].
Qed.

Lemma step_measure s s' : step s s' -> measure s' < measure s.
Proof.
  unfold measure. destruct 1 as [s i p Hi|s i Hi|s i Hi|s i Hi|s i p Hi|s i Hi|s i Hi];
    unfold set_pc; cbn [threads];
    match goal with Hi : threads _ !! _ = Some ?x |- context [<[_ := ?y]> _] =>
      pose proof (sum_list_insert remaining _ _ x y Hi) end;
    simpl in *; lia.
Qed.

(** A thread that is not done can move, unless it waits for a mutex
    held by another thread. *)
Lemma thread_step_blocked s i p :
  threads s !! i = Some p -> ¬ is_done p -> thread_step s i = None ->
  p = Lock /\ exists h, mtx s = Some h.
Proof.
  unfold thread_step. intros -> Hp. destruct p as [| | | | |r]; try done.
  - by destruct (instance s).
  - destruct (mtx s) as [h|]; [by eauto | done].
  - by destruct (instance s).
  - by destruct Hp; eexists.
Qed.

Lemma inv_progress s : inv s -> ¬ Forall is_done (threads s) -> exists s', step s s'.
Proof.
  intros Hinv Hnd. apply not_Forall_Exists in Hnd; [|apply _].
  apply Exists_exists in Hnd as (p & Hp & Hnd). apply list_elem_of_lookup in Hp as [i Hi].
  destruct (thread_step s i) as [s'|] eqn:E; [exists s'; exact (thread_step_sound _ _ _ E)|].
  destruct (thread_step_blocked s i p Hi Hnd E) as [-> [h Hh]].
  apply (inv_crit _ Hinv) in Hh.
  destruct (thread_step s h) as [s'|] eqn:Eh; [exists s'; exact (thread_step_sound _ _ _ Eh)|].
  destruct Hh as [Hh|Hh]; destruct (thread_step_blocked s h _ Hh) as [? _];
    try done; intros [? ?]; discriminate.
Qed.

(** One thread alone gets the existing object, or creates one: the
    sequential behaviour [index_get_instance] of [Pipeline.v] has. *)
Lemma solo_get_instance o a :
  run (mkState o None a [Start]) (if o is Some _ then [0] else [0; 0; 0; 0; 0])
  = Some (match o with
          | Some p => mkState (Some p) None a [Done (Some p)]
          | None => mkState (Some a) None (S a) [Done (Some a)]
          end).
Proof. by destruct o. Qed.

(** ** Properties of [get_instance] *)

(** C25. Exactly-once construction under any interleaving of any number
    of threads: at most one object is ever created, and every thread
    that has returned from [get_instance] returned that object (never
    [nullptr]). *)
Theorem get_instance_exactly_once n s :
  reachable n s ->
  allocs s <= 1
  /\ forall i r, threads s !! i = Some (Done r) -> r = Some 0 /\ instance s = r /\ allocs s = 1.
Proof.
  intros Hr. destruct (reachable_inv n s Hr) as [Ha _ _ Hd]. split; [lia|].
  intros i r Hi. destruct (Hd i r Hi) as [-> Hinst]. rewrite Hinst.
  destruct Ha as [[_ Hn]|[H1 _]]; [congruence | done].
Qed.

(** C36. No deadlock and no livelock: in every reachable state either all
    threads have returned or some statement can execute, and every
    statement decreases [measure], which starts at [5 n]: every execution
    ends, after at most [5 n] statements, with all threads returned. *)
Theorem get_instance_terminates n s :
  reachable n s ->
  (Forall is_done (threads s) \/ exists s', step s s')
  /\ (forall s', step s s' -> measure s' < measure s)
  /\ measure (init n) = 5 * n.
Proof.
  intros Hr. split_and!.
  - destruct (decide (Forall is_done (threads s))) as [|Hnd]; [by left|right].
    apply inv_progress; [by eapply reachable_inv | done].
  - intros s'. apply step_measure.
  - unfold measure, init. cbn [threads]. rewrite fmap_replicate, sum_list_replicate. simpl. lia.
Qed.
End DCL.

(** ** Witnesses *)

Lemma get_instance_exactly_once_witness :
  DCL.threads DCL.race_final = [DCL.Done (Some 0); DCL.Done (Some 0)] /\ DCL.allocs DCL.race_final <= 1.
Proof.
  split; [reflexivity|].
  exact (proj1 (DCL.get_instance_exactly_once 2 DCL.race_final
                  (DCL.run_reachable 2 DCL.race_schedule DCL.race_final ltac:(vm_compute; reflexivity)))).
Defined.

Lemma get_instance_terminates_witness :
  Forall DCL.is_done (DCL.threads DCL.race_final) \/ exists s', DCL.step DCL.race_final s'.
Proof.
  exact (proj1 (DCL.get_instance_terminates 2 DCL.race_final
                  (DCL.run_reachable 2 DCL.race_schedule DCL.race_final ltac:(vm_compute; reflexivity)))).
Defined.
