(* ===== verification/Index.v ===== *)
(** * The index: [src/index.hpp]

    The state of the [Index] singleton is the record [Index]: the forward
    index ([std::vector<Doc>], where a document's id is its position) and
    the inverted index ([std::unordered_map<std::string, inverted_list>],
    a [gmap]).  [create_forward_index], [create_inverted_index] and
    [create_index] are the methods of the same names, as functions from the
    state before to the state after; [get_forward_index] and
    [get_inverted_index] are the two readers.  The tokenizer is the
    initialised [JiebaUtil] singleton [j] with a segmenter, a section
    variable.

    The inverted index is filled by iterating the per-document
    [std::unordered_map] [word_cnt], whose order is unspecified: the model
    iterates [map_to_list] and [create_inverted_index_order_independent]
    proves that every other order gives the same index. *)

From S2P Require Import Prelude CppString Tokenizer.

(** ** Data *)

(** [class Doc]. *)
Record Doc := mkDoc {
  title_ : text;
  content_ : text;
  url_ : text;
  id_ : nat;
}.

(** [class Inverted_item] (its [id_] is [item_id_] here: record fields
    share one namespace). *)
Record Inverted_item := mkItem {
  item_id_ : nat;
  word_ : text;
  weight_ : Z;
}.

(** [using inverted_list = std::vector<Inverted_item>]. *)
Abbreviation inverted_list := (list Inverted_item).

(** [class Index]: its two fields. *)
Record Index := mkIndex {
  forward_index : list Doc;
  inverted_index : gmap text inverted_list;
}.

Definition empty_index : Index := mkIndex [] ∅.

(** [struct word_num] of [create_inverted_index], both counters
    initialised to 0. *)
Record word_num := mkWordNum { title_num : nat; content_num : nat }.
Definition word_num0 : word_num := mkWordNum 0 0.

(** [#define TITLE 5] and [#define CONTENT 1]. *)
Definition TITLE : Z := 5.
Definition CONTENT : Z := 1.

(** The field separator of the corpus, ['\3']. *)
Definition SEP : ascii := "003"%char.

(** ** Operations *)

Section index.
Context `{seg : Segmenter} (j : JiebaUtil).

(** [create_forward_index]: split the line on ['\3']; exactly three
    fields make a [Doc] with the next id, appended to the forward index. *)
Definition create_forward_index (idx : Index) (data_line : text) : bool * Index :=
  match split_string data_line [SEP] with
  | [t; c; u] =>
      (true, mkIndex (forward_index idx ++ [mkDoc t c u (length (forward_index idx))])
                     (inverted_index idx))
  | _ => (false, idx)
  end.

(** The words of a field: [JiebaUtil::CutString] then [boost::to_lower]
    on each. *)
Definition field_words (field : text) : list text :=
  to_lower <$> CutStringHelper j field.

Definition bump_title (n : word_num) : word_num :=
  mkWordNum (S (title_num n)) (content_num n).
Definition bump_content (n : word_num) : word_num :=
  mkWordNum (title_num n) (S (content_num n)).

(** The two counting loops: [word_cnt[word].title_num += 1] over the
    title words, then [word_cnt[word].content_num += 1] over the content
    words. *)
Definition count_words (doc : Doc) : gmap text word_num :=
  let word_cnt := foldl (fun m w => subscript_update word_num0 bump_title w m)
                        ∅ (field_words (title_ doc)) in
  foldl (fun m w => subscript_update word_num0 bump_content w m)
        word_cnt (field_words (content_ doc)).

(** [int weight = title_num*TITLE + content_num*CONTENT]. *)
Definition word_weight (n : word_num) : Z :=
  Z.of_nat (title_num n) * TITLE + Z.of_nat (content_num n) * CONTENT.

(** One iteration of the last loop: [inverted_index[word].push_back]. *)
Definition push_posting (doc : Doc) (inv : gmap text inverted_list)
    (entry : text * word_num) : gmap text inverted_list :=
  let '(w, n) := entry in
  subscript_update [] (fun l => l ++ [mkItem (id_ doc) w (word_weight n)]) w inv.

(** The last loop, over the entries of [word_cnt] in a given order. *)
Definition create_inverted_index_in (doc : Doc) (order : list (text * word_num))
    (idx : Index) : Index :=
  mkIndex (forward_index idx) (foldl (push_posting doc) (inverted_index idx) order).

(** [create_inverted_index]: count, then post every counted word. *)
Definition create_inverted_index (idx : Index) (doc : Doc) : Index :=
  create_inverted_index_in doc (map_to_list (count_words doc)) idx.

(** The body of the [getline] loop of [create_index]: a line that does
    not make a document is skipped; otherwise the document just appended
    ([forward_index.back()]) is indexed. *)
Definition index_line (idx : Index) (data_line : text) : Index :=
  match create_forward_index idx data_line with
  | (false, idx') => idx'
  | (true, idx') =>
      match last (forward_index idx') with
      | Some doc => create_inverted_index idx' doc
      | None => idx'
      end
  end.

(** [create_index(input)]: the file is [None] when it cannot be opened,
    and [false] is returned with the state unchanged. *)
Definition create_index (input : option text) (idx : Index) : bool * Index :=
  match input with
  | None => (false, idx)
  | Some contents => (true, foldl index_line idx (getlines contents))
  end.
End index.

(** [get_forward_index(id)]: [nullptr] for an id out of range. *)
Definition get_forward_index (idx : Index) (id : nat) : option Doc :=
  if bool_decide (length (forward_index idx) <= id) then None
  else forward_index idx !! id.

(** [get_inverted_index(word)]: [nullptr] when the word was never indexed. *)
Definition get_inverted_index (idx : Index) (word : text) : option inverted_list :=
  inverted_index idx !! word.

#[export] Instance Doc_eq_dec : EqDecision Doc.
Proof. solve_decision. Defined.
#[export] Instance Inverted_item_eq_dec : EqDecision Inverted_item.
Proof. solve_decision. Defined.
#[export] Instance word_num_eq_dec : EqDecision word_num.
Proof. solve_decision. Defined.

(** A corpus line that [create_forward_index] accepts. *)
Definition well_formed_line (l : text) : Prop := length (split_string l [SEP]) = 3.

#[export] Instance well_formed_line_dec l : Decision (well_formed_line l).
Proof. unfold well_formed_line. apply _. Defined.

(** A concrete tokenizer and corpus for the witnesses: no stop words, two
    well-formed records around a malformed line. *)
Definition demo_jieba : JiebaUtil := {| stop_words := ∅ |}.

Definition demo_corpus : text :=
  txt "Hello World" ++ [SEP] ++ txt "the body hello" ++ [SEP] ++ txt "u0" ++ [newline]
  ++ txt "no separator here" ++ [newline]
  ++ txt "b" ++ [SEP] ++ txt "Hello" ++ [SEP] ++ txt "u1" ++ [newline].

Definition demo_index : Index :=
  snd (create_index (seg := space_segmenter) demo_jieba (Some demo_corpus) empty_index).

(** ** Specification of a document's postings *)

(** Occurrences of [w] in a word list. *)
Definition occ (w : text) (ws : list text) : nat := length (filter (eq w) ws).

Section spec.
Context `{seg : Segmenter} (j : JiebaUtil).

(** The words a document is indexed under. *)
Definition doc_terms (d : Doc) : list text :=
  field_words j (title_ d) ++ field_words j (content_ d).

(** The weight the spec prescribes: 5 per title occurrence, 1 per body
    occurrence, of the case-folded word. *)
Definition term_weight (d : Doc) (w : text) : Z :=
  Z.of_nat (occ w (field_words j (title_ d))) * 5
  + Z.of_nat (occ w (field_words j (content_ d))).

(** ** The invariant of the index *)

(** A posting of word [w] in a forward index [fwd]: it names a document
    that has [w] among its terms, and carries the weight of the spec. *)
Definition posting_ok (fwd : list Doc) (w : text) (it : Inverted_item) : Prop :=
  word_ it = w /\
  exists d, fwd !! item_id_ it = Some d /\ w ∈ doc_terms d
            /\ weight_ it = term_weight d w.

Record index_wf (idx : Index) : Prop := {
  wf_ids : forall i d, forward_index idx !! i = Some d -> id_ d = i;
  wf_sorted : forall w items, inverted_index idx !! w = Some items ->
    StronglySorted (fun a b => item_id_ a < item_id_ b) items;
  wf_postings : forall w items it, inverted_index idx !! w = Some items ->
    it ∈ items -> posting_ok (forward_index idx) w it;
  wf_complete : forall i d w, forward_index idx !! i = Some d -> w ∈ doc_terms d ->
    exists items it, inverted_index idx !! w = Some items /\ it ∈ items
                     /\ item_id_ it = i;
}.

End spec.

(** ** Lemmas *)

Section spec_lemmas.
Context `{seg : Segmenter} (j : JiebaUtil).

Lemma iter_bump_title k n :
  Nat.iter k bump_title n = mkWordNum (title_num n + k) (content_num n).
Proof.
  induction k as [|k IH]; simpl; [destruct n; simpl; by rewrite Nat.add_0_r|].
  rewrite IH. unfold bump_title, bump_content. simpl. f_equal. lia.
Qed.

Lemma iter_bump_content k n :
  Nat.iter k bump_content n = mkWordNum (title_num n) (content_num n + k).
Proof.
  induction k as [|k IH]; simpl; [destruct n; simpl; by rewrite Nat.add_0_r|].
  rewrite IH. unfold bump_title, bump_content. simpl. f_equal. lia.
Qed.

Lemma occ_not_elem w ws : w ∉ ws -> occ w ws = 0.
Proof. intros Hw. unfold occ. by rewrite filter_eq_not_elem. Qed.

(** [word_cnt] after the two counting loops. *)
Lemma lookup_count_words d w :
  count_words j d !! w
  = if decide (w ∈ doc_terms j d)
    then Some (mkWordNum (occ w (field_words j (title_ d)))
                         (occ w (field_words j (content_ d))))
    else None.
Proof.
  unfold count_words, doc_terms.
  rewrite lookup_foldl_subscript_update, lookup_foldl_subscript_update, lookup_empty.
  fold (occ w (field_words j (title_ d))) (occ w (field_words j (content_ d))).
  rewrite iter_bump_content.
  destruct (decide (w ∈ field_words j (title_ d))) as [Ht|Ht];
    destruct (decide (w ∈ field_words j (content_ d))) as [Hc|Hc];
    rewrite ?decide_True, ?decide_False by set_solver; simpl;
    rewrite ?iter_bump_title;
    repeat match goal with H : ?x ∉ ?l |- _ => rewrite (occ_not_elem x l H); clear H end;
    done.
Qed.

(** The posting loop over entries with distinct words. *)
Lemma lookup_foldl_push_posting d (l : list (text * word_num)) inv w :
  NoDup l.*1 ->
  foldl (push_posting d) inv l !! w
  = match (list_to_map l : gmap text word_num) !! w with
    | Some n => Some (default [] (inv !! w) ++ [mkItem (id_ d) w (word_weight n)])
    | None => inv !! w
    end.
Proof.
  revert inv. induction l as [|[k n] l IH]; intros inv Hnd; [done|].
  apply NoDup_cons in Hnd as [Hk Hnd]. simpl. rewrite IH by done.
  unfold push_posting. rewrite !lookup_subscript_update.
  destruct (decide (k = w)) as [<-|Hne].
  - rewrite lookup_insert_eq, not_elem_of_list_to_map_1 by done. done.
  - by rewrite lookup_insert_ne.
Qed.

(** The inverted index after the posting loop, for any iteration order of
    [word_cnt]: every word of the document gets one posting appended,
    with the weight of the spec; every other list is unchanged. *)
Lemma lookup_create_inverted_index_in d order idx w :
  order ≡ₚ map_to_list (count_words j d) ->
  inverted_index (create_inverted_index_in d order idx) !! w
  = if decide (w ∈ doc_terms j d)
    then Some (default [] (inverted_index idx !! w)
               ++ [mkItem (id_ d) w (term_weight j d w)])
    else inverted_index idx !! w.
Proof.
  intros Hp. simpl.
  assert (Hnd : NoDup order.*1) by (rewrite Hp; apply NoDup_fst_map_to_list).
  rewrite lookup_foldl_push_posting by done.
  rewrite (list_to_map_proper order (map_to_list (count_words j d))) by done.
  rewrite list_to_map_to_list, lookup_count_words.
  case_decide; [|done]. do 4 f_equal.
  unfold word_weight, term_weight, TITLE, CONTENT. simpl. lia.
Qed.

Lemma lookup_create_inverted_index d idx w :
  inverted_index (create_inverted_index j idx d) !! w
  = if decide (w ∈ doc_terms j d)
    then Some (default [] (inverted_index idx !! w)
               ++ [mkItem (id_ d) w (term_weight j d w)])
    else inverted_index idx !! w.
Proof. by apply lookup_create_inverted_index_in. Qed.

Lemma index_wf_empty : index_wf j empty_index.
Proof. split; simpl; intros *; rewrite ?lookup_nil, ?lookup_empty; done. Qed.

Lemma posting_ok_snoc fwd d w it :
  posting_ok j fwd w it -> posting_ok j (fwd ++ [d]) w it.
Proof.
  intros (Hw & d' & Hd' & Ht & Hwt). split; [done|]. exists d'.
  split; [|done]. rewrite lookup_app_l; [done|]. by eapply lookup_lt_Some.
Qed.

Lemma posting_ok_lt fwd w it : posting_ok j fwd w it -> item_id_ it < length fwd.
Proof. intros (_ & d & Hd & _). by eapply lookup_lt_Some. Qed.
End spec_lemmas.

Section preservation.
Context `{seg : Segmenter} (j : JiebaUtil).

(** Appending a document with the next id and posting its words keeps
    the invariant. *)
Lemma index_wf_append idx d :
  index_wf j idx -> id_ d = length (forward_index idx) ->
  index_wf j (create_inverted_index j
                (mkIndex (forward_index idx ++ [d]) (inverted_index idx)) d).
Proof.
  intros [Hids Hsort Hpost Hcomp] Hid.
  assert (Hnew : (forward_index idx ++ [d]) !! id_ d = Some d).
  { apply lookup_snoc_Some. by right. }
  split; cbn [create_inverted_index create_inverted_index_in forward_index].
  - intros i d' H. apply lookup_snoc_Some in H as [[_ H]|[-> <-]]; eauto.
  - intros w items. rewrite lookup_create_inverted_index. simpl. case_decide; [|eauto].
    intros [= <-]. apply StronglySorted_app_2.
    + intros x1 x2 Hx1 Hx2. apply list_elem_of_singleton in Hx2 as ->. simpl.
      destruct (inverted_index idx !! w) eqn:E; simpl in Hx1; [|set_solver].
      rewrite Hid. eapply posting_ok_lt, Hpost; eauto.
    + destruct (inverted_index idx !! w) eqn:E; simpl; [eauto | constructor].
    + repeat constructor.
  - intros w items it. rewrite lookup_create_inverted_index. simpl.
    case_decide; [|eauto using posting_ok_snoc].
    intros [= <-] Hit. apply elem_of_app in Hit as [Hit|Hit].
    + destruct (inverted_index idx !! w) eqn:E; simpl in Hit; [|set_solver].
      eauto using posting_ok_snoc.
    + apply list_elem_of_singleton in Hit as ->. split; [done|]. by exists d.
  - intros i d' w H Hw. rewrite lookup_create_inverted_index. simpl.
    apply lookup_snoc_Some in H as [[_ H]|[-> <-]].
    + destruct (Hcomp i d' w H Hw) as (items & it & Hi & Hit & Hid').
      case_decide; [|eauto]. rewrite Hi. eexists _, it. simpl.
      split_and!; [done | apply elem_of_app; by left | done].
    + rewrite decide_True by done.
      eexists _, (mkItem (id_ d) w (term_weight j d w)). split_and!; [done | | exact Hid].
      apply elem_of_app. right. by apply list_elem_of_singleton.
Qed.

Lemma index_line_wf idx line : index_wf j idx -> index_wf j (index_line j idx line).
Proof.
  intros Hwf. unfold index_line, create_forward_index.
  destruct (split_string line [SEP]) as [|t [|c [|u [|? ?]]]]; try done.
  cbn [forward_index]. rewrite last_snoc. by apply index_wf_append.
Qed.

Lemma foldl_index_line_wf idx lines :
  index_wf j idx -> index_wf j (foldl (index_line j) idx lines).
Proof. revert idx. induction lines; simpl; eauto using index_line_wf. Qed.
End preservation.

Section claims_lemmas.
Context `{seg : Segmenter} (j : JiebaUtil).

Lemma get_forward_index_lookup idx i : get_forward_index idx i = forward_index idx !! i.
Proof.
  unfold get_forward_index. case_bool_decide; [|done].
  symmetry. by apply lookup_ge_None_2.
Qed.

Lemma create_index_wf input : index_wf j (snd (create_index j input empty_index)).
Proof. destruct input; simpl; [apply foldl_index_line_wf|]; apply index_wf_empty. Qed.

Lemma field_words_factor `{!SegmenterFactors seg} f w :
  w ∈ field_words j f -> w `factor_of` to_lower f.
Proof.
  unfold field_words. intros (t & -> & Ht)%list_elem_of_fmap.
  apply factor_map. by eapply CutStringHelper_factor.
Qed.

Lemma occ_le w ws : occ w ws <= length ws.
Proof. apply length_filter. Qed.

Lemma index_line_malformed idx l : ¬ well_formed_line l -> index_line j idx l = idx.
Proof.
  unfold well_formed_line, index_line, create_forward_index.
  by case_arity (split_string l [SEP]).
Qed.

Lemma length_forward_index_line idx l :
  length (forward_index (index_line j idx l))
  = length (forward_index idx) + if decide (well_formed_line l) then 1 else 0.
Proof.
  destruct (decide (well_formed_line l)) as [Hl|Hl];
    [|rewrite index_line_malformed by done; lia].
  unfold well_formed_line in Hl. unfold index_line, create_forward_index.
  case_arity (split_string l [SEP]); simpl in Hl; try lia.
  cbn [forward_index]. rewrite last_snoc. simpl. rewrite length_app. simpl. lia.
Qed.
End claims_lemmas.

(** ** Properties of the built index *)

Section claims.
Context `{seg : Segmenter} (j : JiebaUtil).

(** C1. Weight correctness: every posting of word [w] in the index built
    from a corpus names a document of the forward index and carries the
    weight 5 x (occurrences of [w] among the case-folded title words)
    + 1 x (occurrences among the case-folded body words). *)
Theorem posting_weight_exact input w items it :
  let idx := snd (create_index j input empty_index) in
  get_inverted_index idx w = Some items -> it ∈ items ->
  word_ it = w /\
  exists d, get_forward_index idx (item_id_ it) = Some d
            /\ weight_ it = (Z.of_nat (occ w (field_words j (title_ d))) * 5
                             + Z.of_nat (occ w (field_words j (content_ d))))%Z.
Proof.
  intros idx Hw Hit.
  destruct (wf_postings _ _ (create_index_wf j input) w items it Hw Hit)
    as (Hword & d & Hd & _ & Hwt).
  split; [done|]. exists d. by rewrite get_forward_index_lookup.
Qed.

(** C2. Id contiguity: in the index built from a corpus, the ids that
    [get_forward_index] answers form the range [0, N), N the length of
    the forward index, and the document at [i] has id [i]. *)
Theorem forward_ids_contiguous input i :
  let idx := snd (create_index j input empty_index) in
  (exists d, get_forward_index idx i = Some d /\ id_ d = i)
  <-> i < length (forward_index idx).
Proof.
  intros idx. pose proof (create_index_wf j input) as Hwf.
  setoid_rewrite get_forward_index_lookup. split.
  - intros (d & Hd & _). by eapply lookup_lt_Some.
  - intros Hi. destruct (lookup_lt_is_Some_2 _ _ Hi) as [d Hd].
    exists d. split; [done|]. by eapply wf_ids.
Qed.

(** C3. Completeness: every case-folded word of the title or body of an
    indexed document has a posting for that document. *)
Theorem postings_complete input i d w :
  let idx := snd (create_index j input empty_index) in
  get_forward_index idx i = Some d -> w ∈ doc_terms j d ->
  exists items it, get_inverted_index idx w = Some items /\ it ∈ items
                   /\ item_id_ it = i.
Proof.
  intros idx Hd Hw. rewrite get_forward_index_lookup in Hd.
  by eapply (wf_complete _ _ (create_index_wf j input)).
Qed.

(** C4. Soundness of the postings: when the segmenter returns factors of
    its input, a posting of [w] names a document whose case-folded title
    or case-folded body contains [w]. *)
Theorem posting_term_occurs `{!SegmenterFactors seg} input w items it :
  let idx := snd (create_index j input empty_index) in
  get_inverted_index idx w = Some items -> it ∈ items ->
  exists d, get_forward_index idx (item_id_ it) = Some d
            /\ (w `factor_of` to_lower (title_ d) \/ w `factor_of` to_lower (content_ d)).
Proof.
  intros idx Hw Hit.
  destruct (wf_postings _ _ (create_index_wf j input) w items it Hw Hit)
    as (_ & d & Hd & Hterm & _).
  exists d. rewrite get_forward_index_lookup. split; [done|].
  apply elem_of_app in Hterm as [H|H]; [left|right]; by apply (field_words_factor j).
Qed.

(** C5. Posting order: each posting list is in strictly increasing
    document-id order (the order documents were processed), so a
    document appears at most once per word. *)
Theorem postings_sorted input w items :
  let idx := snd (create_index j input empty_index) in
  get_inverted_index idx w = Some items ->
  StronglySorted (fun a b => item_id_ a < item_id_ b) items.
Proof. intros idx Hw. by eapply (wf_sorted _ _ (create_index_wf j input)). Qed.

(** C6. Skip semantics: a corpus line that does not split into exactly
    three fields changes nothing; building from a corpus is building from
    its well-formed lines only. *)
Theorem create_index_skips_malformed contents idx :
  snd (create_index j (Some contents) idx)
  = foldl (index_line j) idx (filter well_formed_line (getlines contents)).
Proof.
  simpl. generalize (getlines contents). clear contents.
  induction l as [|l ls IH] in idx |- *; [done|]. rewrite filter_cons. simpl.
  case_decide; [apply IH|]. rewrite index_line_malformed by done. apply IH.
Qed.

(** Document count: the forward index has one document per
    well-formed corpus line. *)
Theorem forward_count contents :
  length (forward_index (snd (create_index j (Some contents) empty_index)))
  = length (filter well_formed_line (getlines contents)).
Proof.
  simpl. assert (Hfold : forall ls idx,
    length (forward_index (foldl (index_line j) idx ls))
    = length (forward_index idx) + length (filter well_formed_line ls)).
  { induction ls as [|l ls IH]; intros idx; simpl; [lia|].
    rewrite IH, length_forward_index_line, filter_cons. case_decide; simpl; lia. }
  by rewrite Hfold.
Qed.

(** C8. Independence from hash order: posting the entries of [word_cnt]
    in any order (the iteration order of [std::unordered_map] is
    unspecified) builds the same index. *)
Theorem create_inverted_index_order_independent d order idx :
  order ≡ₚ map_to_list (count_words j d) ->
  create_inverted_index_in d order idx = create_inverted_index j idx d.
Proof.
  intros Hp. unfold create_inverted_index. destruct idx as [fwd inv].
  unfold create_inverted_index_in. f_equal. apply map_eq. intros w.
  pose proof (lookup_create_inverted_index_in j d order (mkIndex fwd inv) w Hp) as H1.
  pose proof (lookup_create_inverted_index_in j d _ (mkIndex fwd inv) w
                (reflexivity (map_to_list (count_words j d)))) as H2.
  etrans; [exact H1|]. symmetry. exact H2.
Qed.

(** Bounds of a weight: a posting's weight lies between 0 and
    5 x (number of title words) + (number of body words) of its document,
    so the C++ [int] computation cannot overflow while that sum is at
    most 2^31 - 1. *)
Theorem posting_weight_bounds input w items it :
  let idx := snd (create_index j input empty_index) in
  get_inverted_index idx w = Some items -> it ∈ items ->
  exists d, get_forward_index idx (item_id_ it) = Some d
            /\ (0 <= weight_ it <= Z.of_nat (length (field_words j (title_ d))) * 5
                                 + Z.of_nat (length (field_words j (content_ d))))%Z.
Proof.
  intros idx Hw Hit.
  destruct (wf_postings _ _ (create_index_wf j input) w items it Hw Hit)
    as (_ & d & Hd & _ & ->).
  exists d. rewrite get_forward_index_lookup. split; [done|].
  unfold term_weight. pose proof (occ_le w (field_words j (title_ d))).
  pose proof (occ_le w (field_words j (content_ d))). lia.
Qed.
End claims.

(** ** Witnesses, on [demo_corpus] with the space segmenter *)

Lemma posting_weight_exact_witness :
  let it := mkItem 0 (txt "hello") 6 in
  let items := [it; mkItem 1 (txt "hello") 1] in
  get_inverted_index demo_index (txt "hello") = Some items /\ it ∈ items /\
  (word_ it = txt "hello" /\
   exists d, get_forward_index demo_index (item_id_ it) = Some d
             /\ weight_ it = (Z.of_nat (occ (txt "hello") (field_words demo_jieba (title_ d))) * 5
                              + Z.of_nat (occ (txt "hello") (field_words demo_jieba (content_ d))))%Z).
Proof.
  intros it items.
  assert (Hw : get_inverted_index demo_index (txt "hello") = Some items) by (vm_compute; reflexivity).
  assert (Hit : it ∈ items) by apply list_elem_of_here.
  split; [exact Hw|]. split; [exact Hit|].
  exact (posting_weight_exact demo_jieba (Some demo_corpus) _ _ _ Hw Hit).
Defined.

Lemma postings_complete_witness :
  let d := mkDoc (txt "b") (txt "Hello") (txt "u1") 1 in
  get_forward_index demo_index 1 = Some d /\ txt "hello" ∈ doc_terms demo_jieba d /\
  exists items it, get_inverted_index demo_index (txt "hello") = Some items /\ it ∈ items
                   /\ item_id_ it = 1.
Proof.
  intros d.
  assert (Hd : get_forward_index demo_index 1 = Some d) by (vm_compute; reflexivity).
  assert (Hw : txt "hello" ∈ doc_terms demo_jieba d)
    by (apply (bool_decide_unpack _); vm_compute; exact I).
  split; [exact Hd|]. split; [exact Hw|].
  exact (postings_complete demo_jieba (Some demo_corpus) 1 d _ Hd Hw).
Defined.

Lemma posting_term_occurs_witness :
  let it := mkItem 1 (txt "hello") 1 in
  let items := [mkItem 0 (txt "hello") 6; it] in
  get_inverted_index demo_index (txt "hello") = Some items /\ it ∈ items /\
  exists d, get_forward_index demo_index (item_id_ it) = Some d
            /\ (txt "hello" `factor_of` to_lower (title_ d)
                \/ txt "hello" `factor_of` to_lower (content_ d)).
Proof.
  intros it items.
  assert (Hw : get_inverted_index demo_index (txt "hello") = Some items) by (vm_compute; reflexivity).
  assert (Hit : it ∈ items) by (apply list_elem_of_further, list_elem_of_here).
  split; [exact Hw|]. split; [exact Hit|].
  exact (posting_term_occurs demo_jieba (Some demo_corpus) _ _ _ Hw Hit).
Defined.

Lemma postings_sorted_witness :
  let items := [mkItem 0 (txt "hello") 6; mkItem 1 (txt "hello") 1] in
  get_inverted_index demo_index (txt "hello") = Some items /\
  StronglySorted (fun a b => item_id_ a < item_id_ b) items.
Proof.
  intros items.
  assert (Hw : get_inverted_index demo_index (txt "hello") = Some items) by (vm_compute; reflexivity).
  split; [exact Hw | exact (postings_sorted demo_jieba (Some demo_corpus) _ _ Hw)].
Defined.

Lemma create_inverted_index_order_independent_witness :
  let d := mkDoc (txt "Hello World") (txt "the body hello") (txt "u0") 0 in
  let order := reverse (map_to_list (count_words demo_jieba d)) in
  order ≡ₚ map_to_list (count_words demo_jieba d) /\
  create_inverted_index_in d order empty_index = create_inverted_index demo_jieba empty_index d.
Proof.
  intros d order.
  assert (Hp : order ≡ₚ map_to_list (count_words demo_jieba d))
    by (apply (bool_decide_unpack _); vm_compute; exact I).
  split; [exact Hp | exact (create_inverted_index_order_independent demo_jieba d order _ Hp)].
Defined.

Lemma posting_weight_bounds_witness :
  let it := mkItem 0 (txt "hello") 6 in
  let items := [it; mkItem 1 (txt "hello") 1] in
  get_inverted_index demo_index (txt "hello") = Some items /\ it ∈ items /\
  exists d, get_forward_index demo_index (item_id_ it) = Some d
            /\ (0 <= weight_ it <= Z.of_nat (length (field_words demo_jieba (title_ d))) * 5
                                 + Z.of_nat (length (field_words demo_jieba (content_ d))))%Z.
Proof.
  intros it items.
  assert (Hw : get_inverted_index demo_index (txt "hello") = Some items) by (vm_compute; reflexivity).
  assert (Hit : it ∈ items) by apply list_elem_of_here.
  split; [exact Hw|]. split; [exact Hit|].
  exact (posting_weight_bounds demo_jieba (Some demo_corpus) _ _ _ Hw Hit).
Defined.
