(* ===== verification/Searcher.v ===== *)
(** * The query engine: [src/searcher.hpp]

    [Searcher::search] tokenizes the query, looks up the posting list of
    every case-folded word, and accumulates per document
    ([std::unordered_map<uint64_t, InvertedElemPrint> cnt]) the sum of the
    posting weights and the posted words ([accumulate]).  The entries are
    copied out in hash order and sorted with [std::sort] on weight alone;
    the sort is not stable and the hash order is unspecified, so the code
    admits every weight-descending permutation of the entries: the relation
    [code_ranking].  [rank] is one executable choice among them, the one
    the spec prescribes (ties by ascending id).  [build_results] turns the
    ranking into the result objects ([Json::Value] with title, content and
    url), through [GetDescWithHighlight]; a C++ exception is [None].
    [search_code] is the set of results the code may return, [search] the
    executable one.

    [GetDesc], the earlier snippet function the code no longer calls, is
    modelled too, with its [int] arithmetic in [Z]. *)

From S2P Require Import Prelude CppString Tokenizer Index.

(** ** Data *)

(** [class InvertedElemPrint] (fields renamed: record fields share one
    namespace); the default constructor gives id 0, weight 0. *)
Record InvertedElemPrint := mkElem {
  elem_id_ : nat;
  elem_weight_ : Z;
  words_ : list text;
}.

Definition elem0 : InvertedElemPrint := mkElem 0 0 [].

#[export] Instance InvertedElemPrint_eq_dec : EqDecision InvertedElemPrint.
Proof. solve_decision. Defined.

(** One element of the JSON array: [value["title"]], [value["content"]],
    [value["url"]]. *)
Record SearchResult := mkResult {
  res_title : text;
  res_content : text;
  res_url : text;
}.

#[export] Instance SearchResult_eq_dec : EqDecision SearchResult.
Proof. solve_decision. Defined.

(** ** Snippets *)

Definition prev_step : nat := 50.
Definition next_step : nat := 100.
Definition ellipsis : text := txt "...".

(** [html_content.substr(0, 150) + "..."]. *)
Definition head_summary (html_content : text) : option text :=
  s ← substr html_content 0 150; Some (s ++ ellipsis).

(** The window [GetDescWithHighlight] cuts around a match at [pos] of a
    word of length [len]: [start] and [end]. *)
Definition window_start (pos : nat) : nat :=
  if bool_decide (prev_step < pos) then pos - prev_step else 0.

Definition window_end (html_content : text) (pos len : nat) : nat :=
  if bool_decide (pos + len + next_step < length html_content)
  then pos + len + next_step else length html_content.

(** Step 4: wrap the first literal occurrence of the word in the window. *)
Definition highlight (desc first_word : text) : option text :=
  match str_find desc first_word with
  | Some found_pos =>
      str_replace desc found_pos (length first_word)
                  (txt "<em>" ++ first_word ++ txt "</em>")
  | None => Some desc
  end.

(** [GetDescWithHighlight(html_content, words)]. *)
Definition GetDescWithHighlight (html_content : text) (words : list text) : option text :=
  match words with
  | [] => head_summary html_content
  | first_word :: _ =>
      let pos := std_search (eq_under ascii_tolower) html_content first_word in
      if bool_decide (pos = length html_content) then head_summary html_content
      else
        let start := window_start pos in
        let end_ := window_end html_content pos (length first_word) in
        desc ← substr html_content start (end_ - start);
        desc' ← highlight desc first_word;
        Some (ellipsis ++ desc' ++ ellipsis)
  end.

(** [GetDesc(html_content, word)], the earlier version (not called): its
    [int start], [int end] are [Z]; [html_content.size() - 1] is computed
    in [size_t] and converted to [int], which gives -1 for an empty
    content. *)
Definition GetDesc (html_content word : text) : option text :=
  let pos := std_search (eq_under ascii_tolower) html_content word in
  if bool_decide (pos = length html_content) then Some (txt "None1")
  else
    let start0 : Z := 0%Z in
    let end0 : Z := (Z.of_nat (length html_content) - 1)%Z in
    let start := if bool_decide (Z.of_nat pos > start0 + 50)%Z
                 then (Z.of_nat pos - 50)%Z else start0 in
    let end_ := if bool_decide (Z.of_nat pos < end0 - 100)%Z
                then (Z.of_nat pos + 100)%Z else end0 in
    if bool_decide (start >= end_)%Z then Some (txt "None2")
    else desc ← substr html_content (Z.to_nat start) (Z.to_nat (end_ - start));
         Some (desc ++ ellipsis).

(** ** Scoring *)

(** The body of the inner loop: [cnt[item.id_]] then update id, weight and
    words. *)
Definition add_item (cnt : gmap nat InvertedElemPrint) (item : Inverted_item)
    : gmap nat InvertedElemPrint :=
  subscript_update elem0
    (fun e => mkElem (item_id_ item) (elem_weight_ e + weight_ item)%Z
                     (words_ e ++ [word_ item]))
    (item_id_ item) cnt.

(** The body of the outer loop: fold the word, skip it when it has no
    posting list. *)
Definition add_word (idx : Index) (cnt : gmap nat InvertedElemPrint) (word : text)
    : gmap nat InvertedElemPrint :=
  match get_inverted_index idx (to_lower word) with
  | None => cnt
  | Some l => foldl add_item cnt l
  end.

Definition accumulate (idx : Index) (words : list text) : gmap nat InvertedElemPrint :=
  foldl (add_word idx) ∅ words.

(** ** Ranking *)

(** The comparator [a.weight_ > b.weight_] as the order it sorts by. *)
Definition weight_desc (a b : InvertedElemPrint) : Prop :=
  (elem_weight_ b <= elem_weight_ a)%Z.

(** What [inverted_all] may be after the copy loop (any order of the
    hash map) and [std::sort] (sorted by the comparator, not stable). *)
Definition code_ranking (cnt : gmap nat InvertedElemPrint)
    (inverted_all : list InvertedElemPrint) : Prop :=
  inverted_all ≡ₚ (map_to_list cnt).*2 /\ StronglySorted weight_desc inverted_all.

(** The order the spec prescribes: weight descending, then id ascending. *)
Definition rank_le (a b : InvertedElemPrint) : Prop :=
  (elem_weight_ b < elem_weight_ a)%Z
  \/ (elem_weight_ a = elem_weight_ b /\ elem_id_ a <= elem_id_ b).

#[export] Instance rank_le_dec a b : Decision (rank_le a b).
Proof. unfold rank_le. apply _. Defined.

Definition rank (cnt : gmap nat InvertedElemPrint) : list InvertedElemPrint :=
  merge_sort rank_le (map_to_list cnt).*2.

(** ** Results *)

(** The loop that fetches each ranked document and builds its JSON
    object; a missing document is skipped ([continue]). *)
Fixpoint build_results (idx : Index) (ranked : list InvertedElemPrint)
    : option (list SearchResult) :=
  match ranked with
  | [] => Some []
  | e :: rest =>
      match get_forward_index idx (elem_id_ e) with
      | None => build_results idx rest
      | Some d =>
          desc ← GetDescWithHighlight (content_ d) (words_ e);
          rs ← build_results idx rest;
          Some (mkResult (title_ d) desc (url_ d) :: rs)
      end
  end.

Section search.
Context `{seg : Segmenter} (j : JiebaUtil).

(** The query words: [JiebaUtil::CutString(query, &words)]. *)
Definition query_words (query : text) : list text := CutStringHelper j query.

(** The results the code may produce for [query]. *)
Definition search_code (idx : Index) (query : text) (res : option (list SearchResult)) : Prop :=
  exists ranked, code_ranking (accumulate idx (query_words query)) ranked
                 /\ res = build_results idx ranked.

(** [Searcher::search], with the spec's tie-break. *)
Definition search (idx : Index) (query : text) : option (list SearchResult) :=
  build_results idx (rank (accumulate idx (query_words query))).
End search.

(** ** Specification of the scores *)

Definition weight_sum (hs : list Inverted_item) : Z :=
  foldr (fun it acc => weight_ it + acc)%Z 0%Z hs.

(** The postings for document [id] the query words reach, in loop order. *)
Definition hits (idx : Index) (ws : list text) (id : nat) : list Inverted_item :=
  ws ≫= (fun w => filter (fun it => item_id_ it = id)
                         (default [] (get_inverted_index idx (to_lower w)))).

(** The entry of [cnt] for [id] after the postings [hs] of [id] have been
    added to the entry [o]. *)
Definition elem_after (o : option InvertedElemPrint) (id : nat) (hs : list Inverted_item)
    : option InvertedElemPrint :=
  match hs with
  | [] => o
  | _ => Some (mkElem id (elem_weight_ (default elem0 o) + weight_sum hs)%Z
                      (words_ (default elem0 o) ++ (word_ <$> hs)))
  end.

(** The spec's view of a document's score: the case-folded query words
    that are terms of the document, in query order, duplicates kept. *)
Definition query_hits `{Segmenter} (j : JiebaUtil) (d : Doc) (ws : list text) : list text :=
  filter (fun w => w ∈ doc_terms j d) (to_lower <$> ws).

Definition score_of `{Segmenter} (j : JiebaUtil) (d : Doc) (ws : list text) : Z :=
  foldr (fun w acc => term_weight j d w + acc)%Z 0%Z (query_hits j d ws).

(** ** Specification of the snippet *)

(** The window with the first literal occurrence of [w] wrapped in
    emphasis markers, or unchanged when there is none. *)
Definition highlighted (desc w : text) : text :=
  match str_find desc w with
  | Some p => take p desc ++ (txt "<em>" ++ w ++ txt "</em>") ++ drop (p + length w) desc
  | None => desc
  end.

(** The spec's matched-term list: a term is appended only when it is not
    already present. *)
Definition spec_add_term (terms : list text) (t : text) : list text :=
  if decide (t ∈ terms) then terms else terms ++ [t].

#[export] Instance weight_desc_dec a b : Decision (weight_desc a b).
Proof. unfold weight_desc. apply _. Defined.

(** Corpora for the witnesses (space segmenter, no stop words). *)
Definition record3 (t c u : string) : text :=
  txt t ++ [SEP] ++ txt c ++ [SEP] ++ txt u ++ [newline].

Definition demo_build (corpus : text) : Index :=
  snd (create_index (seg := space_segmenter) demo_jieba (Some corpus) empty_index).

(** Two documents with the same weight for ["x"]. *)
Definition tie_index : Index := demo_build (record3 "a" "x" "u0" ++ record3 "b" "x" "u1").

(** ["foo"] once in the title of document 0, and in the body of
    document 1, twice ([title_index]) or six times ([body_index]). *)
Definition title_index : Index :=
  demo_build (record3 "foo" "bar" "u0" ++ record3 "baz" "foo foo" "u1").
Definition body_index : Index :=
  demo_build (record3 "foo" "bar" "u0" ++ record3 "baz" "foo foo foo foo foo foo" "u1").

(** A 500-character body whose only match of ["foo"] is ["Foo"] at
    offset 80 (the spec's example). *)
Definition body500 : text := replicate 80 "a"%char ++ txt "Foo" ++ replicate 417 "b"%char.

(** ** Lemmas on scoring *)

Lemma weight_sum_app hs1 hs2 : weight_sum (hs1 ++ hs2) = (weight_sum hs1 + weight_sum hs2)%Z.
Proof. induction hs1; simpl; lia. Qed.

Lemma elem_after_app o id hs1 hs2 :
  elem_after (elem_after o id hs1) id hs2 = elem_after o id (hs1 ++ hs2).
Proof.
  destruct hs1 as [|h1 hs1], hs2 as [|h2 hs2]; simpl; rewrite ?app_nil_r; try done.
  f_equal. f_equal.
  - rewrite weight_sum_app. simpl. lia.
  - rewrite fmap_app, <- app_assoc. done.
Qed.

Lemma lookup_add_item cnt x id :
  add_item cnt x !! id = elem_after (cnt !! id) id (filter (fun it => item_id_ it = id) [x]).
Proof.
  unfold add_item. rewrite lookup_subscript_update, filter_cons, filter_nil.
  case_decide as Hx; simpl; [|done]. subst id. repeat f_equal. lia.
Qed.

Lemma lookup_foldl_add_item cnt l id :
  foldl add_item cnt l !! id = elem_after (cnt !! id) id (filter (fun it => item_id_ it = id) l).
Proof.
  revert cnt. induction l as [|x l IH]; intros cnt; [done|]. simpl.
  rewrite IH, lookup_add_item, elem_after_app. f_equal.
  by rewrite <- filter_app.
Qed.

Lemma lookup_foldl_add_word idx cnt ws id :
  foldl (add_word idx) cnt ws !! id = elem_after (cnt !! id) id (hits idx ws id).
Proof.
  revert cnt. induction ws as [|w ws IH]; intros cnt; [done|]. simpl.
  rewrite IH. unfold hits. rewrite <- elem_after_app. f_equal.
  unfold add_word. destruct (get_inverted_index idx (to_lower w)); simpl;
    [apply lookup_foldl_add_item | done].
Qed.

Lemma lookup_accumulate idx ws id :
  accumulate idx ws !! id = elem_after None id (hits idx ws id).
Proof. apply lookup_foldl_add_word. Qed.

Lemma StronglySorted_filter_key {A} (f : A -> nat) (l : list A) k :
  StronglySorted (fun a b => f a < f b) l -> length (filter (fun x => f x = k) l) <= 1.
Proof.
  induction 1 as [|x l _ IH Hx]; [simpl; lia|]. rewrite filter_cons. case_decide; [|done].
  rewrite filter_nil_Forall; [simpl; lia|].
  eapply Forall_impl; [exact Hx|]. simpl. lia.
Qed.

Section wf_postings.
Context `{seg : Segmenter} (j : JiebaUtil).

(** In a well-formed index, the posting list of [w] has one posting for
    document [d] exactly when [w] is a term of [d], with the spec's weight. *)
Lemma wf_postings_of_doc idx id d w :
  index_wf j idx -> forward_index idx !! id = Some d ->
  filter (fun it => item_id_ it = id) (default [] (inverted_index idx !! w))
  = if decide (w ∈ doc_terms j d) then [mkItem id w (term_weight j d w)] else [].
Proof.
  intros Hwf Hd.
  assert (Hall : forall it, it ∈ filter (fun it => item_id_ it = id) (default [] (inverted_index idx !! w))
                 -> w ∈ doc_terms j d /\ it = mkItem id w (term_weight j d w)).
  { intros it Hit. apply list_elem_of_filter in Hit as [Hid Hin].
    destruct (inverted_index idx !! w) as [items|] eqn:E; simpl in Hin; [|set_solver].
    destruct (wf_postings _ _ Hwf w items it E Hin) as (Hw & d' & Hd' & Ht & Hwt).
    rewrite Hid, Hd in Hd'. injection Hd' as <-. split; [done|].
    destruct it; simpl in *; by subst. }
  assert (Hlen : length (filter (fun it => item_id_ it = id) (default [] (inverted_index idx !! w))) <= 1).
  { destruct (inverted_index idx !! w) as [items|] eqn:E; simpl; [|lia].
    apply StronglySorted_filter_key. by eapply wf_sorted. }
  destruct (filter _ _) as [|x [|y l]] eqn:F; simpl in Hlen; try lia.
  - case_decide as Hin; [|done]. exfalso.
    destruct (wf_complete _ _ Hwf id d w Hd Hin) as (items & it & Hi & Hit & Hid).
    assert (Hf : it ∈ filter (fun it => item_id_ it = id) (default [] (inverted_index idx !! w)))
      by (rewrite Hi; by apply list_elem_of_filter).
    rewrite F in Hf. set_solver.
  - destruct (Hall x) as [Hin ->]; [rewrite ?F; apply list_elem_of_here|].
    by rewrite decide_True.
Qed.

(** A document id the forward index does not have gets no posting. *)
Lemma wf_hits_dangling idx ws id :
  index_wf j idx -> forward_index idx !! id = None -> hits idx ws id = [].
Proof.
  intros Hwf Hd. unfold hits. induction ws as [|w ws IH]; [done|].
  rewrite bind_cons, IH, app_nil_r.
  apply filter_nil_Forall, Forall_forall. intros it Hit Hid.
  unfold get_inverted_index in Hit.
  destruct (inverted_index idx !! to_lower w) as [items|] eqn:E; simpl in Hit; [|set_solver].
  destruct (wf_postings _ _ Hwf _ items it E Hit) as (_ & d' & Hd' & _).
  congruence.
Qed.

Lemma wf_hits idx ws id d :
  index_wf j idx -> forward_index idx !! id = Some d ->
  hits idx ws id = (fun w => mkItem id w (term_weight j d w)) <$> query_hits j d ws.
Proof.
  intros Hwf Hd. unfold hits, query_hits. induction ws as [|w ws IH]; [done|].
  rewrite bind_cons, IH. unfold get_inverted_index.
  rewrite (wf_postings_of_doc idx id d) by done.
  rewrite fmap_cons, filter_cons. by case_decide.
Qed.
End wf_postings.

(** ** Lemmas on ranking *)

#[export] Instance rank_le_total : Total rank_le.
Proof. intros a b. unfold rank_le. lia. Qed.

#[export] Instance rank_le_trans : Transitive rank_le.
Proof. intros a b c. unfold rank_le. lia. Qed.

Lemma rank_le_weight_desc a b : rank_le a b -> weight_desc a b.
Proof. unfold rank_le, weight_desc. lia. Qed.

Lemma elem_of_values (cnt : gmap nat InvertedElemPrint) e :
  e ∈ (map_to_list cnt).*2 <-> exists k, cnt !! k = Some e.
Proof.
  rewrite list_elem_of_fmap. split.
  - intros ([k e'] & -> & Hin). exists k. by apply elem_of_map_to_list.
  - intros [k Hk]. exists (k, e). split; [done|]. by apply elem_of_map_to_list.
Qed.

Lemma rank_sorted cnt : StronglySorted rank_le (rank cnt).
Proof. apply StronglySorted_merge_sort; apply _. Qed.

Lemma rank_perm cnt : rank cnt ≡ₚ (map_to_list cnt).*2.
Proof. apply merge_sort_Permutation. Qed.

(** The spec's ranking is one of the orders the code may produce. *)
Lemma rank_code_ranking cnt : code_ranking cnt (rank cnt).
Proof.
  split; [apply rank_perm|]. eapply StronglySorted_weaken; [apply rank_le_weight_desc|].
  apply rank_sorted.
Qed.

(** Two entries that [rank_le] does not separate are the same entry, when
    every entry is stored under its own id. *)
Lemma rank_le_antisym_keys (cnt : gmap nat InvertedElemPrint) x1 x2 :
  (forall k e, cnt !! k = Some e -> elem_id_ e = k) ->
  x1 ∈ (map_to_list cnt).*2 -> x2 ∈ (map_to_list cnt).*2 ->
  rank_le x1 x2 -> rank_le x2 x1 -> x1 = x2.
Proof.
  intros Hkeys [k1 H1]%elem_of_values [k2 H2]%elem_of_values Hle1 Hle2.
  assert (elem_id_ x1 = elem_id_ x2) as Hid by (unfold rank_le in *; lia).
  rewrite (Hkeys _ _ H1), (Hkeys _ _ H2) in Hid. subst k2. congruence.
Qed.

Lemma accumulate_keys idx ws k e : accumulate idx ws !! k = Some e -> elem_id_ e = k.
Proof. rewrite lookup_accumulate. unfold elem_after. by destruct (hits idx ws k) as [|]; intros; simplify_eq. Qed.

(** ** Lemmas on snippets *)

Lemma head_summary_eq s : head_summary s = Some (take 150 s ++ ellipsis).
Proof. unfold head_summary. rewrite substr_in_range; [done | lia]. Qed.

Lemma highlight_eq desc w : highlight desc w = Some (highlighted desc w).
Proof.
  unfold highlight, highlighted. destruct (str_find desc w) as [p|] eqn:E; [|done].
  apply str_find_Some in E as (_ & Hl & _). apply str_replace_in_range. lia.
Qed.

Lemma window_start_eq pos : window_start pos = pos - prev_step.
Proof. unfold window_start. case_bool_decide; lia. Qed.

Lemma window_end_eq body pos len :
  window_end body pos len = Nat.min (length body) (pos + len + next_step).
Proof. unfold window_end. case_bool_decide; lia. Qed.

Lemma std_search_Some f hay w pos :
  find_by (eq_under f) hay w = Some pos -> std_search (eq_under f) hay w = pos.
Proof. unfold std_search. by intros ->. Qed.

Lemma std_search_None f hay w :
  find_by (eq_under f) hay w = None -> std_search (eq_under f) hay w = length hay.
Proof. unfold std_search. by intros ->. Qed.

(** [GetDescWithHighlight] in closed form, for a word found at [pos]. *)
Lemma GetDescWithHighlight_found body w ws pos :
  find_by (eq_under ascii_tolower) body w = Some pos -> pos <> length body ->
  GetDescWithHighlight body (w :: ws)
  = Some (ellipsis ++ highlighted (slice body (pos - prev_step)
                                     (Nat.min (length body) (pos + length w + next_step)))
                                  w ++ ellipsis).
Proof.
  intros Hf Hne. pose proof (find_by_Some _ _ _ _ Hf) as (_ & Hl & _).
  simpl. rewrite (std_search_Some _ _ _ _ Hf), bool_decide_eq_false_2 by done.
  rewrite window_start_eq, window_end_eq, substr_in_range by lia.
  simpl. by rewrite highlight_eq.
Qed.

Lemma weight_sum_fmap (f : text -> Z) id (l : list text) :
  weight_sum ((fun w => mkItem id w (f w)) <$> l) = foldr (fun w acc => f w + acc)%Z 0%Z l.
Proof. unfold weight_sum. induction l as [|w l IH]; simpl; [done|]. by rewrite <- IH. Qed.

Lemma accumulate_empty idx ws :
  (forall w, w ∈ ws -> get_inverted_index idx (to_lower w) = None) -> accumulate idx ws = ∅.
Proof.
  unfold accumulate. generalize (∅ : gmap nat InvertedElemPrint).
  induction ws as [|w ws IH]; intros cnt Hws; [done|]. simpl.
  unfold add_word at 2. rewrite Hws by set_solver. apply IH. set_solver.
Qed.

Lemma fmap_word_mkItem (f : text -> Z) id (l : list text) :
  word_ <$> ((fun w => mkItem id w (f w)) <$> l) = l.
Proof. induction l as [|w l IH]; [done|]. simpl. by f_equal. Qed.

(** [GetDescWithHighlight] never throws [std::out_of_range]. *)
Lemma GetDescWithHighlight_Some body words : exists s, GetDescWithHighlight body words = Some s.
Proof.
  destruct words as [|w ws]; [unfold GetDescWithHighlight; rewrite head_summary_eq; by eexists|].
  destruct (find_by (eq_under ascii_tolower) body w) as [pos|] eqn:F;
    [destruct (decide (pos = length body)) as [->|Hne]|].
  - unfold GetDescWithHighlight.
    rewrite (std_search_Some _ _ _ _ F), bool_decide_eq_true_2, head_summary_eq by done.
    by eexists.
  - rewrite (GetDescWithHighlight_found _ _ ws pos) by done. by eexists.
  - unfold GetDescWithHighlight.
    rewrite (std_search_None _ _ _ F), bool_decide_eq_true_2, head_summary_eq by done.
    by eexists.
Qed.

Lemma length_ellipsis : length ellipsis = 3.
Proof. done. Qed.

Lemma length_highlighted desc w : length (highlighted desc w) <= length desc + 9.
Proof.
  unfold highlighted. destruct (str_find desc w) as [p|] eqn:E; [|lia].
  apply str_find_Some in E as (_ & Hl & _).
  rewrite !length_app, length_take, length_drop. simpl. lia.
Qed.

(** Only the first word matters to [GetDescWithHighlight]. *)
Lemma GetDescWithHighlight_head body w ws ws' :
  GetDescWithHighlight body (w :: ws) = GetDescWithHighlight body (w :: ws').
Proof. done. Qed.

Lemma foldl_spec_add_term_head acc l w :
  head acc = Some w -> head (foldl spec_add_term acc l) = Some w.
Proof.
  revert acc. induction l as [|t l IH]; intros acc Hh; [done|]. simpl. apply IH.
  unfold spec_add_term. case_decide; [done|]. destruct acc; [done|]. done.
Qed.

Section search_lemmas.
Context `{seg : Segmenter} (j : JiebaUtil).

(** Every entry of the scores names a document of a well-formed index. *)
Lemma wf_accumulate_doc idx ws e :
  index_wf j idx -> e ∈ (map_to_list (accumulate idx ws)).*2 ->
  is_Some (get_forward_index idx (elem_id_ e)).
Proof.
  intros Hwf [k Hk]%elem_of_values. rewrite (accumulate_keys _ _ _ _ Hk).
  rewrite get_forward_index_lookup. destruct (forward_index idx !! k) eqn:E; [done|].
  rewrite lookup_accumulate, (wf_hits_dangling j) in Hk by done. done.
Qed.

(** The result loop neither throws nor skips when every entry names a
    document. *)
Lemma build_results_total idx ranked :
  Forall (fun e => is_Some (get_forward_index idx (elem_id_ e))) ranked ->
  exists rs, build_results idx ranked = Some rs /\ length rs = length ranked.
Proof.
  induction 1 as [|e ranked [d Hd] _ [rs [Hrs Hlen]]]; [by exists []|]. simpl. rewrite Hd.
  destruct (GetDescWithHighlight_Some (content_ d) (words_ e)) as [desc ->].
  rewrite Hrs. eexists; split; [done|]. simpl. lia.
Qed.
(** The scores on a well-formed index, in the terms of the spec. *)
Lemma lookup_accumulate_wf idx ws id :
  index_wf j idx ->
  accumulate idx ws !! id
  = match get_forward_index idx id with
    | None => None
    | Some d => match query_hits j d ws with
                | [] => None
                | hs => Some (mkElem id (score_of j d ws) hs)
                end
    end.
Proof.
  intros Hwf. rewrite lookup_accumulate, get_forward_index_lookup.
  destruct (forward_index idx !! id) as [d|] eqn:Hd; [|by rewrite (wf_hits_dangling j)].
  rewrite (wf_hits j idx ws id d) by done. unfold score_of.
  destruct (query_hits j d ws) as [|w hs]; [done|].
  unfold elem_after. rewrite weight_sum_fmap, fmap_word_mkItem. done.
Qed.

(** In any order the code may produce, an entry of greater weight comes
    first. *)
Lemma code_ranking_precedes cnt ranked e1 e2 :
  code_ranking cnt ranked -> e1 ∈ (map_to_list cnt).*2 -> e2 ∈ (map_to_list cnt).*2 ->
  (elem_weight_ e2 < elem_weight_ e1)%Z -> precedes ranked e1 e2.
Proof.
  intros [Hp Hs] H1 H2 Hlt. apply (StronglySorted_precedes weight_desc); [done | by rewrite Hp.. | |].
  - unfold weight_desc. lia.
  - intros ->. lia.
Qed.
End search_lemmas.


(** ** Properties of the query engine *)

Section claims.
Context `{seg : Segmenter} (j : JiebaUtil).

(** C10. Score aggregation: after the scoring loops, a document that is in
    the index has an entry exactly when some case-folded query word is
    one of its terms; the entry's weight is the sum, over those query
    words (a repeated word counting again), of the spec's weight of the
    word in the document, and its words are those query words in query
    order; an id outside the forward index never has an entry. *)
Theorem search_scores input ws id :
  let idx := snd (create_index j input empty_index) in
  accumulate idx ws !! id
  = match get_forward_index idx id with
    | None => None
    | Some d => match query_hits j d ws with
                | [] => None
                | hs => Some (mkElem id (score_of j d ws) hs)
                end
    end.
Proof.
  intros idx. apply lookup_accumulate_wf, create_index_wf.
Qed.

(** Refinement: the executable ranking (weight descending, ties by
    ascending id) is one of the outcomes the code's hash-order copy and
    [std::sort] can produce, so [search] returns a result the code may
    return. *)
Theorem search_refines_code idx query : search_code j idx query (search j idx query).
Proof.
  exists (rank (accumulate idx (query_words j query))).
  split; [apply rank_code_ranking | done].
Qed.

(** C11. What the copy out of the hash map and [std::sort] by weight
    can leave in [inverted_all]: exactly the orders of the scored
    entries that carry, position by position, the weights of the spec's
    ranking [rank] -- they differ from it only in the order of entries
    of equal weight. *)
Theorem code_ranking_spec idx ws inverted_all :
  code_ranking (accumulate idx ws) inverted_all <->
  inverted_all ≡ₚ rank (accumulate idx ws)
  /\ elem_weight_ <$> inverted_all = elem_weight_ <$> rank (accumulate idx ws).
Proof.
  pose proof (StronglySorted_weaken _ _ _ rank_le_weight_desc (rank_sorted (accumulate idx ws))) as Hr.
  unfold code_ranking. split.
  - intros [Hp Hs]. assert (Hpr : inverted_all ≡ₚ rank (accumulate idx ws)) by (by rewrite rank_perm).
    split; [done|]. by apply sorted_perm_keys.
  - intros [Hp Hw]. split; [by rewrite Hp, rank_perm|].
    apply (StronglySorted_fmap_iff (fun x y : Z => (y <= x)%Z) elem_weight_). rewrite Hw.
    by apply StronglySorted_fmap_iff.
Qed.

(** Deterministic tie-break: the ranking the spec prescribes is unique:
    any permutation of the scored entries that is sorted by weight
    descending, then id ascending, is [rank]. *)
Theorem rank_unique idx ws ranked :
  ranked ≡ₚ (map_to_list (accumulate idx ws)).*2 -> StronglySorted rank_le ranked ->
  ranked = rank (accumulate idx ws).
Proof.
  intros Hp Hs. apply (StronglySorted_unique_strong rank_le); [|done|apply rank_sorted|].
  - intros x1 x2 H1 H2. apply (rank_le_antisym_keys (accumulate idx ws));
      [apply accumulate_keys | by rewrite <- Hp | by rewrite <- rank_perm].
  - by rewrite rank_perm.
Qed.

(** Empty and unmatched queries: when no case-folded query word has a
    posting list (in particular for a query with no words), the search
    returns the empty array, whatever order the code picks. *)
Theorem search_no_match idx query :
  Forall (fun w => get_inverted_index idx (to_lower w) = None) (query_words j query) ->
  search j idx query = Some [] /\ forall res, search_code j idx query res -> res = Some [].
Proof.
  intros Hnone. rewrite Forall_forall in Hnone.
  pose proof (accumulate_empty idx _ Hnone) as He.
  unfold search. rewrite He. split; [done|].
  intros res (ranked & [Hp _] & ->). rewrite He, map_to_list_empty in Hp.
  by apply Permutation_nil_r in Hp as ->.
Qed.

(** C15. The result loop of the code never throws and never skips: on an
    index built by [create_index], every order the code may pick yields
    one result object per scored document. *)
Theorem search_code_total input query res :
  let idx := snd (create_index j input empty_index) in
  search_code j idx query res ->
  exists rs, res = Some rs /\ length rs = size (accumulate idx (query_words j query)).
Proof.
  intros idx (ranked & [Hp _] & ->). subst idx. pose proof (create_index_wf j input) as Hwf.
  destruct (build_results_total (snd (create_index j input empty_index)) ranked) as (rs & Hrs & Hlen).
  - apply Forall_forall. intros e He. apply (wf_accumulate_doc j _ (query_words j query) _ Hwf).
    by rewrite <- Hp.
  - exists rs. split; [done|]. rewrite Hlen, Hp, length_fmap. apply length_map_to_list.
Qed.

(** C16. Title match against body match: for a one-word query whose word
    [w] occurs only in the title of document A ([tA] times) and only in
    the body of document B ([bB] times), A comes before B in every order
    the code may produce as soon as [bB < 5 * tA]. *)
Theorem title_match_outranks_body_match input query w idA dA idB dB ranked :
  let idx := snd (create_index j input empty_index) in
  let cnt := accumulate idx (query_words j query) in
  get_forward_index idx idA = Some dA -> get_forward_index idx idB = Some dB ->
  query_hits j dA (query_words j query) = [w] -> query_hits j dB (query_words j query) = [w] ->
  occ w (field_words j (content_ dA)) = 0 -> occ w (field_words j (title_ dB)) = 0 ->
  occ w (field_words j (content_ dB)) < 5 * occ w (field_words j (title_ dA)) ->
  code_ranking cnt ranked ->
  exists eA eB, cnt !! idA = Some eA /\ cnt !! idB = Some eB /\ precedes ranked eA eB.
Proof.
  intros idx cnt HA HB QA QB HcA HtB Hlt Hr. pose proof (create_index_wf j input) as Hwf.
  pose proof (lookup_accumulate_wf j idx (query_words j query) idA Hwf) as EA.
  pose proof (lookup_accumulate_wf j idx (query_words j query) idB Hwf) as EB.
  rewrite HA, QA in EA. rewrite HB, QB in EB.
  eexists _, _. split; [exact EA|]. split; [exact EB|].
  apply (code_ranking_precedes cnt); [done | apply elem_of_values; eauto.. |].
  simpl. unfold score_of. rewrite QA, QB. unfold term_weight. simpl. lia.
Qed.
End claims.

(** The code's order is not determined: on [tie_index], where two
    documents have the same weight for ["x"], the hash-order copy and the
    unstable [std::sort] may return the two results in either order. *)
Theorem search_code_ties_ambiguous :
  exists res1 res2, search_code demo_jieba tie_index (txt "x") res1
                    /\ search_code demo_jieba tie_index (txt "x") res2 /\ res1 <> res2.
Proof.
  set (e0 := mkElem 0 1 [txt "x"]). set (e1 := mkElem 1 1 [txt "x"]).
  exists (build_results tie_index [e0; e1]), (build_results tie_index [e1; e0]).
  split_and!.
  - exists [e0; e1]. split; [|done]. unfold code_ranking.
    apply (bool_decide_unpack _). vm_compute. exact I.
  - exists [e1; e0]. split; [|done]. unfold code_ranking.
    apply (bool_decide_unpack _). vm_compute. exact I.
  - vm_compute. congruence.
Qed.

(** The spec's ranking example does not hold for every count: on
    [body_index], ["foo"] is only in the title of document 0 (weight 5)
    and six times only in the body of document 1 (weight 6), and every
    order the code may produce puts the body match first. *)
Theorem body_match_can_outrank_title_match :
  get_forward_index body_index 0 = Some (mkDoc (txt "foo") (txt "bar") (txt "u0") 0) /\
  get_forward_index body_index 1
    = Some (mkDoc (txt "baz") (txt "foo foo foo foo foo foo") (txt "u1") 1) /\
  forall ranked,
    code_ranking (accumulate body_index (query_words demo_jieba (txt "foo"))) ranked ->
    precedes ranked (mkElem 1 6 [txt "foo"]) (mkElem 0 5 [txt "foo"]).
Proof.
  split_and!; [vm_compute; reflexivity | vm_compute; reflexivity |].
  intros ranked Hr. apply (code_ranking_precedes _ _ _ _ Hr); [..|simpl; lia];
    apply elem_of_values; [exists 1 | exists 0]; vm_compute; reflexivity.
Qed.

(** ** Properties of the snippet *)

(** C18. Snippet window: when the case-insensitive search finds the first
    matched term first at offset [pos] of the body, the snippet is the body
    between [max(0, pos - 50)] and [min(length, pos + |term| + 100)], with
    the first literal occurrence of the term wrapped in [<em>...</em>],
    between two ellipses. *)
Theorem snippet_window body w ws pos :
  pos < length body ->
  to_lower w `prefix_of` to_lower (drop pos body) ->
  Forall (fun q => ¬ to_lower w `prefix_of` to_lower (drop q body)) (seq 0 pos) ->
  GetDescWithHighlight body (w :: ws)
  = Some (ellipsis ++ highlighted (slice body (pos - 50) (Nat.min (length body) (pos + length w + 100)))
                                  w ++ ellipsis).
Proof.
  intros Hlt Hp Hmin. apply GetDescWithHighlight_found; [|lia].
  by apply find_by_tolower_first.
Qed.

(** C19. Snippet bounds: [GetDescWithHighlight] never throws
    [std::out_of_range], and its result is at most 165 characters longer
    than the first matched term (153 when there is none). *)
Theorem snippet_length_bound body words :
  exists s, GetDescWithHighlight body words = Some s
            /\ length s <= 165 + length (default [] (head words)).
Proof.
  destruct words as [|w ws]; cbn [head default id].
  - unfold GetDescWithHighlight. rewrite head_summary_eq. eexists; split; [done|].
    rewrite length_app, length_take, length_ellipsis. lia.
  - destruct (find_by (eq_under ascii_tolower) body w) as [pos|] eqn:F;
      [destruct (decide (pos = length body)) as [->|Hne]|].
    + unfold GetDescWithHighlight.
      rewrite (std_search_Some _ _ _ _ F), bool_decide_eq_true_2, head_summary_eq by done.
      eexists; split; [done|]. rewrite length_app, length_take, length_ellipsis. lia.
    + pose proof (find_by_Some _ _ _ _ F) as (_ & Hl & _).
      rewrite (GetDescWithHighlight_found body w ws pos F Hne).
      eexists; split; [done|]. rewrite !length_app.
      pose proof (length_highlighted (slice body (pos - prev_step)
                    (Nat.min (length body) (pos + length w + next_step))) w).
      unfold slice in *. rewrite length_take, length_drop in *.
      rewrite length_ellipsis. unfold prev_step, next_step in *. lia.
    + unfold GetDescWithHighlight.
      rewrite (std_search_None _ _ _ F), bool_decide_eq_true_2, head_summary_eq by done.
      eexists; split; [done|]. rewrite length_app, length_take, length_ellipsis. lia.
Qed.

(** Snippet without matched terms: the code appends the ellipsis
    even when the body is shorter than 150 characters (the spec returns
    the whole body without an ellipsis then). *)
Theorem snippet_no_terms_short body :
  length body < 150 -> GetDescWithHighlight body [] = Some (body ++ ellipsis).
Proof. intros Hl. simpl. rewrite head_summary_eq, take_ge by lia. done. Qed.

(** Duplicate matched terms: the code appends a term to [words_] for
    every posting, the spec only when it is new; the snippet is the same,
    since it depends on the first term only. *)
Theorem snippet_dedup_equiv body words :
  GetDescWithHighlight body (foldl spec_add_term [] words) = GetDescWithHighlight body words.
Proof.
  destruct words as [|w ws]; [done|].
  change (foldl spec_add_term [] (w :: ws)) with (foldl spec_add_term (spec_add_term [] w) ws).
  replace (spec_add_term [] w) with [w]
    by (unfold spec_add_term; by rewrite decide_False by apply not_elem_of_nil).
  pose proof (foldl_spec_add_term_head [w] ws w eq_refl) as Hh.
  destruct (foldl spec_add_term [w] ws) as [|w' ws'] eqn:E; [done|].
  simpl in Hh. injection Hh as ->. apply GetDescWithHighlight_head.
Qed.

(** Defensive branch: when the first matched term does not occur in
    the body, even ignoring case, the snippet is the first 150
    characters followed by an ellipsis. *)
Theorem snippet_not_found body w ws :
  find_by (eq_under ascii_tolower) body w = None ->
  GetDescWithHighlight body (w :: ws) = Some (take 150 body ++ ellipsis).
Proof.
  intros F. simpl. by rewrite (std_search_None _ _ _ F), bool_decide_eq_true_2, head_summary_eq.
Qed.

(** The earlier [GetDesc] drops the last character of the body: it
    takes [end = size() - 1] as the end of the window. *)
Theorem GetDesc_drops_last_char : GetDesc (txt "fox") (txt "fox") = Some (txt "fo...").
Proof. vm_compute. reflexivity. Qed.

(** ** Witnesses *)

Lemma rank_unique_witness :
  let ranked := [mkElem 0 6 [txt "hello"]; mkElem 1 1 [txt "hello"]] in
  ranked ≡ₚ (map_to_list (accumulate demo_index [txt "hello"])).*2 /\
  StronglySorted rank_le ranked /\ ranked = rank (accumulate demo_index [txt "hello"]).
Proof.
  intros ranked.
  assert (Hp : ranked ≡ₚ (map_to_list (accumulate demo_index [txt "hello"])).*2)
    by (apply (bool_decide_unpack _); vm_compute; exact I).
  assert (Hs : StronglySorted rank_le ranked) by (apply (bool_decide_unpack _); vm_compute; exact I).
  split; [exact Hp|]. split; [exact Hs|]. exact (rank_unique demo_index _ ranked Hp Hs).
Defined.

Lemma search_no_match_witness :
  Forall (fun w => get_inverted_index demo_index (to_lower w) = None)
         (query_words demo_jieba (txt "zebra")) /\
  search demo_jieba demo_index (txt "zebra") = Some [] /\
  forall res, search_code demo_jieba demo_index (txt "zebra") res -> res = Some [].
Proof.
  assert (Hn : Forall (fun w => get_inverted_index demo_index (to_lower w) = None)
                      (query_words demo_jieba (txt "zebra")))
    by (apply (bool_decide_unpack _); vm_compute; exact I).
  split; [exact Hn | exact (search_no_match demo_jieba demo_index _ Hn)].
Defined.

Lemma search_code_total_witness :
  let res := build_results demo_index [mkElem 0 6 [txt "hello"]; mkElem 1 1 [txt "hello"]] in
  search_code demo_jieba demo_index (txt "hello") res /\
  exists rs, res = Some rs
             /\ length rs = size (accumulate demo_index (query_words demo_jieba (txt "hello"))).
Proof.
  intros res.
  assert (Hc : search_code demo_jieba demo_index (txt "hello") res).
  { exists [mkElem 0 6 [txt "hello"]; mkElem 1 1 [txt "hello"]]. split; [|done].
    unfold code_ranking. apply (bool_decide_unpack _). vm_compute. exact I. }
  split; [exact Hc | exact (search_code_total demo_jieba (Some demo_corpus) _ res Hc)].
Defined.

Lemma title_match_outranks_body_match_witness :
  let dA := mkDoc (txt "foo") (txt "bar") (txt "u0") 0 in
  let dB := mkDoc (txt "baz") (txt "foo foo") (txt "u1") 1 in
  let ws := query_words demo_jieba (txt "foo") in
  let ranked := [mkElem 0 5 [txt "foo"]; mkElem 1 2 [txt "foo"]] in
  get_forward_index title_index 0 = Some dA /\ get_forward_index title_index 1 = Some dB /\
  query_hits demo_jieba dA ws = [txt "foo"] /\ query_hits demo_jieba dB ws = [txt "foo"] /\
  occ (txt "foo") (field_words demo_jieba (content_ dA)) = 0 /\
  occ (txt "foo") (field_words demo_jieba (title_ dB)) = 0 /\
  occ (txt "foo") (field_words demo_jieba (content_ dB))
    < 5 * occ (txt "foo") (field_words demo_jieba (title_ dA)) /\
  code_ranking (accumulate title_index ws) ranked /\
  exists eA eB, accumulate title_index ws !! 0 = Some eA
                /\ accumulate title_index ws !! 1 = Some eB /\ precedes ranked eA eB.
Proof.
  intros dA dB ws ranked.
  assert (HA : get_forward_index title_index 0 = Some dA) by (vm_compute; reflexivity).
  assert (HB : get_forward_index title_index 1 = Some dB) by (vm_compute; reflexivity).
  assert (QA : query_hits demo_jieba dA ws = [txt "foo"]) by (vm_compute; reflexivity).
  assert (QB : query_hits demo_jieba dB ws = [txt "foo"]) by (vm_compute; reflexivity).
  assert (HcA : occ (txt "foo") (field_words demo_jieba (content_ dA)) = 0) by (vm_compute; reflexivity).
  assert (HtB : occ (txt "foo") (field_words demo_jieba (title_ dB)) = 0) by (vm_compute; reflexivity).
  assert (Hlt : occ (txt "foo") (field_words demo_jieba (content_ dB))
                < 5 * occ (txt "foo") (field_words demo_jieba (title_ dA))) by (vm_compute; lia).
  assert (Hr : code_ranking (accumulate title_index ws) ranked)
    by (unfold code_ranking; apply (bool_decide_unpack _); vm_compute; exact I).
  do 7 (split; [assumption|]). split; [exact Hr|].
  exact (title_match_outranks_body_match demo_jieba
           (Some (record3 "foo" "bar" "u0" ++ record3 "baz" "foo foo" "u1"))
           (txt "foo") (txt "foo") 0 dA 1 dB ranked HA HB QA QB HcA HtB Hlt Hr).
Defined.

Lemma snippet_window_witness :
  80 < length body500 /\
  to_lower (txt "foo") `prefix_of` to_lower (drop 80 body500) /\
  Forall (fun q => ¬ to_lower (txt "foo") `prefix_of` to_lower (drop q body500)) (seq 0 80) /\
  GetDescWithHighlight body500 [txt "foo"]
  = Some (ellipsis ++ highlighted (slice body500 (80 - 50) (Nat.min (length body500) (80 + 3 + 100)))
                                  (txt "foo") ++ ellipsis).
Proof.
  assert (Hl : 80 < length body500) by (vm_compute; lia).
  assert (Hp : to_lower (txt "foo") `prefix_of` to_lower (drop 80 body500))
    by (apply (bool_decide_unpack _); vm_compute; exact I).
  assert (Hm : Forall (fun q => ¬ to_lower (txt "foo") `prefix_of` to_lower (drop q body500)) (seq 0 80))
    by (apply (bool_decide_unpack _); vm_compute; exact I).
  split; [exact Hl|]. split; [exact Hp|]. split; [exact Hm|].
  exact (snippet_window body500 (txt "foo") [] 80 Hl Hp Hm).
Defined.

Lemma snippet_no_terms_short_witness :
  length (txt "short body") < 150 /\
  GetDescWithHighlight (txt "short body") [] = Some (txt "short body" ++ ellipsis).
Proof.
  assert (Hl : length (txt "short body") < 150) by (vm_compute; lia).
  split; [exact Hl | exact (snippet_no_terms_short _ Hl)].
Defined.

Lemma snippet_not_found_witness :
  find_by (eq_under ascii_tolower) (txt "abc") (txt "xyz") = None /\
  GetDescWithHighlight (txt "abc") [txt "xyz"] = Some (take 150 (txt "abc") ++ ellipsis).
Proof.
  assert (F : find_by (eq_under ascii_tolower) (txt "abc") (txt "xyz") = None)
    by (vm_compute; reflexivity).
  split; [exact F | exact (snippet_not_found _ _ [] F)].
Defined.
