(* ===== verification/Json.v ===== *)
(** * The JSON response: jsoncpp's [Json::Value] and [Json::FastWriter]

    [Searcher::search] ([src/searcher.hpp]) builds a [Json::Value] [root],
    sets the members ["title"], ["content"] and ["url"] of one object per
    result, appends it to [root], and serialises [root] with
    [Json::FastWriter].  This file writes out the library functions it
    calls, as jsoncpp 1.9 defines them ([json_value.cpp],
    [json_writer.cpp]):
    - a value is [null], a string, an array or an object; an object is a
      [std::map] whose keys are ordered by [CZString::operator<]
      (unsigned bytes, a prefix first);
    - [operator[]] turns [null] into an object, [append] turns [null]
      into an array; both throw on any other kind ([None]);
    - [FastWriter::write] prints without spaces and adds a ['\n'];
    - [valueToQuotedStringN] quotes a string: the double quote, the backslash and the
      control characters with a short form are escaped, the other
      control characters as [\u00XX]; the rest is decoded as UTF-8 by
      [utf8ToCodepoint] and every code point of 128 or more is written
      [\uXXXX] (a surrogate pair above [0xFFFF]); a malformed sequence
      gives U+FFFD.

    The reader of the response (the browser's [JSON.parse]) is the
    specification [read_string]/[read_results]. *)

From S2P Require Import Prelude CppString Index Searcher.
From Stdlib Require Import ZArith.

(** ** Bytes *)

(** The byte value of a [char] as [unsigned char], and back. *)
Definition byte (c : ascii) : Z := Z.of_N (N_of_ascii c).
Definition of_byte (z : Z) : ascii := ascii_of_N (Z.to_N z).

(** The value of a [char] as a signed [char]. *)
Definition signed_char (c : ascii) : Z :=
  if (byte c <? 128)%Z then byte c else (byte c - 256)%Z.

Definition dq : ascii := "034"%char.
Definition backslash : ascii := "092"%char.

(** ** Values *)

Inductive json :=
  | JNull
  | JString (s : text)
  | JArray (l : list json)
  | JObject (m : list (text * json)).

(** [CZString::operator<]: [memcmp] on the common length, then the
    shorter first. *)
Fixpoint key_lt (a b : text) : bool :=
  match a, b with
  | [], [] => false
  | [], _ :: _ => true
  | _ :: _, [] => false
  | x :: a', y :: b' =>
      if (byte x <? byte y)%Z then true
      else if (byte y <? byte x)%Z then false
      else key_lt a' b'
  end.

(** [std::map::operator[](k) = x] on the members of an object. *)
Fixpoint map_set (k : text) (x : json) (m : list (text * json)) : list (text * json) :=
  match m with
  | [] => [(k, x)]
  | (k', x') :: m' =>
      if bool_decide (k = k') then (k, x) :: m'
      else if key_lt k k' then (k, x) :: m
      else (k', x') :: map_set k x m'
  end.

(** [value[k] = x]. *)
Definition value_set (v : json) (k : text) (x : json) : option json :=
  match v with
  | JNull => Some (JObject (map_set k x []))
  | JObject m => Some (JObject (map_set k x m))
  | _ => None
  end.

(** [value.append(x)]. *)
Definition value_append (v : json) (x : json) : option json :=
  match v with
  | JNull => Some (JArray [x])
  | JArray l => Some (JArray (l ++ [x]))
  | _ => None
  end.

(** ** [valueToQuotedStringN] *)

(** [doesAnyCharRequireEscaping], on (signed) [char]s. *)
Definition requires_escaping (c : ascii) : bool :=
  Ascii.eqb c backslash || Ascii.eqb c dq
  || (signed_char c <? 32)%Z || (127 <? signed_char c)%Z.

(** The cases of the [switch] with a short escape. *)
Definition short_escape (c : ascii) : option text :=
  if Ascii.eqb c dq then Some [backslash; dq]
  else if Ascii.eqb c backslash then Some [backslash; backslash]
  else if (byte c =? 8)%Z then Some (txt "\b")
  else if (byte c =? 12)%Z then Some (txt "\f")
  else if (byte c =? 10)%Z then Some (txt "\n")
  else if (byte c =? 13)%Z then Some (txt "\r")
  else if (byte c =? 9)%Z then Some (txt "\t")
  else None.

Definition replacement_character : Z := 65533.

(** [utf8ToCodepoint(c, end)]: the code point of the sequence starting
    with [b0], and the input after it ([c] is advanced past the
    continuation bytes it reads; a sequence cut by the end of the string
    reads nothing more). *)
Definition utf8ToCodepoint (b0 : ascii) (rest : text) : Z * text :=
  let first := byte b0 in
  if (first <? 128)%Z then (first, rest)
  else if (first <? 224)%Z then
    match rest with
    | c1 :: rest' =>
        let calculated := Z.lor (Z.shiftl (Z.land first 31) 6) (Z.land (byte c1) 63) in
        (if (calculated <? 128)%Z then replacement_character else calculated, rest')
    | _ => (replacement_character, rest)
    end
  else if (first <? 240)%Z then
    match rest with
    | c1 :: c2 :: rest' =>
        let calculated := Z.lor (Z.lor (Z.shiftl (Z.land first 15) 12)
                                       (Z.shiftl (Z.land (byte c1) 63) 6))
                                (Z.land (byte c2) 63) in
        (if (55296 <=? calculated)%Z && (calculated <=? 57343)%Z then replacement_character
         else if (calculated <? 2048)%Z then replacement_character else calculated, rest')
    | _ => (replacement_character, rest)
    end
  else if (first <? 248)%Z then
    match rest with
    | c1 :: c2 :: c3 :: rest' =>
        let calculated := Z.lor (Z.lor (Z.lor (Z.shiftl (Z.land first 7) 18)
                                              (Z.shiftl (Z.land (byte c1) 63) 12))
                                       (Z.shiftl (Z.land (byte c2) 63) 6))
                                (Z.land (byte c3) 63) in
        (if (calculated <? 65536)%Z then replacement_character else calculated, rest')
    | _ => (replacement_character, rest)
    end
  else (replacement_character, rest).

(** [hex2[2 * x]] and [hex2[2 * x + 1]]: the two lower-case hex digits
    of a byte. *)
Definition hex_digit (d : Z) : ascii :=
  if (d <? 10)%Z then of_byte (48 + d) else of_byte (87 + d).

(** [toHex16Bit(x)]. *)
Definition toHex16Bit (x : Z) : text :=
  let hi := Z.land (Z.shiftr x 8) 255 in
  let lo := Z.land x 255 in
  [hex_digit (Z.shiftr hi 4); hex_digit (Z.land hi 15);
   hex_digit (Z.shiftr lo 4); hex_digit (Z.land lo 15)].

(** [appendHex(result, ch)]. *)
Definition appendHex (ch : Z) : text := [backslash; "u"%char] ++ toHex16Bit ch.

(** The [default] branch for one decoded code point. *)
Definition codepoint_text (cp : Z) : text :=
  if (cp <? 32)%Z then appendHex cp
  else if (cp <? 128)%Z then [of_byte cp]
  else if (cp <? 65536)%Z then appendHex cp
  else
    let cp' := (cp - 65536)%Z in
    appendHex (55296 + Z.land (Z.shiftr cp' 10) 1023)
    ++ appendHex (56320 + Z.land cp' 1023).

(** The [for] loop of [valueToQuotedStringN]; [utf8ToCodepoint] moves
    the loop variable, so the recursion is on a fuel, which the length
    of the string bounds ([escape_go_fuel]). *)
Fixpoint escape_go (fuel : nat) (s : text) : option text :=
  match fuel with
  | O => None
  | S fuel' =>
      match s with
      | [] => Some []
      | c :: rest =>
          match short_escape c with
          | Some e => (e ++.) <$> escape_go fuel' rest
          | None =>
              let '(cp, rest') := utf8ToCodepoint c rest in
              (codepoint_text cp ++.) <$> escape_go fuel' rest'
          end
      end
  end.

Definition valueToQuotedStringN (s : text) : text :=
  if negb (existsb requires_escaping s) then [dq] ++ c_str s ++ [dq]
  else [dq] ++ default [] (escape_go (S (length s)) s) ++ [dq].

(** ** [FastWriter] *)

Fixpoint join_with (sep : ascii) (l : list text) : text :=
  match l with
  | [] => []
  | [x] => x
  | x :: l' => x ++ sep :: join_with sep l'
  end.

(** [FastWriter::writeValue]. *)
Fixpoint writeValue (v : json) : text :=
  match v with
  | JNull => txt "null"
  | JString s => valueToQuotedStringN s
  | JArray l => ["["%char] ++ join_with ","%char (map writeValue l) ++ ["]"%char]
  | JObject m =>
      ["{"%char] ++ join_with ","%char
        (map (fun kv => valueToQuotedStringN kv.1 ++ [":"%char] ++ writeValue kv.2) m)
      ++ ["}"%char]
  end.

(** [FastWriter::write]. *)
Definition fast_write (root : json) : text := writeValue root ++ [newline].

(** ** The response of [Searcher::search] *)

(** The loop body: [value["title"]], [value["content"]], [value["url"]]
    set in that order on a fresh [Json::Value]. *)
Definition result_value (r : SearchResult) : option json :=
  v1 ← value_set JNull (txt "title") (JString (res_title r));
  v2 ← value_set v1 (txt "content") (JString (res_content r));
  value_set v2 (txt "url") (JString (res_url r)).

(** [root.append(value)] for every result, [root] starting [null]. *)
Fixpoint append_results (root : json) (rs : list SearchResult) : option json :=
  match rs with
  | [] => Some root
  | r :: rs' => v ← result_value r; root' ← value_append root v; append_results root' rs'
  end.

(** [json_res = write.write(root)]. *)
Definition json_response (rs : list SearchResult) : option text :=
  root ← append_results JNull rs; Some (fast_write root).

(** ** The reader: [JSON.parse] on strings and on the response *)

Definition hex_val (c : ascii) : option Z :=
  let b := byte c in
  if (48 <=? b)%Z && (b <=? 57)%Z then Some (b - 48)%Z
  else if (97 <=? b)%Z && (b <=? 102)%Z then Some (b - 87)%Z
  else if (65 <=? b)%Z && (b <=? 70)%Z then Some (b - 55)%Z
  else None.

Definition hex4 (h1 h2 h3 h4 : ascii) : option Z :=
  d1 ← hex_val h1; d2 ← hex_val h2; d3 ← hex_val h3; d4 ← hex_val h4;
  Some (((d1 * 16 + d2) * 16 + d3) * 16 + d4)%Z.

(** The UTF-8 encoding of a code point. *)
Definition utf8_encode (cp : Z) : text :=
  if (cp <? 128)%Z then [of_byte cp]
  else if (cp <? 2048)%Z then
    [of_byte (192 + cp / 64); of_byte (128 + cp mod 64)]
  else if (cp <? 65536)%Z then
    [of_byte (224 + cp / 4096); of_byte (128 + cp / 64 mod 64); of_byte (128 + cp mod 64)]
  else
    [of_byte (240 + cp / 262144); of_byte (128 + cp / 4096 mod 64);
     of_byte (128 + cp / 64 mod 64); of_byte (128 + cp mod 64)].

(** The escapes of one letter. *)
Definition unescape (e : ascii) : option ascii :=
  if Ascii.eqb e dq then Some dq
  else if Ascii.eqb e backslash then Some backslash
  else if Ascii.eqb e "/"%char then Some "/"%char
  else if Ascii.eqb e "b"%char then Some (of_byte 8)
  else if Ascii.eqb e "f"%char then Some (of_byte 12)
  else if Ascii.eqb e "n"%char then Some (of_byte 10)
  else if Ascii.eqb e "r"%char then Some (of_byte 13)
  else if Ascii.eqb e "t"%char then Some (of_byte 9)
  else None.

Definition high_surrogate (u : Z) : bool := (55296 <=? u)%Z && (u <=? 56319)%Z.
Definition low_surrogate (u : Z) : bool := (56320 <=? u)%Z && (u <=? 57343)%Z.

Definition prepend (p : text) (r : text * text) : text * text := (p ++ r.1, r.2).

(** The characters of a string literal after its opening quote, up to
    the closing one: the decoded string (as UTF-8) and the input after
    the quote.  A lone surrogate is refused. *)
Fixpoint read_chars (s : text) : option (text * text) :=
  match s with
  | [] => None
  | c :: s' =>
      if Ascii.eqb c dq then Some ([], s')
      else if Ascii.eqb c backslash then
        match s' with
        | [] => None
        | e :: s2 =>
            if Ascii.eqb e "u"%char then
              match s2 with
              | h1 :: h2 :: h3 :: h4 :: s3 =>
                  match hex4 h1 h2 h3 h4 with
                  | None => None
                  | Some u =>
                      if high_surrogate u then
                        match s3 with
                        | b :: v :: k1 :: k2 :: k3 :: k4 :: s4 =>
                            if Ascii.eqb b backslash && Ascii.eqb v "u"%char then
                              match hex4 k1 k2 k3 k4 with
                              | Some l =>
                                  if low_surrogate l then
                                    prepend (utf8_encode (65536 + (u - 55296) * 1024 + (l - 56320)))
                                      <$> read_chars s4
                                  else None
                              | None => None
                              end
                            else None
                        | _ => None
                        end
                      else if low_surrogate u then None
                      else prepend (utf8_encode u) <$> read_chars s3
                  end
              | _ => None
              end
            else
              match unescape e with
              | Some x => prepend [x] <$> read_chars s2
              | None => None
              end
        end
      else prepend [c] <$> read_chars s'
  end.

Definition read_string (s : text) : option (text * text) :=
  match s with
  | c :: s' => if Ascii.eqb c dq then read_chars s' else None
  | [] => None
  end.

(** The member names of a result object as [FastWriter] prints them. *)
Definition content_key : text := txt "{" ++ [dq] ++ txt "content" ++ [dq] ++ txt ":".
Definition title_key : text := txt "," ++ [dq] ++ txt "title" ++ [dq] ++ txt ":".
Definition url_key : text := txt "," ++ [dq] ++ txt "url" ++ [dq] ++ txt ":".

(** One result object as [FastWriter] prints it. *)
Definition read_result (s : text) : option (SearchResult * text) :=
  s1 ← expect content_key s;
  '(c, s2) ← read_string s1;
  s3 ← expect title_key s2;
  '(t, s4) ← read_string s3;
  s5 ← expect url_key s4;
  '(u, s6) ← read_string s5;
  s7 ← expect (txt "}") s6;
  Some (mkResult t c u, s7).

(** The objects of the array, separated by commas, up to [']']; the
    recursion is on the number of objects still allowed. *)
Fixpoint read_objects (n : nat) (s : text) : option (list SearchResult * text) :=
  match n with
  | O => None
  | S n' =>
      '(r, s1) ← read_result s;
      match s1 with
      | c :: s2 =>
          if Ascii.eqb c ","%char then '(rs, s3) ← read_objects n' s2; Some (r :: rs, s3)
          else if Ascii.eqb c "]"%char then Some ([r], s2)
          else None
      | [] => None
      end
  end.

(** The response body: [null] or an array of result objects, then the
    line feed. *)
Definition read_results (s : text) : option (list SearchResult) :=
  if bool_decide (s = txt "null" ++ [newline]) then Some []
  else if bool_decide (s = txt "[]" ++ [newline]) then Some []
  else
    s1 ← expect (txt "[") s;
    '(rs, s2) ← read_objects (length s) s1;
    if bool_decide (s2 = [newline]) then Some rs else None.

(** ** Specification of well-formed text *)

(** A Unicode scalar value: a code point that is not a surrogate. *)
Definition scalar (cp : Z) : Prop := (0 <= cp < 1114112 /\ ~ (55296 <= cp <= 57343))%Z.

#[export] Instance scalar_dec cp : Decision (scalar cp).
Proof. unfold scalar. apply _. Defined.

(** The UTF-8 text of a sequence of code points. *)
Definition utf8_text (cps : list Z) : text := mjoin (utf8_encode <$> cps).

(** Well-formed UTF-8: the encoding of a sequence of scalar values. *)
Definition utf8_valid (s : text) : Prop := exists cps, Forall scalar cps /\ s = utf8_text cps.

(** What the loop of [valueToQuotedStringN] writes for one code point. *)
Definition escaped (cp : Z) : text :=
  if (cp <? 128)%Z then default (codepoint_text cp) (short_escape (of_byte cp))
  else codepoint_text cp.

(** The fields of a result are well-formed UTF-8. *)
Definition result_utf8 (r : SearchResult) : Prop :=
  utf8_valid (res_title r) /\ utf8_valid (res_content r) /\ utf8_valid (res_url r).

(** A 7-bit character. *)
Definition ascii7 (c : ascii) : Prop := (byte c < 128)%Z.

(** The object [result_value] builds: the [std::map] orders the keys. *)
Definition result_object (r : SearchResult) : json :=
  JObject [(txt "content", JString (res_content r)); (txt "title", JString (res_title r));
           (txt "url", JString (res_url r))].

(** A body of twenty copies of U+4E2D (three bytes each) and ["foo"]:
    the window of [GetDescWithHighlight] starts 50 bytes before the
    match, inside a character. *)
Definition zh : text := utf8_encode 20013.
Definition zh_body : text := mjoin (replicate 20 zh) ++ txt "foo".

(** ** Lemmas *)

Section lemmas.
Local Open Scope Z_scope.

Lemma byte_of_byte z : 0 <= z < 256 -> byte (of_byte z) = z.
Proof.
  intros Hz. unfold byte, of_byte. rewrite N_ascii_embedding by lia. lia.
Qed.

Lemma byte_range c : 0 <= byte c < 256.
Proof. unfold byte. pose proof (N_ascii_bounded c). lia. Qed.


Lemma utf8ToCodepoint_2 cp rest :
  128 <= cp < 2048 ->
  utf8ToCodepoint (of_byte (192 + cp / 64)) (of_byte (128 + cp mod 64) :: rest) = (cp, rest).
Proof.
  intros Hcp. unfold utf8ToCodepoint. rewrite !byte_of_byte by zlia.
  cbv zeta. autorewrite with bits.
  rewrite (lor_disjoint _ _ 6) by zlia. ztests. f_equal. zlia.
Qed.

Lemma utf8ToCodepoint_3 cp rest :
  2048 <= cp < 65536 -> ~ (55296 <= cp <= 57343) ->
  utf8ToCodepoint (of_byte (224 + cp / 4096))
    (of_byte (128 + cp / 64 mod 64) :: of_byte (128 + cp mod 64) :: rest) = (cp, rest).
Proof.
  intros Hcp Hs. unfold utf8ToCodepoint. rewrite !byte_of_byte by zlia.
  rewrite (proj2 (Z.ltb_ge _ 128)), (proj2 (Z.ltb_ge _ 224)), (proj2 (Z.ltb_lt _ 240)) by zlia.
  cbv zeta. autorewrite with bits.
  rewrite (lor_disjoint (_ * 4096) _ 12), (lor_disjoint _ _ 6) by zlia.
  ztests; f_equal; zlia.
Qed.

Lemma utf8ToCodepoint_4 cp rest :
  65536 <= cp < 1114112 ->
  utf8ToCodepoint (of_byte (240 + cp / 262144))
    (of_byte (128 + cp / 4096 mod 64) :: of_byte (128 + cp / 64 mod 64)
       :: of_byte (128 + cp mod 64) :: rest) = (cp, rest).
Proof.
  intros Hcp. unfold utf8ToCodepoint. rewrite !byte_of_byte by zlia.
  rewrite (proj2 (Z.ltb_ge _ 128)), (proj2 (Z.ltb_ge _ 224)), (proj2 (Z.ltb_ge _ 240)),
    (proj2 (Z.ltb_lt _ 248)) by zlia.
  cbv zeta. autorewrite with bits.
  rewrite (lor_disjoint (_ * 262144) _ 18), (lor_disjoint (_ + _) (_ * 64) 12),
    (lor_disjoint _ _ 6) by zlia.
  ztests; f_equal; zlia.
Qed.


Lemma short_escape_high c : 128 <= byte c -> short_escape c = None.
Proof.
  intros Hc. unfold short_escape.
  destruct (Ascii.eqb_spec c dq) as [->|_]; [by vm_compute in Hc|].
  destruct (Ascii.eqb_spec c backslash) as [->|_]; [by vm_compute in Hc|].
  ztests; done.
Qed.

Lemma of_byte_byte c : of_byte (byte c) = c.
Proof. unfold of_byte, byte. rewrite N2Z.id. apply ascii_N_embedding. Qed.

Lemma utf8ToCodepoint_1 c rest : byte c < 128 -> utf8ToCodepoint c rest = (byte c, rest).
Proof. intros Hc. unfold utf8ToCodepoint. by rewrite (proj2 (Z.ltb_lt _ _) Hc). Qed.

Lemma escape_step cp rest fuel :
  scalar cp ->
  escape_go (S fuel) (utf8_encode cp ++ rest) = (escaped cp ++.) <$> escape_go fuel rest.
Proof.
  intros [Hr Hs]. unfold utf8_encode, escaped.
  destruct (Z.ltb_spec cp 128) as [H1|H1].
  - cbn [app escape_go]. destruct (short_escape (of_byte cp)) as [e|]; [done|].
    rewrite utf8ToCodepoint_1 by (rewrite byte_of_byte; lia). by rewrite byte_of_byte by lia.
  - destruct (Z.ltb_spec cp 2048) as [H2|H2]; [|destruct (Z.ltb_spec cp 65536) as [H3|H3]];
      cbn [app escape_go]; rewrite short_escape_high by (rewrite byte_of_byte; zlia).
    + by rewrite utf8ToCodepoint_2 by lia.
    + by rewrite utf8ToCodepoint_3 by lia.
    + by rewrite utf8ToCodepoint_4 by lia.
Qed.

Lemma hex_val_digit d : 0 <= d < 16 -> hex_val (hex_digit d) = Some d.
Proof.
  intros Hd.
  assert (d = 0 \/ d = 1 \/ d = 2 \/ d = 3 \/ d = 4 \/ d = 5 \/ d = 6 \/ d = 7 \/ d = 8
          \/ d = 9 \/ d = 10 \/ d = 11 \/ d = 12 \/ d = 13 \/ d = 14 \/ d = 15) as Hc by lia.
  repeat destruct Hc as [->|Hc]; [..|subst]; reflexivity.
Qed.

Lemma hex4_toHex16Bit x :
  0 <= x < 65536 ->
  exists h1 h2 h3 h4, toHex16Bit x = [h1; h2; h3; h4] /\ hex4 h1 h2 h3 h4 = Some x.
Proof.
  intros Hx. eexists _, _, _, _. split; [reflexivity|]. unfold hex4.
  autorewrite with bits. rewrite !hex_val_digit by zlia. cbn [mbind option_bind].
  f_equal. zlia.
Qed.

Lemma read_chars_u h1 h2 h3 h4 t :
  read_chars (backslash :: "u"%char :: h1 :: h2 :: h3 :: h4 :: t)
  = match hex4 h1 h2 h3 h4 with
    | None => None
    | Some u =>
        if high_surrogate u then
          match t with
          | b :: v :: k1 :: k2 :: k3 :: k4 :: s4 =>
              if Ascii.eqb b backslash && Ascii.eqb v "u"%char then
                match hex4 k1 k2 k3 k4 with
                | Some l =>
                    if low_surrogate l then
                      prepend (utf8_encode (65536 + (u - 55296) * 1024 + (l - 56320)))
                        <$> read_chars s4
                    else None
                | None => None
                end
              else None
          | _ => None
          end
        else if low_surrogate u then None
        else prepend (utf8_encode u) <$> read_chars t
    end.
Proof. reflexivity. Qed.

Lemma read_chars_hex x t :
  0 <= x < 65536 ->
  read_chars (appendHex x ++ t)
  = if high_surrogate x then
      match t with
      | b :: v :: k1 :: k2 :: k3 :: k4 :: s4 =>
          if Ascii.eqb b backslash && Ascii.eqb v "u"%char then
            match hex4 k1 k2 k3 k4 with
            | Some l =>
                if low_surrogate l then
                  prepend (utf8_encode (65536 + (x - 55296) * 1024 + (l - 56320)))
                    <$> read_chars s4
                else None
            | None => None
            end
          else None
      | _ => None
      end
    else if low_surrogate x then None
    else prepend (utf8_encode x) <$> read_chars t.
Proof.
  intros Hx. unfold appendHex. destruct (hex4_toHex16Bit x Hx) as (h1 & h2 & h3 & h4 & -> & Hh).
  cbn [app]. by rewrite read_chars_u, Hh.
Qed.

Lemma read_chars_raw c t :
  Ascii.eqb c dq = false -> Ascii.eqb c backslash = false ->
  read_chars (c :: t) = prepend [c] <$> read_chars t.
Proof. intros H1 H2. cbn [read_chars]. by rewrite H1, H2. Qed.

Lemma read_chars_short c e t :
  short_escape c = Some e -> read_chars (e ++ t) = prepend [c] <$> read_chars t.
Proof.
  unfold short_escape.
  destruct (Ascii.eqb_spec c dq) as [->|_]; [by intros [= <-]|].
  destruct (Ascii.eqb_spec c backslash) as [->|_]; [by intros [= <-]|].
  pose proof (of_byte_byte c) as Hc.
  ztests; intros [= <-]; rewrite <- Hc; match goal with H : byte c = _ |- _ => rewrite H end;
    reflexivity.
Qed.

Lemma utf8_encode_1 cp : cp < 128 -> utf8_encode cp = [of_byte cp].
Proof. intros H. unfold utf8_encode. by rewrite (proj2 (Z.ltb_lt _ _) H). Qed.

Lemma read_step cp t :
  scalar cp -> read_chars (escaped cp ++ t) = prepend (utf8_encode cp) <$> read_chars t.
Proof.
  intros [Hr Hs]. unfold escaped, codepoint_text.
  destruct (Z.ltb_spec cp 128) as [H1|H1].
  - rewrite utf8_encode_1 by done.
    destruct (short_escape (of_byte cp)) as [e|] eqn:He; cbn [default].
    + by apply read_chars_short.
    + destruct (Z.ltb_spec cp 32).
      * rewrite read_chars_hex by lia. unfold high_surrogate, low_surrogate. ztests.
        by rewrite utf8_encode_1.
      * cbn [app]. apply read_chars_raw; revert He; unfold short_escape;
          [destruct (Ascii.eqb (of_byte cp) dq) | destruct (Ascii.eqb (of_byte cp) dq);
           [|destruct (Ascii.eqb (of_byte cp) backslash)]]; done.
  - destruct (Z.ltb_spec cp 32); [lia|]. destruct (Z.ltb_spec cp 128); [lia|].
    destruct (Z.ltb_spec cp 65536) as [H3|H3].
    + rewrite read_chars_hex by lia. unfold high_surrogate, low_surrogate. by ztests.
    + rewrite <- app_assoc, read_chars_hex by (autorewrite with bits; zlia).
      unfold high_surrogate at 1. autorewrite with bits. ztests.
      unfold appendHex at 1.
      destruct (hex4_toHex16Bit (56320 + (cp - 65536) mod 1024)) as (k1 & k2 & k3 & k4 & -> & Hk);
        [zlia|].
      cbn [app]. rewrite Hk. cbn [andb Ascii.eqb]. unfold low_surrogate. ztests.
      do 3 f_equal. zlia.
Qed.

Lemma length_utf8_encode cp : (1 <= length (utf8_encode cp))%nat.
Proof. unfold utf8_encode. ztests; simpl; lia. Qed.

Lemma utf8_text_cons cp cps : utf8_text (cp :: cps) = utf8_encode cp ++ utf8_text cps.
Proof. reflexivity. Qed.

Lemma length_utf8_text cps : (length cps <= length (utf8_text cps))%nat.
Proof.
  induction cps as [|cp cps IH]; [done|]. rewrite utf8_text_cons, length_app.
  pose proof (length_utf8_encode cp). simpl. lia.
Qed.

Lemma escape_go_utf8 cps fuel :
  Forall scalar cps -> (length cps < fuel)%nat ->
  escape_go fuel (utf8_text cps) = Some (mjoin (escaped <$> cps)).
Proof.
  intros Hcps. revert fuel. induction Hcps as [|cp cps Hcp _ IH]; intros [|fuel] Hf;
    simpl in Hf; try lia; [done|].
  rewrite utf8_text_cons, escape_step, IH by (done || lia). done.
Qed.

Lemma prepend_prepend a b r : prepend a (prepend b r) = prepend (a ++ b) r.
Proof. unfold prepend. simpl. by rewrite app_assoc. Qed.

Lemma read_chars_escaped cps t :
  Forall scalar cps ->
  read_chars (mjoin (escaped <$> cps) ++ t) = prepend (utf8_text cps) <$> read_chars t.
Proof.
  induction 1 as [|cp cps Hcp _ IH].
  - simpl. by destruct (read_chars t) as [[]|].
  - change (mjoin (escaped <$> cp :: cps)) with (escaped cp ++ mjoin (escaped <$> cps)).
    rewrite <- app_assoc, read_step, IH by done.
    destruct (read_chars t); [|done]. simpl. by rewrite prepend_prepend.
Qed.

Lemma plain_not_special c :
  requires_escaping c = false -> Ascii.eqb c dq = false /\ Ascii.eqb c backslash = false
                                 /\ Ascii.eqb c "000"%char = false.
Proof.
  unfold requires_escaping. rewrite !orb_false_iff. intros [[[-> ->] Hlt] _].
  split_and!; [done | done|]. destruct (Ascii.eqb_spec c "000"%char) as [->|]; [|done].
  by vm_compute in Hlt.
Qed.

Lemma read_chars_plain s t :
  Forall (fun c => requires_escaping c = false) s ->
  read_chars (s ++ t) = prepend s <$> read_chars t.
Proof.
  induction 1 as [|c s Hc _ IH].
  - simpl. by destruct (read_chars t) as [[]|].
  - destruct (plain_not_special c Hc) as (H1 & H2 & _). cbn [app].
    rewrite read_chars_raw, IH by done.
    destruct (read_chars t); [|done]. simpl. by rewrite prepend_prepend.
Qed.

Lemma c_str_plain s : Forall (fun c => requires_escaping c = false) s -> c_str s = s.
Proof.
  induction 1 as [|c s Hc _ IH]; [done|]. simpl.
  destruct (plain_not_special c Hc) as (_ & _ & ->). by rewrite IH.
Qed.

Lemma read_string_dq t : read_string (dq :: t) = read_chars t.
Proof. reflexivity. Qed.

Lemma read_chars_dq t : read_chars (dq :: t) = Some ([], t).
Proof. reflexivity. Qed.

Lemma prepend_nil p t : prepend p ([], t) = (p, t).
Proof. unfold prepend. simpl. by rewrite app_nil_r. Qed.

(** A well-formed string survives quoting and reading. *)
Lemma read_string_quote s rest :
  utf8_valid s -> read_string (valueToQuotedStringN s ++ rest) = Some (s, rest).
Proof.
  intros (cps & Hcps & ->). unfold valueToQuotedStringN.
  destruct (existsb requires_escaping (utf8_text cps)) eqn:He; cbn [negb].
  - rewrite escape_go_utf8; [|done|pose proof (length_utf8_text cps); lia]. cbn [default id].
    cbn [app]. rewrite read_string_dq, <- app_assoc, read_chars_escaped by done.
    cbn [app]. rewrite read_chars_dq. exact (f_equal Some (prepend_nil _ _)).
  - assert (Hp : Forall (fun c => requires_escaping c = false) (utf8_text cps)).
    { apply Forall_forall. intros c Hc. destruct (requires_escaping c) eqn:E; [|done].
      assert (existsb requires_escaping (utf8_text cps) = true) as Ht
        by (apply existsb_exists; exists c; split; [by apply list_elem_of_In | done]).
      congruence. }
    rewrite c_str_plain by done. cbn [app].
    rewrite read_string_dq, <- app_assoc, read_chars_plain by done.
    cbn [app]. rewrite read_chars_dq. exact (f_equal Some (prepend_nil _ _)).
Qed.

Lemma utf8ToCodepoint_length c rest : (length (utf8ToCodepoint c rest).2 <= length rest)%nat.
Proof.
  unfold utf8ToCodepoint.
  repeat (case_match; simpl; try lia).
Qed.

(** A string with nothing to escape is only put between quotes. *)
Lemma quote_plain k :
  Forall (fun c => requires_escaping c = false) k -> valueToQuotedStringN k = [dq] ++ k ++ [dq].
Proof.
  intros Hk. unfold valueToQuotedStringN. rewrite c_str_plain by done.
  replace (existsb requires_escaping k) with false; [done|].
  symmetry. apply not_true_iff_false. intros [c [Hc He]]%existsb_exists.
  rewrite Forall_forall in Hk. rewrite (Hk c) in He; [done|]. by apply list_elem_of_In.
Qed.

Lemma map_fmap {A B} (f : A -> B) (l : list A) : map f l = f <$> l.
Proof. induction l; simpl; by f_equal. Qed.

Lemma result_value_eq r : result_value r = Some (result_object r).
Proof. reflexivity. Qed.

Lemma append_results_array l rs :
  append_results (JArray l) rs = Some (JArray (l ++ (result_object <$> rs))).
Proof.
  revert l. induction rs as [|r rs IH]; intros l; simpl; [by rewrite app_nil_r|].
  rewrite IH. by rewrite <- app_assoc.
Qed.

Lemma writeValue_object r :
  writeValue (result_object r)
  = content_key ++ valueToQuotedStringN (res_content r) ++ title_key
    ++ valueToQuotedStringN (res_title r) ++ url_key ++ valueToQuotedStringN (res_url r)
    ++ txt "}".
Proof.
  unfold result_object. cbn [writeValue map join_with fst snd].
  rewrite (quote_plain (txt "content")), (quote_plain (txt "title")), (quote_plain (txt "url"))
    by decide_by_vm.
  unfold content_key, title_key, url_key. repeat (cbn [app]; rewrite <- ?app_assoc). reflexivity.
Qed.

Lemma read_result_object r t :
  result_utf8 r -> read_result (writeValue (result_object r) ++ t) = Some (r, t).
Proof.
  intros (Ht & Hc & Hu). rewrite writeValue_object. unfold read_result. rewrite <- !app_assoc.
  rewrite expect_app. cbn [mbind option_bind]. rewrite read_string_quote by done.
  cbn [mbind option_bind]. rewrite expect_app. cbn [mbind option_bind].
  rewrite read_string_quote by done. cbn [mbind option_bind]. rewrite expect_app.
  cbn [mbind option_bind]. rewrite read_string_quote by done. cbn [mbind option_bind].
  rewrite expect_app. by destruct r.
Qed.

Lemma length_join_with sep l : (length l <= S (length (join_with sep l)))%nat.
Proof.
  induction l as [|x [|y l] IH]; simpl; [lia | lia|].
  rewrite length_app. simpl in *. lia.
Qed.

Lemma join_with_cons2 sep x y l : join_with sep (x :: y :: l) = x ++ sep :: join_with sep (y :: l).
Proof. reflexivity. Qed.

Lemma read_objects_ok n r rs t :
  Forall result_utf8 (r :: rs) -> (length (r :: rs) <= n)%nat ->
  read_objects n (join_with ","%char (writeValue <$> (result_object <$> r :: rs)) ++ "]"%char :: t)
  = Some (r :: rs, t).
Proof.
  revert n r. induction rs as [|r' rs IH]; intros [|n] r Hok Hn; simpl in Hn; try lia;
    apply Forall_cons in Hok as [Hr Hok].
  - cbn [fmap list_fmap join_with read_objects]. rewrite read_result_object by done. done.
  - change (writeValue <$> (result_object <$> r :: r' :: rs))
      with (writeValue (result_object r) :: writeValue (result_object r')
              :: (writeValue <$> (result_object <$> rs))).
    rewrite join_with_cons2, <- app_assoc. cbn [read_objects].
    rewrite read_result_object by done. cbn [mbind option_bind app]. rewrite Ascii.eqb_refl.
    change (writeValue (result_object r') :: (writeValue <$> (result_object <$> rs)))
      with (writeValue <$> (result_object <$> r' :: rs)).
    rewrite IH by (done || simpl; lia). done.
Qed.

(** The response text reads back as the results it was built from. *)
Lemma json_response_read rs :
  Forall result_utf8 rs -> exists out, json_response rs = Some out /\ read_results out = Some rs.
Proof.
  intros Hok. destruct rs as [|r rs]; [by eexists|].
  unfold json_response. cbn [append_results]. rewrite result_value_eq.
  cbn [mbind option_bind value_append]. rewrite append_results_array.
  cbn [mbind option_bind]. eexists; split; [reflexivity|].
  change (JArray ([result_object r] ++ (result_object <$> rs)))
    with (JArray (result_object <$> r :: rs)).
  unfold fast_write. cbn [writeValue]. rewrite map_fmap.
  set (body := join_with ","%char (writeValue <$> (result_object <$> r :: rs))).
  assert (Hw : exists w, body = "{"%char :: w).
  { subst body. destruct rs; cbn [fmap list_fmap join_with]; rewrite writeValue_object;
      eexists; reflexivity. }
  unfold read_results. destruct Hw as [w Hw].
  rewrite !bool_decide_eq_false_2 by (rewrite Hw; intros H; inversion H).
  change ["["%char] with (txt "["). rewrite <- !app_assoc, expect_app. cbn [mbind option_bind app].
  subst body. rewrite read_objects_ok; [|done|].
  - cbn [mbind option_bind]. by rewrite bool_decide_eq_true_2.
  - pose proof (length_join_with ","%char (writeValue <$> (result_object <$> r :: rs))) as Hl.
    rewrite !length_fmap in Hl. rewrite !length_app. cbn [length String.list_ascii_of_string] in *. lia.
Qed.

(** *** The response is 7-bit text *)

Lemma ascii7_of_byte z : 0 <= z < 128 -> ascii7 (of_byte z).
Proof. intros Hz. unfold ascii7. rewrite byte_of_byte; lia. Qed.

Lemma hex_digit_ascii7 d : 0 <= d < 16 -> ascii7 (hex_digit d).
Proof. intros Hd. unfold hex_digit. ztests; apply ascii7_of_byte; lia. Qed.

Lemma appendHex_ascii7 ch : Forall ascii7 (appendHex ch).
Proof.
  unfold appendHex, toHex16Bit. cbv zeta. autorewrite with bits.
  repeat constructor; try apply hex_digit_ascii7; try zlia; by vm_compute.
Qed.

(** [utf8ToCodepoint] gives a byte below 128 only for that byte alone. *)
Lemma utf8ToCodepoint_low c rest :
  128 <= (utf8ToCodepoint c rest).1 \/ (byte c < 128 /\ (utf8ToCodepoint c rest).1 = byte c).
Proof.
  pose proof (byte_range c). unfold utf8ToCodepoint, replacement_character.
  destruct (Z.ltb_spec (byte c) 128); [by right|left].
  repeat match goal with
         | |- context [if ?b then _ else _] => destruct b eqn:?
         | |- context [match ?r with _ => _ end] => destruct r as [|? ?]
         end; cbn [fst]; try lia;
  match goal with H : _ = false |- _ => apply Z.ltb_ge in H; lia end.
Qed.

Lemma codepoint_text_ascii7 cp : 0 <= cp -> Forall ascii7 (codepoint_text cp).
Proof.
  intros Hcp. unfold codepoint_text. ztests; rewrite ?Forall_app;
    repeat split; try apply appendHex_ascii7. apply Forall_singleton, ascii7_of_byte. lia.
Qed.

Lemma short_escape_ascii7 c e : short_escape c = Some e -> Forall ascii7 e.
Proof.
  unfold short_escape. repeat case_match; intros; simplify_eq; decide_by_vm.
Qed.

Lemma escape_go_ascii7 fuel s r : escape_go fuel s = Some r -> Forall ascii7 r.
Proof.
  revert s r. induction fuel as [|fuel IH]; intros s r Hr; [done|].
  destruct s as [|c rest]; cbn [escape_go] in Hr; [by simplify_eq|].
  destruct (short_escape c) as [e|] eqn:He.
  - apply fmap_Some in Hr as (r' & Hr' & ->). apply Forall_app.
    split; [by eapply short_escape_ascii7 | by eapply IH].
  - destruct (utf8ToCodepoint c rest) as [cp rest'] eqn:Hu.
    apply fmap_Some in Hr as (r' & Hr' & ->). apply Forall_app. split; [|by eapply IH].
    apply codepoint_text_ascii7. pose proof (utf8ToCodepoint_low c rest) as Hl.
    pose proof (byte_range c). rewrite Hu in Hl. cbn [fst] in Hl. lia.
Qed.

(** A character the fast path copies is printable ASCII. *)
Lemma no_escape_ascii7 c : requires_escaping c = false -> ascii7 c.
Proof.
  unfold requires_escaping, signed_char, ascii7. pose proof (byte_range c).
  rewrite !orb_false_iff. intros [[[_ _] H1] H2].
  destruct (Z.ltb_spec (byte c) 128); rewrite Z.ltb_ge in H1, H2; lia.
Qed.

Lemma quote_ascii7 s : Forall ascii7 (valueToQuotedStringN s).
Proof.
  unfold valueToQuotedStringN. destruct (existsb requires_escaping s) eqn:He; cbn [negb].
  - rewrite !Forall_app. split_and!; [apply Forall_singleton; by vm_compute | |
      apply Forall_singleton; by vm_compute].
    destruct (escape_go _ _) eqn:Hr; cbn [default id]; [by eapply escape_go_ascii7 | done].
  - rewrite !Forall_app. split_and!; [apply Forall_singleton; by vm_compute | |
      apply Forall_singleton; by vm_compute].
    apply Forall_forall. intros c Hc. apply no_escape_ascii7.
    destruct (requires_escaping c) eqn:Hc'; [|done]. exfalso.
    assert (Hin : c ∈ s) by (destruct (c_str_prefix s) as [k ->]; apply elem_of_app; by left).
    apply list_elem_of_In in Hin. rewrite <- not_true_iff_false in He. apply He, existsb_exists. eauto.
Qed.

Lemma join_with_Forall (P : ascii -> Prop) sep l :
  P sep -> Forall (Forall P) l -> Forall P (join_with sep l).
Proof.
  intros Hs Hl. induction Hl as [|x l Hx Hl IH]; [constructor|].
  destruct l as [|y l]; [done|]. rewrite join_with_cons2. apply Forall_app. split; [done|].
  by constructor.
Qed.
End lemmas.

Lemma json_response_total rs : exists out, json_response rs = Some out.
Proof.
  destruct rs as [|r rs]; [by eexists|]. unfold json_response. cbn [append_results].
  rewrite result_value_eq. cbn [mbind option_bind value_append].
  rewrite append_results_array. by eexists.
Qed.

Lemma escape_go_fuel s :
  exists r, forall fuel, (length s < fuel)%nat -> escape_go fuel s = Some r.
Proof.
  remember (length s) as n eqn:Hn. revert s Hn.
  induction n as [n IH] using lt_wf_ind. intros [|c rest] Hn.
  - exists []. intros [|fuel] Hf; [lia | done].
  - simpl in Hn. destruct (short_escape c) as [e|] eqn:He.
    + destruct (IH (length rest) ltac:(lia) rest eq_refl) as [r Hr].
      exists (e ++ r). intros [|fuel] Hf; [lia|]. cbn [escape_go]. rewrite He, Hr by lia. done.
    + destruct (utf8ToCodepoint c rest) as [cp rest'] eqn:Hu.
      pose proof (utf8ToCodepoint_length c rest) as Hl. rewrite Hu in Hl. simpl in Hl.
      destruct (IH (length rest') ltac:(lia) rest' eq_refl) as [r Hr].
      exists (codepoint_text cp ++ r). intros [|fuel] Hf; [lia|]. cbn [escape_go].
      rewrite He, Hu, Hr by lia. done.
Qed.

(** ** Properties of the JSON response *)

(** C21. Response round trip: for results whose title, body and URL
    are well-formed UTF-8, [Searcher::search] builds its [Json::Value]
    (every result an object, appended to a [null] root) and the text
    [FastWriter::write] prints reads back, through a JSON reader
    (escapes, [\uXXXX] and surrogate pairs included), as exactly those
    results in that order. *)
Theorem json_response_roundtrip rs :
  Forall result_utf8 rs -> exists out, json_response rs = Some out /\ read_results out = Some rs.
Proof. apply json_response_read. Qed.

(** The response is 7-bit text: whatever the corpus holds, even
    malformed UTF-8, [Searcher::search] produces a body, and every byte
    of it is below 0x80: [FastWriter] escapes each non-ASCII character as
    [\uXXXX] (U+FFFD for a malformed sequence) and each control byte, so
    the body sent as [application/json; charset=utf-8] is well-formed
    UTF-8 and well-formed ASCII. *)
Theorem json_response_ascii rs : exists out, json_response rs = Some out /\ Forall ascii7 out.
Proof.
  destruct rs as [|r rs]; [eexists; split; [reflexivity | decide_by_vm]|].
  unfold json_response. cbn [append_results]. rewrite result_value_eq.
  cbn [mbind option_bind value_append]. rewrite append_results_array.
  cbn [mbind option_bind]. eexists; split; [reflexivity|].
  unfold fast_write. cbn [writeValue]. rewrite map_fmap, !Forall_app.
  split_and!; [decide_by_vm | | decide_by_vm | decide_by_vm].
  apply join_with_Forall; [by vm_compute|]. apply Forall_fmap, Forall_forall.
  intros v Hv. apply elem_of_app in Hv as [->%list_elem_of_singleton | (r' & -> & _)%list_elem_of_fmap];
    unfold compose; rewrite writeValue_object, !Forall_app; split_and!; (apply quote_ascii7 || decide_by_vm).
Qed.

(** Termination of the escaping loop: [utf8ToCodepoint] moves the
    loop variable forward, never back, so the loop of
    [valueToQuotedStringN] ends within [length s] iterations with one
    result whatever fuel beyond that it is given; [FastWriter::write]
    therefore prints a string that needs escaping as that complete
    result between quotes (the [default] of the model never applies). *)
Theorem escape_go_terminates s :
  exists r, (forall fuel, (length s < fuel)%nat -> escape_go fuel s = Some r) /\
            (existsb requires_escaping s = true -> fast_write (JString s) = [dq] ++ r ++ [dq; newline]).
Proof.
  destruct (escape_go_fuel s) as [r Hr]. exists r. split; [done|].
  intros He. unfold fast_write. cbn [writeValue]. unfold valueToQuotedStringN.
  rewrite He, (Hr (S (length s))) by lia. cbn [negb default id]. by rewrite <- !app_assoc.
Qed.

(** A snippet cut inside a character is misread: in a body of
    Chinese text the window of [GetDescWithHighlight] starts 50 bytes
    before the match, here at the second byte of a three-byte character;
    [utf8ToCodepoint] takes that continuation byte and the next one as a
    two-byte sequence, and the JSON text of the snippet starts with the
    unrelated letter U+062D instead of the characters of the body. *)
Example snippet_mid_character :
  option_map (fun q => bool_decide (([dq] ++ ellipsis ++ appendHex 1581 ++ appendHex 20013)
                                    `prefix_of` q))
    (valueToQuotedStringN <$> GetDescWithHighlight zh_body [txt "foo"]) = Some true.
Proof. vm_compute. reflexivity. Qed.

(** ** Witnesses *)

Lemma json_response_roundtrip_witness :
  exists out, json_response [mkResult zh zh (txt "u")] = Some out /\
              read_results out = Some [mkResult zh zh (txt "u")].
Proof.
  apply json_response_roundtrip. repeat constructor; [exists [20013%Z]..| exists [117%Z]];
    (split; [decide_by_vm | reflexivity]).
Defined.

Lemma escape_go_terminates_witness :
  existsb requires_escaping zh = true /\ exists r, escape_go 4 zh = Some r /\
    fast_write (JString zh) = [dq] ++ r ++ [dq; newline].
Proof.
  assert (He : existsb requires_escaping zh = true) by reflexivity.
  split; [exact He|]. destruct (escape_go_terminates zh) as (r & Hr & Hw). exists r.
  split; [apply Hr; vm_compute; lia | exact (Hw He)].
Defined.
