(* ===== verification/Parser.v ===== *)
(** * Corpus generation: [src/parser.cc]

    The offline program that turns the Boost HTML documentation into the
    corpus file read by [Index::create_index].  [extract_html] keeps the
    regular [.html] files of a recursive directory walk (the walk itself,
    [boost::filesystem::recursive_directory_iterator], is its input list);
    [parse_html] reads each file ([get_file_all]) and extracts its title
    ([get_title]), its text ([get_content], a two-state machine over the
    characters) and its URL ([get_url]); [save_file] appends one line per
    file to the corpus, opened with [std::ios::app]; [parser_main] chains
    them with the exit codes of [main].

    A C++ function with an output parameter is a function from the initial
    value of the parameter to its return value and final value; an
    exception ([std::out_of_range] of [substr]) is [None].  The HTML files
    are the section variable [fs] (path to contents, [None] when the file
    cannot be opened); [size_t] arithmetic is modulo 2^64. *)

From S2P Require Import Prelude CppString Index.

(** ** Data *)

(** [class file_content] (fields renamed: record fields share one
    namespace). *)
Record file_content := mkFileContent {
  fc_title : text;
  fc_content : text;
  fc_url : text;
}.

#[export] Instance file_content_eq_dec : EqDecision file_content.
Proof. solve_decision. Defined.

(** [enum State] of [get_content]. *)
Inductive State := LABEL | BODY.

#[export] Instance State_eq_dec : EqDecision State.
Proof. solve_decision. Defined.

(** [html_src_path] and the URL prefix of [get_url]. *)
Definition html_src_path : text := txt "data/input".
Definition url_head : text := txt "https://www.boost.org/doc/libs/1_78_0/doc/html".

Definition space_char : ascii := " "%char.

(** [size_t] subtraction. *)
Definition size_t_sub (a b : Z) : Z := ((a - b) mod 2 ^ 64)%Z.

(** ** Operations *)

(** One step of the [for (char c : file_all)] loop of [get_content]. *)
Definition content_step (sc : State * text) (c : ascii) : State * text :=
  let '(state, content) := sc in
  match state with
  | LABEL => if Ascii.eqb c ">"%char then (BODY, content) else (LABEL, content)
  | BODY =>
      if Ascii.eqb c "<"%char then (LABEL, content)
      else (BODY, content ++ [if Ascii.eqb c newline then space_char else c])
  end.

(** [save_file]'s line for one record: [title \3 content \3 url \n]. *)
Definition record_line (item : file_content) : text :=
  fc_title item ++ [SEP] ++ fc_content item ++ [SEP] ++ fc_url item ++ [newline].

(** [path.filename()] and [path.extension()] (Boost.Filesystem v3): the
    part after the last ['/'], and its part from the last ['.'] on
    (empty for ["."], [".."] and names without a dot). *)
Definition filename (p : text) : text := default [] (last (split_plain "/"%char p)).

Definition extension (p : text) : text :=
  let fn := filename p in
  if bool_decide (fn = txt "." \/ fn = txt "..") then []
  else match split_plain "."%char fn with
       | [] | [_] => []
       | segs => "."%char :: default [] (last segs)
       end.

(** [extract_html(src_path, htmls)]: [root_exists] is
    [fs::exists(root_path)]; [entries] the walk of the recursive
    iterator, each path with [fs::is_regular_file]. *)
Definition extract_html (root_exists : bool) (entries : list (text * bool)) (htmls : list text)
    : bool * list text :=
  if negb root_exists then (false, htmls)
  else (true, htmls ++ (fst <$> filter (fun e => e.2 = true /\ extension e.1 = txt ".html") entries)).

(** [save_file(file_contents)]: the corpus file is [None] when it cannot
    be opened; otherwise the lines are appended to what it holds. *)
Definition save_file (file_contents : list file_content) (raw : option text)
    : bool * option text :=
  match raw with
  | None => (false, None)
  | Some old => (true, Some (old ++ mjoin (record_line <$> file_contents)))
  end.

(** ** Specification of the text extraction *)

(** The text of a page: every segment that follows a ['<'] (and the
    first one) is a tag up to its first ['>'] and text after it; the text
    is kept with its line breaks as spaces, a segment without ['>'] gives
    nothing. *)
Definition nl_to_space (s : text) : text :=
  map (fun x => if Ascii.eqb x newline then space_char else x) s.

Definition segment_text (seg : text) : text :=
  default [] (nl_to_space <$> after_first ">"%char seg).

Definition strip_tags (s : text) : text :=
  mjoin (segment_text <$> split_plain "<"%char s).

(** What the machine outputs from [s] when it starts in [BODY]: the first
    segment whole, then as from [LABEL]. *)
Definition body_text (s : text) : text :=
  match split_plain "<"%char s with
  | [] => []
  | seg :: segs => nl_to_space seg ++ mjoin (segment_text <$> segs)
  end.

(** No markup left: neither ['<'] nor a line break. *)
Definition clean (t : text) : Prop := "<"%char ∉ t /\ newline ∉ t.

Section parser.
Context (fs : text -> option text).

(** [get_file_all(file_path)]: the lines of the file, without their
    ['\n'], concatenated; [""] when the file cannot be opened. *)
Definition get_file_all (file_path : text) : text :=
  match fs file_path with
  | None => []
  | Some contents => mjoin (getlines contents)
  end.

(** [get_title(file_path, title)]. *)
Definition get_title (file_path title : text) : option (bool * text) :=
  let file_all := get_file_all file_path in
  if bool_decide (file_all = []) then Some (false, title) else
  let sz := length (txt "<title>") in
  match str_find file_all (txt "<title>") with
  | None => Some (false, title)
  | Some begin =>
      match str_find file_all (txt "</title>") with
      | None => Some (false, title)
      | Some end_ =>
          if bool_decide (end_ <= begin) then Some (false, title) else
          let len := size_t_sub (size_t_sub (Z.of_nat end_) (Z.of_nat begin)) (Z.of_nat sz) in
          t ← substr file_all (begin + sz) (Z.to_nat len);
          Some (true, t)
      end
  end.

(** [get_content(file_path, content)]: the state machine starts in
    [LABEL]; the content is cleared only when the file is not empty. *)
Definition get_content (file_path content : text) : option (bool * text) :=
  let file_all := get_file_all file_path in
  if bool_decide (file_all = []) then Some (false, content)
  else Some (true, snd (foldl content_step (LABEL, []) file_all)).

(** [get_url(file_path, url)]: [file_path.substr(sz)] throws when the
    path is shorter than ["data/input"]. *)
Definition get_url (file_path url : text) : option (bool * text) :=
  tail ← substr_from file_path (length html_src_path);
  Some (true, url_head ++ tail).

(** One iteration of the loop of [parse_html]: fresh strings, the three
    extractions (a [false] is only logged), one record pushed. *)
Definition parse_one (file_path : text) : option file_content :=
  t ← get_title file_path [];
  c ← get_content file_path [];
  u ← get_url file_path [];
  Some (mkFileContent t.2 c.2 u.2).

(** [parse_html(htmls, file_contents)]. *)
Definition parse_html (htmls : list text) (file_contents : list file_content)
    : option (bool * list file_content) :=
  if bool_decide (htmls = []) then Some (false, file_contents)
  else items ← mapM parse_one htmls; Some (true, file_contents ++ items).

(** [main]: exit code 1, 2 or 3 when a stage fails, 0 otherwise, with the
    corpus file after the run. *)
Definition parser_main (root_exists : bool) (entries : list (text * bool)) (raw : option text)
    : option (Z * option text) :=
  let '(ok1, htmls) := extract_html root_exists entries [] in
  if negb ok1 then Some (1%Z, raw) else
  r ← parse_html htmls [];
  let '(ok2, file_contents) := r in
  if negb ok2 then Some (2%Z, raw) else
  let '(ok3, raw') := save_file file_contents raw in
  if negb ok3 then Some (3%Z, raw') else Some (0%Z, raw').
End parser.

(** A page and a file system for the witnesses. *)
Definition demo_page : text :=
  txt "<html><head><title>Boost Intro</title></head><body><p>Hello" ++ [newline]
  ++ txt "World</p></body></html>".

Definition demo_fs (p : text) : option text :=
  if bool_decide (p = txt "data/input/a.html") then Some demo_page else None.

(** ** Lemmas on the text extraction *)

Lemma split_plain_cons_ne c x s :
  Ascii.eqb x c = false ->
  exists seg segs, split_plain c s = seg :: segs /\ split_plain c (x :: s) = (x :: seg) :: segs.
Proof.
  intros Hx. destruct s as [|y s]; simpl.
  - rewrite Hx. by exists [], [].
  - destruct (split_plain c s) as [|seg segs] eqn:E; destruct (Ascii.eqb y c);
      simpl; rewrite Hx; eauto.
Qed.

(** The machine from either state, by induction on the input. *)
Lemma foldl_content_step s acc :
  snd (foldl content_step (LABEL, acc) s) = acc ++ strip_tags s /\
  snd (foldl content_step (BODY, acc) s) = acc ++ body_text s.
Proof.
  revert acc. induction s as [|x s IH]; intros acc.
  - unfold strip_tags, body_text. simpl. by rewrite !app_nil_r.
  - destruct (Ascii.eqb_spec x "<"%char) as [->|Hlt].
    + (* '<' *) unfold strip_tags, body_text. simpl. split; apply IH.
    + destruct (split_plain_cons_ne "<"%char x s) as (seg & segs & Hs & Hxs);
        [by apply Ascii.eqb_neq|].
      unfold strip_tags, body_text. rewrite Hxs. cbn [foldl content_step fmap list_fmap mjoin].
      destruct (Ascii.eqb_spec x ">"%char) as [->|Hgt]; split.
      * destruct (IH acc) as [_ H]. rewrite H. unfold body_text. rewrite Hs. done.
      * simpl. rewrite (proj2 (IH _)). unfold body_text. rewrite Hs.
        by rewrite <- app_assoc.
      * rewrite (proj1 (IH acc)). unfold strip_tags. rewrite Hs. unfold segment_text.
        cbn [after_first fmap list_fmap mjoin]. rewrite (proj2 (Ascii.eqb_neq x ">"%char) Hgt).
        done.
      * rewrite (proj2 (Ascii.eqb_neq x "<"%char) Hlt). rewrite (proj2 (IH _)).
        unfold body_text. rewrite Hs. simpl. by rewrite <- app_assoc.
Qed.

(** The invariant of the machine: what it has output is clean. *)
Lemma content_step_clean sc c : clean sc.2 -> clean (content_step sc c).2.
Proof.
  destruct sc as [[] acc]; simpl; [by destruct (Ascii.eqb c ">")|].
  destruct (Ascii.eqb_spec c "<"%char) as [->|Hlt]; [done|].
  intros [H1 H2]. simpl. unfold clean. rewrite !elem_of_app, !list_elem_of_singleton.
  destruct (Ascii.eqb_spec c newline) as [->|Hnl]; split; intros [|]; try done;
    by vm_compute in *.
Qed.

Lemma foldl_content_step_clean sc s : clean sc.2 -> clean (foldl content_step sc s).2.
Proof. revert sc. induction s; simpl; auto using content_step_clean. Qed.

(** ** Lemmas on the title *)

(** ["</title>"] cannot start inside ["<title>"]. *)
Lemma title_tags_apart fa b e :
  txt "<title>" `prefix_of` drop b fa -> txt "</title>" `prefix_of` drop e fa -> b < e ->
  b + 7 <= e.
Proof.
  intros [r Hr] [r2 Hr2] Hlt. destruct (decide (b + 7 <= e)) as [|Hgt]; [done|]. exfalso.
  assert (Hk : drop e fa = drop (e - b) (drop b fa)) by (rewrite drop_drop; f_equal; lia).
  rewrite Hr in Hk. rewrite Hk in Hr2.
  destruct (e - b) as [|[|[|[|[|[|[|k]]]]]]] eqn:Ek; try lia; discriminate.
Qed.

Lemma size_t_sub_exact a b : (0 <= b <= a)%Z -> (a < 2 ^ 64)%Z -> size_t_sub a b = (a - b)%Z.
Proof. intros. unfold size_t_sub. apply Z.mod_small. lia. Qed.

Section parser_lemmas.
Context (fs : text -> option text).

(** [get_title] never throws: the [substr] starts inside the file. *)
Lemma get_title_total p t : exists r, get_title fs p t = Some r.
Proof.
  unfold get_title. case_bool_decide; [by eexists|].
  destruct (str_find _ (txt "<title>")) as [b|] eqn:Hb; [|by eexists].
  destruct (str_find _ (txt "</title>")) as [e|] eqn:He; [|by eexists].
  case_bool_decide; [by eexists|].
  apply str_find_Some in Hb as (_ & Hl & _). simpl in Hl.
  rewrite substr_in_range; [by eexists|].
  change (length (txt "<title>")) with 7. lia.
Qed.

Lemma parse_one_Some p :
  length html_src_path <= length p ->
  exists it, parse_one fs p = Some it
             /\ fc_content it = strip_tags (get_file_all fs p)
             /\ fc_url it = url_head ++ drop (length html_src_path) p.
Proof.
  intros Hl. destruct (get_title_total p []) as [[bt t] Ht].
  unfold parse_one, get_content, get_url. rewrite Ht, substr_from_in_range by done.
  rewrite (proj1 (foldl_content_step _ [])).
  case_bool_decide as He; (eexists; split; [reflexivity|]); cbn [fc_content fc_url];
    split; try done.
  by rewrite He.
Qed.
End parser_lemmas.

(** ** Properties of the parser *)

Section claims.
Context (fs : text -> option text).

(** C24. Text extraction: the two-state machine of [get_content] computes
    the declarative [strip_tags] of the file (the text after each tag's
    ['>'] up to the next ['<'], line breaks as spaces); an empty or
    unreadable file returns [false] with the content unchanged. *)
Theorem get_content_strip_tags p c :
  get_content fs p c
  = if bool_decide (get_file_all fs p = []) then Some (false, c)
    else Some (true, strip_tags (get_file_all fs p)).
Proof.
  unfold get_content. case_bool_decide; [done|]. by rewrite (proj1 (foldl_content_step _ [])).
Qed.

(** Invariant of the machine: the extracted text contains neither a
    ['<'] nor a line break, whatever the page. *)
Theorem get_content_clean p c t : get_content fs p c = Some (true, t) -> clean t.
Proof.
  unfold get_content. case_bool_decide; [done|]. intros [= <-].
  apply foldl_content_step_clean. split; apply not_elem_of_nil.
Qed.

(** C26. Title extraction: when the file has ["<title>"] at [b] and its
    first ["</title>"] at [e > b], the title is the text strictly between
    them; the [size_t] subtraction [end - begin - sz] does not wrap. *)
Theorem get_title_between p t b e :
  let fa := get_file_all fs p in
  fa <> [] -> (Z.of_nat (length fa) < 2 ^ 64)%Z ->
  str_find fa (txt "<title>") = Some b -> str_find fa (txt "</title>") = Some e -> b < e ->
  get_title fs p t = Some (true, slice fa (b + 7) e).
Proof.
  intros fa Hne Hsz Hb He Hlt. unfold get_title. fold fa. cbv zeta.
  change (length (txt "<title>")) with 7.
  rewrite bool_decide_eq_false_2 by done. rewrite Hb, He, bool_decide_eq_false_2 by lia.
  apply str_find_Some in Hb as (Hpb & Hlb & _). apply str_find_Some in He as (Hpe & Hle & _).
  pose proof (title_tags_apart fa b e Hpb Hpe Hlt). simpl in Hlb, Hle.
  rewrite (size_t_sub_exact (Z.of_nat e)), size_t_sub_exact by lia.
  rewrite substr_in_range by (simpl; lia). unfold slice. simpl.
  do 3 f_equal. lia.
Qed.

(** C27. One record per file: when every path has the ["data/input"]
    prefix length, [parse_html] appends one record per path, in order,
    whose content is [strip_tags] of the file and whose URL is the Boost
    prefix followed by the path after ["data/input"]; no record is
    dropped when a title or a content cannot be extracted. *)
Theorem parse_html_records htmls fcs :
  htmls <> [] -> Forall (fun p => length html_src_path <= length p) htmls ->
  exists items, parse_html fs htmls fcs = Some (true, fcs ++ items)
    /\ Forall2 (fun p it => fc_content it = strip_tags (get_file_all fs p)
                            /\ fc_url it = url_head ++ drop (length html_src_path) p) htmls items.
Proof.
  intros Hne Hall. unfold parse_html. rewrite bool_decide_eq_false_2 by done.
  assert (exists items, mapM (parse_one fs) htmls = Some items
    /\ Forall2 (fun p it => fc_content it = strip_tags (get_file_all fs p)
                            /\ fc_url it = url_head ++ drop (length html_src_path) p) htmls items)
    as (items & Hm & Hf).
  { clear Hne. induction Hall as [|p ps Hp _ IH]; [by exists []|].
    destruct IH as (items & Hm & Hf). destruct (parse_one_Some fs p Hp) as (it & Hit & Hc & Hu).
    exists (it :: items). simpl. rewrite Hit, Hm. split; [done|]. by constructor. }
  rewrite Hm. by exists items.
Qed.

(** C28. [get_file_all] reads the file line by line and concatenates the
    lines without their ['\n']: the text it returns is the file with every
    line break removed, so the ['\n'] to [' '] branch of [get_content]
    never fires and the last word of a line is glued to the first word of
    the next. *)
Theorem get_file_all_drops_newlines p contents :
  fs p = Some contents ->
  get_file_all fs p = filter (fun c => c <> newline) contents.
Proof. intros Hp. unfold get_file_all. rewrite Hp. apply mjoin_getlines. Qed.
End claims.

Definition demo_path : text := txt "data/input/a.html".

(** On a page whose text runs over two lines, ["Hello"] and
    ["World"] come out as one word ["HelloWorld"] (and the title's text is
    joined to the body's). *)
Example get_content_glues_lines :
  get_content demo_fs demo_path [] = Some (true, txt "Boost IntroHelloWorld").
Proof. vm_compute. reflexivity. Qed.

(** ** Witnesses *)

Lemma get_content_clean_witness :
  get_content demo_fs demo_path [] = Some (true, txt "Boost IntroHelloWorld")
  /\ clean (txt "Boost IntroHelloWorld").
Proof.
  assert (H : get_content demo_fs demo_path [] = Some (true, txt "Boost IntroHelloWorld"))
    by (vm_compute; reflexivity).
  split; [exact H | exact (get_content_clean demo_fs demo_path [] _ H)].
Defined.

Lemma get_title_between_witness :
  get_title demo_fs demo_path [] = Some (true, slice (get_file_all demo_fs demo_path) 19 30).
Proof.
  apply (get_title_between demo_fs demo_path [] 12 30);
    [vm_compute; discriminate | vm_compute; reflexivity | vm_compute; reflexivity
    | vm_compute; reflexivity | lia].
Defined.

Lemma parse_html_records_witness :
  exists items, parse_html demo_fs [demo_path] [] = Some (true, [] ++ items)
    /\ Forall2 (fun p it => fc_content it = strip_tags (get_file_all demo_fs p)
                            /\ fc_url it = url_head ++ drop (length html_src_path) p)
               [demo_path] items.
Proof.
  apply parse_html_records; [discriminate | constructor; [vm_compute; lia | constructor]].
Defined.

Lemma get_file_all_drops_newlines_witness :
  get_file_all demo_fs demo_path = filter (fun c => c <> newline) demo_page.
Proof. apply get_file_all_drops_newlines. vm_compute. reflexivity. Defined.
