(* ===== verification/Pipeline.v ===== *)
(** * The pipeline: corpus file, [Searcher::init_search] and the [/s] route

    How the components meet.  The parser writes the corpus with
    [save_file] ([src/parser.cc]); the server ([src/http_server.cc])
    builds the index from it once at start-up through
    [Searcher::init_search] ([src/searcher.hpp]), which takes the [Index]
    singleton of [Index::get_instance] ([src/index.hpp]) and fills it with
    [create_index]; the [/s] route answers each query with
    [Searcher::search].  [corpus_docs] is the reading of the corpus the
    spec's CorpusReader describes: the documents the well-formed lines
    give, numbered from a start id. *)

From S2P Require Import Prelude CppString Tokenizer Index Searcher Json Parser.

(** ** The [Index] singleton and [Searcher::init_search] *)

(** [Index::get_instance]: the object created by the first call (with
    empty indexes), the same object afterwards.  The global [instance] is
    the state. *)
Definition index_get_instance (instance : option Index) : Index :=
  match instance with
  | Some idx => idx
  | None => empty_index
  end.

Section init.
Context `{seg : Segmenter} (j : JiebaUtil).

(** [Searcher::init_search(input)]: the singleton, then [create_index] on
    it; the [bool] [create_index] returns is dropped.  The result is the
    singleton after the call. *)
Definition init_search (instance : option Index) (input : option text) : Index :=
  snd (create_index j input (index_get_instance instance)).
End init.

(** ** The [/s] route of [http_server.cc] *)

(** The query parameters of the request ([httplib::Params], a multimap:
    equal keys keep their order). *)
Definition params := list (text * text).

(** [req.has_param(key)] and [req.get_param_value(key)] together: the
    first value of [key], if any. *)
Definition get_param_value (ps : params) (key : text) : option text :=
  (fun ikv => ikv.2.2) <$> list_find (fun kv => kv.1 = key) ps.

(** The response the handler sets: plain text, or the JSON text
    [search] leaves in [json_string] ([Json.v]); [ServerError] is an
    exception escaping [search], which httplib turns into a 500. *)
Inductive response :=
  | PlainText (body : text)
  | JsonText (body : text)
  | ServerError.

Definition query_required : text := txt "param query is required".

Section route.
Context `{seg : Segmenter} (j : JiebaUtil).

(** [searcher.search(query, json_string)] then
    [res.set_content(json_string, ...)]. *)
Definition respond (r : option (list SearchResult)) : response :=
  match r with
  | Some rs => match json_response rs with Some out => JsonText out | None => ServerError end
  | None => ServerError
  end.

(** The handler, with the nondeterministic order of [Searcher::search]. *)
Definition handle_s_code (idx : Index) (ps : params) (resp : response) : Prop :=
  match get_param_value ps (txt "query") with
  | None => resp = PlainText query_required
  | Some query => exists r, search_code j idx query r /\ resp = respond r
  end.

(** The handler with the spec's tie-break. *)
Definition handle_s (idx : Index) (ps : params) : response :=
  match get_param_value ps (txt "query") with
  | None => PlainText query_required
  | Some query => respond (search j idx query)
  end.
End route.

(** ** Specification of the corpus *)

(** The line [save_file] writes for a record, without its ['\n']. *)
Definition corpus_line (item : file_content) : text :=
  fc_title item ++ [SEP] ++ fc_content item ++ [SEP] ++ fc_url item.

(** The document a record becomes under id [i]. *)
Definition to_doc (item : file_content) (i : nat) : Doc :=
  mkDoc (fc_title item) (fc_content item) (fc_url item) i.

(** A record the corpus carries intact: no separator and no line break in
    its fields, and a non-empty body. *)
Definition record_ok (item : file_content) : Prop :=
  (SEP ∉ fc_title item) /\ (SEP ∉ fc_content item) /\ (SEP ∉ fc_url item)
  /\ (newline ∉ fc_title item) /\ (newline ∉ fc_content item) /\ (newline ∉ fc_url item)
  /\ fc_content item <> [].

#[export] Instance record_ok_dec item : Decision (record_ok item).
Proof. unfold record_ok. apply _. Defined.

(** The documents the lines give, numbered from [n]. *)
Fixpoint corpus_docs (n : nat) (lines : list text) : list Doc :=
  match lines with
  | [] => []
  | l :: ls =>
      match split_string l [SEP] with
      | [t; c; u] => mkDoc t c u n :: corpus_docs (S n) ls
      | _ => corpus_docs n ls
      end
  end.

(** The same documents under ids shifted by [k]. *)
Definition shift_doc (k : nat) (d : Doc) : Doc :=
  mkDoc (title_ d) (content_ d) (url_ d) (k + id_ d).

(** Records and a stop-word table for the witnesses. *)
Definition demo_item : file_content :=
  mkFileContent (txt "Boost Intro") (txt "Hello World") (txt "https://b/a.html").

Definition stop_jieba : JiebaUtil := InitJiebaUtil (Some (txt "the" ++ [newline])).

Definition stop_index : Index :=
  snd (create_index (seg := space_segmenter) stop_jieba
         (Some (txt "The book" ++ [SEP] ++ txt "the end" ++ [SEP] ++ txt "u" ++ [newline]))
         empty_index).

(** ** Lemmas on reading the corpus *)

Section corpus.
Context `{seg : Segmenter} (j : JiebaUtil).

Lemma forward_index_line idx l :
  forward_index (index_line j idx l)
  = forward_index idx ++ match split_string l [SEP] with
                         | [t; c; u] => [mkDoc t c u (length (forward_index idx))]
                         | _ => []
                         end.
Proof.
  unfold index_line, create_forward_index.
  case_arity (split_string l [SEP]); rewrite ?app_nil_r; try done.
  cbn [forward_index]. by rewrite last_snoc.
Qed.

(** The [getline] loop of [create_index] appends [corpus_docs] to the
    forward index. *)
Lemma forward_index_foldl idx lines :
  forward_index (foldl (index_line j) idx lines)
  = forward_index idx ++ corpus_docs (length (forward_index idx)) lines.
Proof.
  revert idx. induction lines as [|l ls IH]; intros idx; simpl; [by rewrite app_nil_r|].
  rewrite IH, forward_index_line.
  case_arity (split_string l [SEP]); rewrite ?app_nil_r; try done.
  rewrite length_app, <- app_assoc. simpl. by rewrite Nat.add_1_r.
Qed.
End corpus.

Lemma corpus_docs_shift k n lines :
  corpus_docs (k + n) lines = shift_doc k <$> corpus_docs n lines.
Proof.
  revert n. induction lines as [|l ls IH]; intros n; [done|]. simpl.
  case_arity (split_string l [SEP]); try apply IH.
  simpl. rewrite <- IH. by rewrite Nat.add_succ_r.
Qed.

Lemma record_line_corpus_line it : record_line it = corpus_line it ++ [newline].
Proof. unfold record_line, corpus_line. by rewrite <- !app_assoc. Qed.

Lemma SEP_ne_newline : SEP <> newline.
Proof. done. Qed.

Lemma newline_not_in_corpus_line it :
  newline ∉ fc_title it -> newline ∉ fc_content it -> newline ∉ fc_url it ->
  newline ∉ corpus_line it.
Proof.
  intros. unfold corpus_line. rewrite !elem_of_app, !list_elem_of_singleton.
  intros [|[|[|[|]]]]; done.
Qed.

(** What [save_file] appends is read back line by line. *)
Lemma getlines_records fcs :
  Forall record_ok fcs -> getlines (mjoin (record_line <$> fcs)) = corpus_line <$> fcs.
Proof.
  intros Hok.
  assert (Heq : record_line <$> fcs = (fun l => l ++ [newline]) <$> (corpus_line <$> fcs)).
  { rewrite <- list_fmap_compose. apply list_fmap_ext. intros i x _. apply record_line_corpus_line. }
  rewrite Heq. apply getlines_unlines.
  apply Forall_fmap. eapply Forall_impl; [exact Hok|].
  intros it (_ & _ & _ & ? & ? & ? & _). by apply newline_not_in_corpus_line.
Qed.

Lemma corpus_docs_records n fcs :
  Forall record_ok fcs ->
  corpus_docs n (corpus_line <$> fcs) = zip_with to_doc fcs (seq n (length fcs)).
Proof.
  intros Hok. revert n. induction Hok as [|it fcs (Ht & Hc & Hu & _ & _ & _ & Hne) _ IH];
    intros n; [done|].
  simpl. unfold corpus_line at 1. rewrite split_string_three by done.
  rewrite bool_decide_eq_false_2 by done. by rewrite IH.
Qed.

Lemma corpus_docs_app n l1 l2 :
  corpus_docs n (l1 ++ l2) = corpus_docs n l1 ++ corpus_docs (n + length (corpus_docs n l1)) l2.
Proof.
  revert n. induction l1 as [|l ls IH]; intros n; simpl; [by rewrite Nat.add_0_r|].
  case_arity (split_string l [SEP]); try apply IH.
  simpl. rewrite IH. by rewrite Nat.add_succ_r.
Qed.

Lemma length_zip_with_to_doc fcs n : length (zip_with to_doc fcs (seq n (length fcs))) = length fcs.
Proof. rewrite length_zip_with, length_seq. lia. Qed.

Section pipeline_lemmas.
Context `{seg : Segmenter} (j : JiebaUtil).

Lemma init_search_fresh input :
  init_search j None input = snd (create_index j input empty_index).
Proof. done. Qed.

Lemma forward_index_init_search_fresh lines :
  forward_index (init_search j None (Some (mjoin lines)))
  = corpus_docs 0 (getlines (mjoin lines)).
Proof. unfold init_search, create_index. simpl. by rewrite forward_index_foldl. Qed.

(** On an empty score table every order the code may pick is empty. *)
Lemma search_code_no_scores idx query res :
  accumulate idx (query_words j query) = ∅ ->
  search_code j idx query res <-> res = Some [].
Proof.
  intros He. split.
  - intros (ranked & [Hp _] & ->). rewrite He, map_to_list_empty in Hp.
    by apply Permutation_nil_r in Hp as ->.
  - intros ->. exists []. unfold code_ranking. rewrite He, map_to_list_empty. split; [|done].
    split; [done | constructor].
Qed.

Lemma accumulate_empty_index ws : accumulate empty_index ws = ∅.
Proof. apply accumulate_empty. intros w _. apply lookup_empty. Qed.

(** Every order the code may pick on a well-formed index gives results. *)
Lemma search_code_wf_Some idx query res :
  index_wf j idx -> search_code j idx query res -> exists rs, res = Some rs.
Proof.
  intros Hwf (ranked & [Hp _] & ->).
  destruct (build_results_total idx ranked) as (rs & Hrs & _); [|by exists rs].
  apply Forall_forall. intros e He. apply (wf_accumulate_doc j idx (query_words j query));
    [done | by rewrite <- Hp].
Qed.
End pipeline_lemmas.

(** ** Properties of the pipeline *)

Section claims.
Context `{seg : Segmenter} (j : JiebaUtil).

(** C30. Round trip through the corpus file: records whose fields hold
    no ['\3'] and no line break and whose body is not empty, written by
    [save_file] into an empty corpus and loaded by [init_search], become
    the forward index, in order, record [i] as document [i]. *)
Theorem corpus_roundtrip fcs raw :
  Forall record_ok fcs -> save_file fcs (Some []) = (true, Some raw) ->
  forward_index (init_search j None (Some raw)) = zip_with to_doc fcs (seq 0 (length fcs)).
Proof.
  intros Hok [= <-]. rewrite forward_index_init_search_fresh.
  by rewrite getlines_records, corpus_docs_records.
Qed.

(** C31. A record whose body is empty (a page with no text outside its
    tags) is written as [title\3\3url]; [token_compress_on] merges the two
    separators, the line splits into two fields and is dropped: no
    document is created for that page. *)
Theorem empty_body_dropped idx it :
  SEP ∉ fc_title it -> SEP ∉ fc_url it -> fc_content it = [] ->
  index_line j idx (corpus_line it) = idx.
Proof.
  intros Ht Hu Hc. apply index_line_malformed. unfold well_formed_line, corpus_line.
  rewrite Hc, split_string_three by (try apply not_elem_of_nil; done). done.
Qed.

(** C32. [save_file] opens the corpus with [std::ios::app]: running the
    parser a second time appends the records again, and the index built
    from the corpus holds every page twice, the copies under the ids
    [N .. 2N-1]. *)
Theorem parser_rerun_duplicates fcs :
  Forall record_ok fcs ->
  let docs := zip_with to_doc fcs (seq 0 (length fcs)) in
  forward_index (init_search j None (snd (save_file fcs (snd (save_file fcs (Some []))))))
  = docs ++ (shift_doc (length fcs) <$> docs).
Proof.
  intros Hok docs. cbn [save_file snd]. rewrite app_nil_l, <- join_app, <- fmap_app.
  rewrite forward_index_init_search_fresh, getlines_records by (by apply Forall_app).
  rewrite fmap_app, corpus_docs_app, (corpus_docs_records 0) by done.
  rewrite length_zip_with_to_doc. replace (0 + length fcs) with (length fcs + 0) by lia.
  by rewrite corpus_docs_shift, corpus_docs_records.
Qed.

(** [Index::get_instance] returns the object already built, and
    [create_index] appends to it: calling [init_search] a second time
    with the same corpus duplicates every document under new ids. *)
Theorem init_search_twice input :
  let idx1 := init_search j None input in
  forward_index (init_search j (Some idx1) input)
  = forward_index idx1 ++ (shift_doc (length (forward_index idx1)) <$> forward_index idx1).
Proof.
  intros idx1. subst idx1. destruct input as [c|]; [|done].
  unfold init_search, create_index. cbn [index_get_instance snd].
  rewrite !forward_index_foldl. cbn [forward_index empty_index length app].
  by rewrite <- (corpus_docs_shift _ 0), Nat.add_0_r.
Qed.

(** C34. [init_search] ignores the result of [create_index]: when the
    corpus cannot be opened the server starts on the empty index and
    answers every query with the body [null] (the [Json::Value] that
    nothing was appended to, not even an empty array), where the spec
    makes an unreadable source fatal and asks for an empty array. *)
Theorem init_search_unreadable ps query :
  get_param_value ps (txt "query") = Some query ->
  init_search j None None = empty_index
  /\ handle_s j (init_search j None None) ps = JsonText (txt "null" ++ [newline])
  /\ forall resp, handle_s_code j (init_search j None None) ps resp
                  <-> resp = JsonText (txt "null" ++ [newline]).
Proof.
  intros Hq. split_and!; [done| |].
  - unfold handle_s, search. rewrite Hq. cbn [init_search create_index snd index_get_instance].
    by rewrite accumulate_empty_index.
  - intros resp. unfold handle_s_code. rewrite Hq. split.
    + intros (r & Hr & ->). apply search_code_no_scores in Hr as ->; [done|].
      apply accumulate_empty_index.
    + intros ->. exists (Some []). split; [|done].
      apply search_code_no_scores; [apply accumulate_empty_index | done].
Qed.

(** C35. The [/s] route of a server started on a corpus never answers
    with an error: whatever order [Searcher::search] picks, the response
    is the JSON array, or the plain-text message when the request has no
    [query] parameter (which never reaches the searcher). *)
Theorem handle_s_no_server_error input ps resp :
  handle_s_code j (init_search j None input) ps resp ->
  resp <> ServerError
  /\ (get_param_value ps (txt "query") = None -> resp = PlainText query_required).
Proof.
  unfold handle_s_code. destruct (get_param_value ps (txt "query")) as [query|]; [|by intros ->].
  intros (r & Hr & ->). split; [|done].
  destruct (search_code_wf_Some j (init_search j None input) query r) as [rs ->];
    [apply create_index_wf | done |].
  destruct (json_response_total rs) as [out Hout]. unfold respond. by rewrite Hout.
Qed.

(** The route with the spec's tie-break gives one of the responses the
    code may give. *)
Theorem handle_s_refines idx ps : handle_s_code j idx ps (handle_s j idx ps).
Proof.
  unfold handle_s_code, handle_s. destruct (get_param_value ps (txt "query")); [|done].
  eexists; split; [|done]. eexists; split; [apply rank_code_ranking | done].
Qed.

(** Response round trip: whatever order [Searcher::search] picks,
    the body the route sends is the JSON text of that order's results,
    and a JSON reader gets exactly those results back, in that order,
    when their texts are well-formed UTF-8. *)
Theorem handle_s_roundtrip idx ps query resp :
  get_param_value ps (txt "query") = Some query -> handle_s_code j idx ps resp ->
  exists r, search_code j idx query r
            /\ forall rs, r = Some rs -> Forall result_utf8 rs ->
                 exists out, resp = JsonText out /\ read_results out = Some rs.
Proof.
  intros Hq. unfold handle_s_code. rewrite Hq. intros (r & Hr & ->).
  exists r. split; [done|]. intros rs -> Hok.
  destruct (json_response_read rs Hok) as (out & Hout & Hread).
  exists out. unfold respond. by rewrite Hout.
Qed.
End claims.

(** Stop words are erased before case folding: with ["the"] in the
    stop-word file, the title word ["The"] passes the filter, is folded
    to ["the"] and indexed, so the stop word gets a posting (the body's
    ["the"] is erased). *)
Example stop_word_indexed_by_case :
  txt "the" ∈ stop_words stop_jieba
  /\ get_inverted_index stop_index (txt "the") = Some [mkItem 0 (txt "the") 5].
Proof.
  split; [apply elem_of_list_to_set; vm_compute; left | vm_compute; reflexivity].
Qed.

(** ** Witnesses *)

Lemma corpus_roundtrip_witness :
  forward_index (init_search (seg := space_segmenter) demo_jieba None (Some (record_line demo_item)))
  = [to_doc demo_item 0].
Proof.
  apply (corpus_roundtrip demo_jieba [demo_item]);
    [constructor; [apply (bool_decide_unpack _); vm_compute; reflexivity | constructor]
    | vm_compute; reflexivity].
Defined.

Lemma empty_body_dropped_witness :
  index_line (seg := space_segmenter) demo_jieba empty_index
    (corpus_line (mkFileContent (txt "t") [] (txt "u"))) = empty_index.
Proof. apply empty_body_dropped; [decide_by_vm | decide_by_vm | done]. Defined.

Lemma parser_rerun_duplicates_witness :
  forward_index (init_search (seg := space_segmenter) demo_jieba None
    (snd (save_file [demo_item] (snd (save_file [demo_item] (Some []))))))
  = [to_doc demo_item 0; to_doc demo_item 1].
Proof.
  apply (parser_rerun_duplicates demo_jieba [demo_item]).
  constructor; [decide_by_vm | constructor].
Defined.

Lemma init_search_unreadable_witness :
  handle_s (seg := space_segmenter) demo_jieba (init_search demo_jieba None None)
    [(txt "query", txt "boost")] = JsonText (txt "null" ++ [newline]).
Proof.
  refine (proj1 (proj2 (init_search_unreadable demo_jieba [(txt "query", txt "boost")]
                          (txt "boost") _))).
  reflexivity.
Defined.

Lemma handle_s_no_server_error_witness :
  let idx := init_search (seg := space_segmenter) demo_jieba None (Some (record_line demo_item)) in
  let ps := [(txt "query", txt "Hello")] in
  handle_s_code demo_jieba idx ps (handle_s demo_jieba idx ps)
  /\ handle_s demo_jieba idx ps <> ServerError.
Proof.
  intros idx ps.
  assert (H : handle_s_code demo_jieba idx ps (handle_s demo_jieba idx ps))
    by (unfold handle_s_code, handle_s; vm_compute get_param_value;
        eexists; split; [eexists; split; [apply rank_code_ranking | reflexivity] | reflexivity]).
  split; [exact H | exact (proj1 (handle_s_no_server_error demo_jieba _ ps _ H))].
Defined.

Lemma handle_s_roundtrip_witness :
  let idx := init_search (seg := space_segmenter) demo_jieba None (Some (record_line demo_item)) in
  let ps := [(txt "query", txt "Hello")] in
  exists r, search_code demo_jieba idx (txt "Hello") r
            /\ forall rs, r = Some rs -> Forall result_utf8 rs ->
                 exists out, handle_s demo_jieba idx ps = JsonText out /\ read_results out = Some rs.
Proof.
  intros idx ps.
  assert (H : handle_s_code demo_jieba idx ps (handle_s demo_jieba idx ps))
    by (unfold handle_s_code, handle_s; vm_compute get_param_value;
        eexists; split; [eexists; split; [apply rank_code_ranking | reflexivity] | reflexivity]).
  exact (handle_s_roundtrip demo_jieba idx ps (txt "Hello") _ eq_refl H).
Defined.
