(* ===== verification/Server.v ===== *)
(** * The server process: [main] of [src/http_server.cc] with its log

    [main] calls [able_save()], then [Searcher::init_search], which takes
    the [Index] singleton, logs, runs [Index::create_index] and logs
    again; it registers the [/s] route and logs ["start server"].  Every
    component logs on the way: [create_index] once per corpus line
    (WARNING for a malformed line, DEBUG with the running [++count] for
    an indexed one); each [/s] request with a [query] logs it, then
    [Searcher::search] logs one WARNING per query word that has no
    posting list ([Index::get_inverted_index]) and one per ranked entry
    whose document is missing ([Index::get_forward_index], never on an
    index [create_index] built).

    The first [JiebaUtil::CutString] (at the first indexed line, or at
    the first query when no line was indexed) constructs the tokenizer
    singleton: [JiebaUtil()] builds a [cppjieba::Jieba] with the
    stop-word file, which aborts the process when the file cannot be
    opened, before [InitJiebaUtil] runs.  The abort is [None]: the
    start-up or the request does not complete, and nothing more is
    written.

    The process state [process] is the [Index] singleton, the tokenizer
    singleton and the log ([Log.log_state]).  The build and the requests
    return the [LOG] calls they make, in order, and [Log.run_log] writes
    them: the log is written by nothing else, so this is the order of the
    writes of the code.  [__FILE__] is the name the sources are compiled
    under (["index.hpp"], ["searcher.hpp"], ["http_server.cc"]); one
    clock reading [now] serves every call. *)

From S2P Require Import Prelude CppString Log Tokenizer Index Searcher Json Pipeline.

(** ** The [LOG] calls of the sources *)

Section calls.
Variable now : option tm.

(** [LOG(Level::INFO,"创建单例模式")] of [Searcher::init_search]. *)
Definition log_singleton : log_call :=
  mkCall (txt "searcher.hpp") 52 INFO (txt "创建单例模式") [] now.

(** [LOG(Level::INFO,"创建索引")] of [Searcher::init_search]. *)
Definition log_indexed : log_call :=
  mkCall (txt "searcher.hpp") 54 INFO (txt "创建索引") [] now.

(** [LOG(Level::WARNING,"正排索引创建失败")] of [Index::create_index]. *)
Definition log_forward_failed : log_call :=
  mkCall (txt "index.hpp") 112 WARNING (txt "正排索引创建失败") [] now.

(** [LOG(Level::DEBUG,"建立索引成功%d",++count)] of [Index::create_index]. *)
Definition log_index_ok (count : Z) : log_call :=
  mkCall (txt "index.hpp") 119 DEBUG (txt "建立索引成功%d") [AInt count] now.

(** [LOG(Level::WARNING,"id超出范围")] of [Index::get_forward_index]. *)
Definition log_id_out : log_call :=
  mkCall (txt "index.hpp") 181 WARNING (txt "id超出范围") [] now.

(** [LOG(Level::WARNING,"字词对应的倒排拉链未找到")] of
    [Index::get_inverted_index]. *)
Definition log_no_postings : log_call :=
  mkCall (txt "index.hpp") 192 WARNING (txt "字词对应的倒排拉链未找到") [] now.

(** [LOG(INFO,"start server")] of [main]. *)
Definition log_start : log_call :=
  mkCall (txt "http_server.cc") 27 INFO (txt "start server") [] now.

(** The calls of [Index::get_forward_index(id)]: a WARNING when [id] is
    out of range (the lookup is [Index.get_forward_index]). *)
Definition get_forward_index_log (idx : Index) (id : nat) : list log_call :=
  match get_forward_index idx id with
  | None => [log_id_out]
  | Some _ => []
  end.

(** The calls of [Index::get_inverted_index(word)]: a WARNING when the
    word has no posting list. *)
Definition get_inverted_index_log (idx : Index) (word : text) : list log_call :=
  match get_inverted_index idx word with
  | None => [log_no_postings]
  | Some _ => []
  end.

(** The calls of the first loop of [Searcher::search]:
    [get_inverted_index] on every query word, lowered. *)
Definition words_log (idx : Index) (words : list text) : list log_call :=
  words ≫= fun w => get_inverted_index_log idx (to_lower w).

(** The calls of [Searcher::search]: those of the first loop, then
    [get_forward_index] on every entry of [inverted_all], in the order the
    sort left, in the result loop ([GetDescWithHighlight] never throws:
    [Searcher.v]). *)
Definition search_log (idx : Index) (words : list text) (inverted_all : list InvertedElemPrint)
    : list log_call :=
  words_log idx words ++ (inverted_all ≫= fun e => get_forward_index_log idx (elem_id_ e)).
End calls.

(** ** Start-up and requests *)

Section server.
Context `{seg : Segmenter} (now : option tm) (pid : Z) (stop_file : option text).

(** The [getline] loop of [Index::create_index] with its [LOG] calls:
    [count] is the local [int count], [inst] the tokenizer singleton,
    which [create_inverted_index] takes ([CutString] on the title) for
    every line that [create_forward_index] accepts; [None] when taking
    it aborts the process.  A rejected line leaves the index as it was. *)
Fixpoint index_lines_log (inst : option JiebaUtil) (count : Z) (idx : Index)
    (lines : list text) : option (Index * option JiebaUtil * list log_call) :=
  match lines with
  | [] => Some (idx, inst, [])
  | l :: ls =>
      if (create_forward_index idx l).1 then
        '(j, inst') ← get_instance inst stop_file;
        '(idx', inst'', cs) ← index_lines_log inst' (count + 1) (index_line j idx l) ls;
        Some (idx', inst'', log_index_ok now (count + 1) :: cs)
      else
        '(idx', inst', cs) ← index_lines_log inst count idx ls;
        Some (idx', inst', log_forward_failed now :: cs)
  end.

(** [Index::create_index(input)] with its log. *)
Definition create_index_log (inst : option JiebaUtil) (input : option text) (idx : Index)
    : option (bool * Index * option JiebaUtil * list log_call) :=
  match input with
  | None => Some (false, idx, inst, [])
  | Some contents =>
      '(idx', inst', cs) ← index_lines_log inst 0 idx (getlines contents);
      Some (true, idx', inst', cs)
  end.

(** The state of the server process. *)
Record process := mkProcess {
  p_index : option Index;
  p_jieba : option JiebaUtil;
  p_log : log_state;
}.

(** [main] up to [svr.listen]: [able_save()], [searcher.init_search(input)]
    on the fresh singletons, [LOG(INFO,"start server")]; [log0] is the
    content of ["log.log"] before the process starts ([None]: it cannot
    be opened).  [None]: the process aborted building the index. *)
Definition server_start (input log0 : option text) : option process :=
  '(_, idx, inst, cs) ← create_index_log None input (index_get_instance None);
  s ← run_log pid (log_singleton now :: cs ++ [log_indexed now; log_start now])
                (able_save (mkLogState false log0 []));
  Some (mkProcess (Some idx) inst s).

(** A [/s] request handled by the server ([svr.Get("/s", ...)]): without
    [query], the plain-text answer and nothing else; with one, the query
    is logged, [CutString] takes the tokenizer singleton (the request
    aborts the process when that fails), [search] runs on the index
    singleton with one of the orders [std::sort] may leave
    ([Searcher.code_ranking]) and logs as it goes, and its JSON text is
    the response. *)
Definition handle_request (ps : params) (p : process) (resp : response) (p' : process) : Prop :=
  let idx := index_get_instance (p_index p) in
  match get_param_value ps (txt "query") with
  | None => resp = PlainText query_required /\ p' = p
  | Some q =>
      exists j inst' inverted_all s',
        get_instance (p_jieba p) stop_file = Some (j, inst') /\
        code_ranking (accumulate idx (query_words j q)) inverted_all /\
        resp = respond (build_results idx inverted_all) /\
        run_log pid (query_call now q :: search_log now idx (query_words j q) inverted_all) (p_log p)
          = Some s' /\
        p' = mkProcess (p_index p) inst' s'
  end.

(** The [LOG] calls of a [/s] request, with the tokenizer singleton after
    it ([None]: the request aborts the process); the entries are taken in
    the order [Searcher.rank] gives, which logs the same calls as any
    order [std::sort] may leave ([handle_request_spec]). *)
Definition request_log (inst : option JiebaUtil) (idx : Index) (ps : params)
    : option (list log_call * option JiebaUtil) :=
  match get_param_value ps (txt "query") with
  | None => Some ([], inst)
  | Some q =>
      '(j, inst') ← get_instance inst stop_file;
      let ws := query_words j q in
      Some (query_call now q :: search_log now idx ws (rank (accumulate idx ws)), inst')
  end.

(** The tokenizer singleton is unset, or holds the table of the stop-word
    file. *)
Definition jieba_ok (inst : option JiebaUtil) : Prop :=
  inst = None \/ inst = Some (InitJiebaUtil stop_file).

(** The calls of the build loop when it completes: one DEBUG call per
    accepted line, numbered, and one WARNING call per rejected line. *)
Fixpoint build_log (count : Z) (lines : list text) : list log_call :=
  match lines with
  | [] => []
  | l :: ls =>
      if bool_decide (well_formed_line l) then log_index_ok now (count + 1) :: build_log (count + 1) ls
      else log_forward_failed now :: build_log count ls
  end.
End server.

(** ** Lemmas *)

Section lemmas.
Context `{seg : Segmenter} (now : option tm) (pid : Z) (stop_file : option text).

Lemma create_forward_index_accepts idx l :
  (create_forward_index idx l).1 = bool_decide (well_formed_line l).
Proof.
  destruct (decide (well_formed_line l)) as [H|H];
    [rewrite bool_decide_eq_true_2 | rewrite bool_decide_eq_false_2]; try done;
    unfold well_formed_line, create_forward_index in *; case_arity (split_string l [SEP]); done.
Qed.

(** Taking the tokenizer singleton completes when it is set or the
    stop-word file opens, and gives the table of the stop-word file. *)
Lemma get_instance_ok inst :
  jieba_ok stop_file inst -> inst ≠ None \/ is_Some stop_file ->
  get_instance inst stop_file = Some (InitJiebaUtil stop_file, Some (InitJiebaUtil stop_file)).
Proof. intros [-> | ->] H; [|done]. destruct H as [H | [f ->]]; done. Qed.

Lemma get_instance_Some inst j inst' :
  jieba_ok stop_file inst -> get_instance inst stop_file = Some (j, inst') ->
  j = InitJiebaUtil stop_file /\ inst' = Some (InitJiebaUtil stop_file).
Proof. intros [-> | ->]; [destruct stop_file|]; cbn; intros; by simplify_eq. Qed.

(** The logged build, when it completes: the index [create_index]
    builds, the tokenizer singleton set by the first accepted line, the
    calls [build_log]. *)
Lemma index_lines_log_Some inst count idx lines :
  jieba_ok stop_file inst -> inst ≠ None \/ is_Some stop_file \/ ¬ Exists well_formed_line lines ->
  index_lines_log now stop_file inst count idx lines
  = Some (foldl (index_line (InitJiebaUtil stop_file)) idx lines,
          if bool_decide (Exists well_formed_line lines) then Some (InitJiebaUtil stop_file) else inst,
          build_log now count lines).
Proof.
  revert inst count idx. induction lines as [|l ls IH]; intros inst count idx Hi Hs; [done|].
  cbn [index_lines_log build_log foldl]. rewrite create_forward_index_accepts.
  destruct (decide (well_formed_line l)) as [Hl|Hl].
  - rewrite !bool_decide_eq_true_2 by (try constructor; done).
    assert (Hs' : inst ≠ None \/ is_Some stop_file)
      by (destruct Hs as [?|[?|Hn]]; [by left|by right|by destruct Hn; constructor]).
    rewrite get_instance_ok by done.
    unfold mbind, option_bind. rewrite IH by ((by right) || (left; discriminate)).
    by destruct (bool_decide _).
  - rewrite !bool_decide_eq_false_2 by done. rewrite IH; [|done|by rewrite Exists_cons in Hs; naive_solver].
    rewrite (index_line_malformed (InitJiebaUtil stop_file)) by done. unfold mbind, option_bind.
    by rewrite (bool_decide_ext (Exists well_formed_line (l :: ls)) (Exists well_formed_line ls))
      by (rewrite Exists_cons; tauto).
Qed.

(** The build aborts at the first accepted line when the tokenizer
    singleton is unset and the stop-word file does not open. *)
Lemma index_lines_log_None count idx lines :
  stop_file = None -> Exists well_formed_line lines ->
  index_lines_log now stop_file None count idx lines = None.
Proof.
  intros Hsf Hex. revert count idx. induction Hex as [l ls Hl|l ls _ IH]; intros count idx;
    cbn [index_lines_log]; rewrite create_forward_index_accepts.
  - by rewrite bool_decide_eq_true_2, Hsf.
  - case_bool_decide; [by rewrite Hsf|]. by rewrite IH.
Qed.

Lemma build_log_levels count lines :
  (fun c => get_level (lc_level c)) <$> build_log now count lines
  = (fun l => if bool_decide (well_formed_line l) then txt "debug" else txt "warning") <$> lines.
Proof.
  revert count. induction lines as [|l ls IH]; intros count; [done|].
  cbn [build_log]. rewrite fmap_cons. cbv beta. case_bool_decide; rewrite fmap_cons, IH; done.
Qed.

Lemma call_fine_startup :
  Forall (call_fine pid) [log_singleton now; log_indexed now; log_start now].
Proof. repeat (constructor; [call_fine_const|]). constructor. Qed.

Lemma build_log_fine count lines : Forall (call_fine pid) (build_log now count lines).
Proof.
  revert count. induction lines as [|l ls IH]; intros count; [constructor|].
  cbn [build_log]. case_bool_decide; (constructor; [call_fine_const | apply IH]).
Qed.

(** Start-up, on a readable corpus (C33). *)
Lemma server_start_spec contents old :
  (server_start now pid stop_file (Some contents) (Some old) = None <->
     stop_file = None /\ Exists well_formed_line (getlines contents)) /\
  forall p, server_start now pid stop_file (Some contents) (Some old) = Some p ->
  exists new recs,
    p_index p = Some (init_search (InitJiebaUtil stop_file) None (Some contents)) /\
    p_jieba p = (if bool_decide (Exists well_formed_line (getlines contents))
                 then Some (InitJiebaUtil stop_file) else None) /\
    p_log p = mkLogState true (Some (old ++ new)) [] /\
    mapM parse_log_line (getlines new) = Some recs /\
    r_level <$> recs
      = txt "info" :: ((fun l => if bool_decide (well_formed_line l) then txt "debug" else txt "warning")
                         <$> getlines contents) ++ [txt "info"; txt "info"].
Proof.
  unfold server_start, create_index_log. cbn [index_get_instance].
  set (lines := getlines contents).
  destruct (decide (stop_file = None /\ Exists well_formed_line lines)) as [[Hsf Hex]|Hc].
  - rewrite index_lines_log_None by done. split; [done|]. by intros p.
  - assert (Hs : @None JiebaUtil ≠ None \/ is_Some stop_file \/ ¬ Exists well_formed_line lines).
    { destruct stop_file; [right; left; by eexists | right; right; tauto]. }
    rewrite (index_lines_log_Some None) by (done || by left).
    unfold mbind, option_bind.
    set (allcs := log_singleton now :: build_log now 0 lines ++ [log_indexed now; log_start now]).
    assert (Hall : Forall (call_fine pid) allcs).
    { pose proof call_fine_startup as Hst. apply Forall_cons in Hst as [Hs1 Hs2].
      constructor; [done|]. apply Forall_app. split; [apply build_log_fine | done]. }
    destruct (call_fine_split pid allcs Hall) as [Hok [recs Hrecs]].
    destruct (run_log_lines pid allcs old [] recs Hok Hrecs) as (ls & Hnl & Hp & Hrun).
    change (able_save (mkLogState false (Some old) [])) with (mkLogState true (Some old) []).
    rewrite Hrun. unfold mbind, option_bind. split; [naive_solver|]. intros p [= <-].
    eexists _, recs. split_and!; [done | done | reflexivity | by rewrite getlines_unlines |].
    rewrite (records_levels pid allcs recs Hrecs). unfold allcs.
    rewrite fmap_cons, fmap_app, build_log_levels. done.
Qed.

(** A corpus with no accepted line leaves the index as it was. *)
Lemma foldl_index_line_malformed j idx lines :
  ¬ Exists well_formed_line lines -> foldl (index_line j) idx lines = idx.
Proof.
  revert idx. induction lines as [|l ls IH]; intros idx Hn; [done|]. rewrite Exists_cons in Hn.
  cbn [foldl]. rewrite (index_line_malformed j) by tauto. apply IH. tauto.
Qed.

(** What [main] leaves before [svr.listen]: an index [create_index]
    built, and the tokenizer singleton complete, or never created and
    then the index empty. *)
Lemma server_start_state input log0 p :
  server_start now pid stop_file input log0 = Some p ->
  index_wf (InitJiebaUtil stop_file) (index_get_instance (p_index p)) /\
  (p_jieba p = Some (InitJiebaUtil stop_file)
   \/ (p_jieba p = None /\ index_get_instance (p_index p) = empty_index)).
Proof.
  unfold server_start, create_index_log. cbn [index_get_instance]. intros Hp.
  destruct input as [contents|].
  - set (lines := getlines contents) in Hp.
    destruct (decide (stop_file = None /\ Exists well_formed_line lines)) as [[Hsf Hex]|Hc].
    { by rewrite index_lines_log_None in Hp. }
    assert (Hs : @None JiebaUtil ≠ None \/ is_Some stop_file \/ ¬ Exists well_formed_line lines).
    { destruct stop_file; [right; left; by eexists | right; right; tauto]. }
    rewrite (index_lines_log_Some None) in Hp by (done || by left). bind_red in Hp.
    destruct (run_log _ _ _); [|done]. bind_red in Hp. injection Hp as <-. cbn [p_index p_jieba index_get_instance].
    split; [apply foldl_index_line_wf, index_wf_empty|].
    case_bool_decide; [by left|]. right. split; [done|]. by apply foldl_index_line_malformed.
  - bind_red in Hp. destruct (run_log _ _ _); [|done]. bind_red in Hp. injection Hp as <-.
    split; [apply index_wf_empty | by right].
Qed.

(** Every [get_forward_index] of a search on a well-formed index finds
    its document: the second loop of [search] logs nothing. *)
Lemma search_log_wf j0 idx ws inverted_all :
  index_wf j0 idx -> inverted_all ≡ₚ (map_to_list (accumulate idx ws)).*2 ->
  search_log now idx ws inverted_all = words_log now idx ws.
Proof.
  intros Hwf Hp. unfold search_log.
  rewrite (bind_nil_forall (fun e => get_forward_index_log now idx (elem_id_ e)) inverted_all), app_nil_r; [done|].
  intros e He. rewrite Hp in He. unfold get_forward_index_log.
  by destruct (wf_accumulate_doc j0 idx ws e Hwf He) as [d ->].
Qed.

(** The calls of a search do not depend on the order [std::sort] leaves. *)
Lemma search_log_perm idx ws l1 l2 :
  l1 ≡ₚ l2 -> search_log now idx ws l1 = search_log now idx ws l2.
Proof.
  intros Hp. unfold search_log. f_equal. apply (bind_perm_const _ (log_id_out now)); [|done].
  intros e. unfold get_forward_index_log. destruct (get_forward_index _ _); auto.
Qed.

Lemma search_log_fine idx ws inverted_all : Forall (call_fine pid) (search_log now idx ws inverted_all).
Proof.
  unfold search_log, words_log. apply Forall_app. split; apply Forall_bind, Forall_forall; intros x _;
    unfold compose, get_inverted_index_log, get_forward_index_log; case_match;
    (constructor; [call_fine_const | constructor]) || constructor.
Qed.

(** The record of the query of a request. *)
Lemma query_call_record q :
  call_record pid (query_call now q)
  = Some (mkRecord (get_time now) (txt "info") (to_string pid) (txt "http_server.cc") (txt "22")
                   (take 1023 (txt "query:" ++ c_str q))).
Proof.
  unfold call_record. rewrite (vsnprintf_take _ _ (txt "query:" ++ c_str q)); [done|].
  simpl. by rewrite app_nil_r.
Qed.

(** A request handled by the server answers as the route does, keeps
    the index, leaves the tokenizer singleton set and writes the calls
    [request_log] gives. *)
Lemma handle_request_spec ps p resp p' :
  jieba_ok stop_file (p_jieba p) -> handle_request now pid stop_file ps p resp p' ->
  handle_s_code (InitJiebaUtil stop_file) (index_get_instance (p_index p)) ps resp /\
  p_index p' = p_index p /\ jieba_ok stop_file (p_jieba p') /\
  exists cs, request_log now stop_file (p_jieba p) (index_get_instance (p_index p)) ps = Some (cs, p_jieba p') /\
             run_log pid cs (p_log p) = Some (p_log p').
Proof.
  intros Hi. unfold handle_request, request_log, handle_s_code.
  destruct (get_param_value ps (txt "query")) as [q|].
  - intros (j & inst' & inv & s' & Hg & Hr & -> & Hrun & ->).
    destruct (get_instance_Some _ _ _ Hi Hg) as [-> ->]. rewrite Hg.
    split_and!; [by exists (build_results (index_get_instance (p_index p)) inv); split; [exists inv|] | done | by right |].
    eexists; split; [reflexivity|]. cbn [p_log]. rewrite <- Hrun. do 2 f_equal.
    apply search_log_perm. destruct Hr as [Hr _]. by rewrite rank_perm, Hr.
  - intros [-> ->]. split_and!; [done..|]. by exists [].
Qed.
End lemmas.

Section words.
Context `{seg : Segmenter} (now : option tm).

(** One WARNING per query word that has no posting list, in order. *)
Lemma words_log_levels idx ws :
  (fun c => get_level (lc_level c)) <$> words_log now idx ws
  = replicate (length (filter (fun w => get_inverted_index idx (to_lower w) = None) ws)) (txt "warning").
Proof.
  unfold words_log. induction ws as [|w ws IH]; [done|]. rewrite bind_cons, fmap_app, filter_cons, IH.
  unfold get_inverted_index_log. by destruct (get_inverted_index idx (to_lower w)).
Qed.
End words.

(** ** Properties of the server process *)

Section claims.
Context `{seg : Segmenter} (now : option tm) (pid : Z) (stop_file : option text).


(** C12. When a [/s] request is answered: a request without [query]
    always is, and one with a query is exactly when the tokenizer
    singleton is set or the stop-word file opens; otherwise its
    [CutString] constructs the tokenizer and the process aborts, with no
    response and no record beyond what was logged before. *)
Theorem request_completes ps p :
  jieba_ok stop_file (p_jieba p) ->
  (exists resp p', handle_request now pid stop_file ps p resp p') <->
  get_param_value ps (txt "query") = None \/ p_jieba p ≠ None \/ is_Some stop_file.
Proof.
  intros Hi. unfold handle_request. split.
  - intros (resp & p' & Hh). destruct (get_param_value ps (txt "query")) as [q|]; [right|by left].
    destruct Hh as (j & inst' & inv & s' & Hg & _). destruct (p_jieba p); [by left|right].
    destruct stop_file; [by eexists | done].
  - destruct (get_param_value ps (txt "query")) as [q|] eqn:Hq; intros Hc; [|by eexists _, _].
    set (idx := index_get_instance (p_index p)).
    set (ws := query_words (InitJiebaUtil stop_file) q).
    destruct (run_log_total pid (query_call now q :: search_log now idx ws (rank (accumulate idx ws))) (p_log p))
      as [s' Hs'].
    { constructor; [rewrite query_call_record; by eexists|].
      eapply Forall_impl; [apply search_log_fine|]. by intros c [_ ?]. }
    eexists _, _, (InitJiebaUtil stop_file), _, (rank (accumulate idx ws)), s'.
    split_and!; [apply get_instance_ok; naive_solver | apply rank_code_ranking | reflexivity | exact Hs' | reflexivity].
Qed.

(** C33. Start-up of the server and its log, on a readable corpus:
    [main] up to [svr.listen] aborts exactly when the stop-word file
    cannot be opened and some corpus line is accepted (the first
    [CutString] constructs [cppjieba::Jieba], which aborts; no FATAL
    record is ever written).  Otherwise its index is the one
    [Searcher::init_search] builds, the tokenizer singleton is set
    exactly when some line was accepted, nothing goes to standard output,
    and the text appended to ["log.log"] reads back as records whose
    levels are, in order: [info] (["创建单例模式"]), one [debug] per
    accepted line and one [warning] per rejected line in corpus order,
    then two [info] (["创建索引"], ["start server"]). *)
Theorem server_start_log contents old :
  (server_start now pid stop_file (Some contents) (Some old) = None <->
     stop_file = None /\ Exists well_formed_line (getlines contents)) /\
  forall p, server_start now pid stop_file (Some contents) (Some old) = Some p ->
  exists new recs,
    p_index p = Some (init_search (InitJiebaUtil stop_file) None (Some contents)) /\
    p_jieba p = (if bool_decide (Exists well_formed_line (getlines contents))
                 then Some (InitJiebaUtil stop_file) else None) /\
    p_log p = mkLogState true (Some (old ++ new)) [] /\
    mapM parse_log_line (getlines new) = Some recs /\
    r_level <$> recs
      = txt "info" :: ((fun l => if bool_decide (well_formed_line l) then txt "debug" else txt "warning")
                         <$> getlines contents) ++ [txt "info"; txt "info"].
Proof. apply server_start_spec. Qed.

End claims.

Section request.
Context `{seg : Segmenter} (now : option tm) (pid : Z) (stop_file : option text).

(** C23. A [/s] request with a query that holds no line break, on an index
    [create_index] built, appends one [info] record whose message is the
    query cut to its first 1017 bytes after ["query:"] (and its first
    NUL), then one [warning] record per query word (lowered) that has no
    posting list; the tokenizer singleton is set afterwards. *)
Theorem handle_request_log j0 ps q p resp p' old out :
  get_param_value ps (txt "query") = Some q -> newline ∉ q -> jieba_ok stop_file (p_jieba p) ->
  index_wf j0 (index_get_instance (p_index p)) ->
  p_log p = mkLogState true (Some old) out ->
  handle_request now pid stop_file ps p resp p' ->
  p_jieba p' = Some (InitJiebaUtil stop_file) /\
  exists new recs, p_log p' = mkLogState true (Some (old ++ new)) out /\
    mapM parse_log_line (getlines new) = Some recs /\
    r_level <$> recs
      = txt "info" :: replicate (length (filter (fun w => get_inverted_index (index_get_instance (p_index p)) (to_lower w) = None)
                                                (query_words (InitJiebaUtil stop_file) q)))
                                (txt "warning") /\
    r_msg <$> head recs = Some (take 1023 (txt "query:" ++ c_str q)).
Proof.
  intros Hq Hnl Hi Hwf Hlog Hh. unfold handle_request in Hh. rewrite Hq in Hh.
  destruct Hh as (j & inst' & inv & s' & Hg & Hr & _ & Hrun & ->).
  destruct (get_instance_Some stop_file _ _ _ Hi Hg) as [-> ->]. cbn [p_jieba p_log].
  split; [done|].
  set (idx := index_get_instance (p_index p)) in *.
  set (cs := query_call now q :: search_log now idx (query_words (InitJiebaUtil stop_file) q) inv) in *.
  assert (Hf : Forall (call_fine pid) cs).
  { constructor; [call_fine_const; exact Hnl | apply search_log_fine]. }
  destruct (call_fine_split pid cs Hf) as [Hok [recs Hrecs]].
  destruct (run_log_lines pid cs old out recs Hok Hrecs) as (ls & Hls & Hp & Hrun').
  rewrite Hlog, Hrun' in Hrun. injection Hrun as <-.
  eexists _, recs. split_and!; [reflexivity | by rewrite getlines_unlines | |].
  - rewrite (records_levels pid cs recs Hrecs). unfold cs. rewrite fmap_cons.
    rewrite (search_log_wf now j0 idx _ inv Hwf (proj1 Hr)), words_log_levels. done.
  - apply mapM_Some_1 in Hrecs. inversion Hrecs as [|c r ? ? Hr1]; subst.
    rewrite query_call_record in Hr1. by simplify_eq/=.
Qed.
End request.

(** ** Witnesses *)


Lemma request_completes_witness :
  let p := mkProcess (Some empty_index) None (mkLogState true (Some []) []) in
  jieba_ok (Some (txt "the")) (p_jieba p) /\
  ((exists resp p', handle_request (seg := space_segmenter) None 1 (Some (txt "the")) [(txt "query", txt "a")] p resp p') <->
   get_param_value [(txt "query", txt "a")] (txt "query") = None \/ p_jieba p ≠ None \/ is_Some (Some (txt "the"))).
Proof. intros p. split; [by left | apply request_completes; by left]. Defined.

(** A two-line corpus, one line accepted, the stop-word file present:
    the server starts, and its log holds [info], [debug], [warning],
    [info], [info]. *)
Lemma server_start_log_witness :
  let c := txt "Boost" ++ [SEP] ++ txt "fast" ++ [SEP] ++ txt "u" ++ [newline] ++ txt "bad" in
  exists p, server_start (seg := space_segmenter) None 1 (Some (txt "the")) (Some c) (Some []) = Some p /\
  exists new recs,
    p_log p = mkLogState true (Some ([] ++ new)) [] /\
    mapM parse_log_line (getlines new) = Some recs /\
    r_level <$> recs = [txt "info"; txt "debug"; txt "warning"; txt "info"; txt "info"].
Proof.
  intros c.
  destruct (server_start (seg := space_segmenter) None 1 (Some (txt "the")) (Some c) (Some [])) as [p|] eqn:E.
  - exists p. split; [reflexivity|].
    destruct (proj2 (server_start_log (seg := space_segmenter) None 1 (Some (txt "the")) c []) p E)
      as (new & recs & _ & _ & Hl & Hp & Hr).
    exists new, recs. split_and!; [exact Hl | exact Hp | rewrite Hr; vm_compute; reflexivity].
  - exfalso. apply (proj1 (server_start_log (seg := space_segmenter) None 1 (Some (txt "the")) c [])) in E.
    destruct E as [E _]. discriminate.
Defined.

(** The query [a] on the empty index, the tokenizer unset: one [info]
    record, then one [warning] for the word [a]. *)
Lemma handle_request_log_witness :
  let sf := Some (txt "the") in
  let p := mkProcess (Some empty_index) None (mkLogState true (Some []) []) in
  let ps := [(txt "query", txt "a")] in
  exists resp p',
    handle_request (seg := space_segmenter) None 1 sf ps p resp p' /\
    (p_jieba p' = Some (InitJiebaUtil sf) /\
     exists new recs, p_log p' = mkLogState true (Some ([] ++ new)) [] /\
       mapM parse_log_line (getlines new) = Some recs /\
       r_level <$> recs
         = txt "info" :: replicate (length (filter (fun w => get_inverted_index (index_get_instance (p_index p)) (to_lower w) = None)
                                                   (query_words (seg := space_segmenter) (InitJiebaUtil sf) (txt "a"))))
                                   (txt "warning") /\
       r_msg <$> head recs = Some (take 1023 (txt "query:" ++ c_str (txt "a")))).
Proof.
  intros sf p ps.
  destruct (run_log 1 (query_call None (txt "a") :: search_log None empty_index
                          (query_words (seg := space_segmenter) (InitJiebaUtil sf) (txt "a")) []) (p_log p))
    as [s'|] eqn:Hrun; [|vm_compute in Hrun; discriminate].
  assert (Hh : handle_request (seg := space_segmenter) None 1 sf ps p (respond (build_results empty_index []))
                 (mkProcess (Some empty_index) (Some (InitJiebaUtil sf)) s')).
  { unfold handle_request. cbn [get_param_value].
    exists (InitJiebaUtil sf), (Some (InitJiebaUtil sf)), [], s'. split_and!; try reflexivity.
    - split; [vm_compute; reflexivity | constructor].
    - exact Hrun. }
  eexists _, _. split; [exact Hh|].
  eapply (handle_request_log (seg := space_segmenter) None 1 sf (InitJiebaUtil sf) ps (txt "a") p _ _ [] []);
    [reflexivity | decide_by_vm | by left | apply index_wf_empty | reflexivity | exact Hh].
Defined.

