(* ===== verification/ParserLog.v ===== *)
(** * The log of the corpus generator: [main] of [src/parser.cc]

    [main] of the parser calls [able_save()] and logs at every stage:
    [extract_html] logs FATAL when the root directory does not exist,
    [parse_html] logs a WARNING when there is no file and one per failed
    extraction of a file (title, content, URL), and [main] logs INFO
    after each stage that succeeds, or FATAL before [exit] with the
    stage's code.  [parser_main_log] is [Parser.parser_main] with the
    [LOG] calls it makes, in order; an exception thrown by [get_url]
    ends the process, after the calls made so far ([None] result).
    [parser_process] writes them to the log ([Log.run_log]). *)

From S2P Require Import Prelude CppString Log Index Parser.

(** ** The [LOG] calls of [parser.cc] *)

Section calls.
Variable now : option tm.

Definition parser_call (line : Z) (level : Level) (fmt : text) (args : list arg) : log_call :=
  mkCall (txt "parser.cc") line level fmt args now.

(** [LOG(FATAL,"根节点不存在")] of [extract_html]. *)
Definition log_root_missing : log_call := parser_call 110 FATAL (txt "根节点不存在") [].

(** [LOG(WARNING,"htmls内容为空")] of [parse_html]. *)
Definition log_htmls_empty : log_call := parser_call 143 WARNING (txt "htmls内容为空") [].

(** The three [LOG(WARNING,"%s文件...失败",file_path.c_str())] of [parse_html]. *)
Definition log_title_failed (file_path : text) : log_call :=
  parser_call 150 WARNING (txt "%s文件title提取失败") [AStr file_path].
Definition log_content_failed (file_path : text) : log_call :=
  parser_call 153 WARNING (txt "%s文件content提取失败") [AStr file_path].
Definition log_url_failed (file_path : text) : log_call :=
  parser_call 156 WARNING (txt "%s文件url构建失败") [AStr file_path].

(** The six calls of [main]. *)
Definition log_extract_failed : log_call := parser_call 81 FATAL (txt "提取html文件路径失败") [].
Definition log_extract_ok : log_call := parser_call 84 INFO (txt "提取html文件路径成功") [].
Definition log_parse_failed : log_call := parser_call 87 FATAL (txt "解析html文件失败") [].
Definition log_parse_ok : log_call := parser_call 90 INFO (txt "解析html文件成功") [].
Definition log_save_failed : log_call := parser_call 92 FATAL (txt "存储html内容失败") [].
Definition log_save_ok : log_call := parser_call 95 INFO (txt "存储html内容成功") [].
End calls.

(** ** The parser with its log *)

Section parser_log.
Context (fs : text -> option text) (now : option tm).

(** The log of [extract_html]. *)
Definition extract_html_log (root_exists : bool) : list log_call :=
  if root_exists then [] else [log_root_missing now].

(** One iteration of the loop of [parse_html] with its warnings; an
    exception keeps the warnings already written. *)
Definition parse_one_log (file_path : text) : list log_call * option file_content :=
  match get_title fs file_path [] with
  | None => ([], None)
  | Some (ok_t, t) =>
      let w1 := if ok_t then [] else [log_title_failed now file_path] in
      match get_content fs file_path [] with
      | None => (w1, None)
      | Some (ok_c, c) =>
          let w2 := w1 ++ if ok_c then [] else [log_content_failed now file_path] in
          match get_url file_path [] with
          | None => (w2, None)
          | Some (ok_u, u) =>
              (w2 ++ (if ok_u then [] else [log_url_failed now file_path]),
               Some (mkFileContent t c u))
          end
      end
  end.

(** The loop of [parse_html]: it stops at the first exception. *)
Fixpoint parse_loop_log (htmls : list text) : list log_call * option (list file_content) :=
  match htmls with
  | [] => ([], Some [])
  | fp :: fps =>
      let '(cs, r) := parse_one_log fp in
      match r with
      | None => (cs, None)
      | Some item => let '(cs', r') := parse_loop_log fps in (cs ++ cs', (item ::.) <$> r')
      end
  end.

(** [parse_html(htmls, file_contents)] with its log. *)
Definition parse_html_log (htmls : list text) (file_contents : list file_content)
    : list log_call * option (bool * list file_content) :=
  if bool_decide (htmls = []) then ([log_htmls_empty now], Some (false, file_contents))
  else let '(cs, r) := parse_loop_log htmls in (cs, (fun items => (true, file_contents ++ items)) <$> r).

(** [main] of [parser.cc] with its log. *)
Definition parser_main_log (root_exists : bool) (entries : list (text * bool)) (raw : option text)
    : list log_call * option (Z * option text) :=
  let '(ok1, htmls) := extract_html root_exists entries [] in
  let cs1 := extract_html_log root_exists in
  if negb ok1 then (cs1 ++ [log_extract_failed now], Some (1%Z, raw)) else
  let '(cs2, r) := parse_html_log htmls [] in
  match r with
  | None => (cs1 ++ log_extract_ok now :: cs2, None)
  | Some (ok2, file_contents) =>
      if negb ok2 then (cs1 ++ log_extract_ok now :: cs2 ++ [log_parse_failed now], Some (2%Z, raw))
      else
        let cs := cs1 ++ log_extract_ok now :: cs2 ++ [log_parse_ok now] in
        let '(ok3, raw') := save_file file_contents raw in
        if negb ok3 then (cs ++ [log_save_failed now], Some (3%Z, raw'))
        else (cs ++ [log_save_ok now], Some (0%Z, raw'))
  end.

(** The parser process from [able_save()] on, with the log file [log0]
    it starts with: its exit code and corpus ([None]: terminated by an
    exception) and the log. *)
Definition parser_process (pid : Z) (root_exists : bool) (entries : list (text * bool))
    (raw log0 : option text) : option (option (Z * option text) * log_state) :=
  let '(cs, r) := parser_main_log root_exists entries raw in
  s ← run_log pid cs (able_save (mkLogState false log0 []));
  Some (r, s).
End parser_log.

(** [parse_html] logs warnings only. *)
Definition warnings (cs : list log_call) : Prop := Forall (fun c => lc_level c = WARNING) cs.

(** ** Lemmas *)

Section lemmas.
Context (fs : text -> option text) (now : option tm).

(** Logging changes nothing else: the results are those of [Parser.v]. *)
Lemma parse_one_log_result fp : (parse_one_log fs now fp).2 = parse_one fs fp.
Proof.
  unfold parse_one_log, parse_one.
  destruct (get_title fs fp []) as [[??]|]; [|done]. cbn [mbind option_bind].
  destruct (get_content fs fp []) as [[??]|]; [|done]. cbn [mbind option_bind].
  by destruct (get_url fp []) as [[??]|].
Qed.

Lemma parse_loop_log_result htmls : (parse_loop_log fs now htmls).2 = mapM (parse_one fs) htmls.
Proof.
  induction htmls as [|fp fps IH]; [done|]. cbn [parse_loop_log mapM].
  rewrite <- parse_one_log_result. destruct (parse_one_log fs now fp) as [cs [item|]]; [|done].
  cbn [snd mbind option_bind]. rewrite <- IH. by destruct (parse_loop_log fs now fps) as [? [?|]].
Qed.

Lemma parse_html_log_result htmls fcs : (parse_html_log fs now htmls fcs).2 = parse_html fs htmls fcs.
Proof.
  unfold parse_html_log, parse_html. case_bool_decide; [done|].
  rewrite <- parse_loop_log_result. by destruct (parse_loop_log fs now htmls) as [? [?|]].
Qed.

Lemma parser_main_log_result root_exists entries raw :
  (parser_main_log fs now root_exists entries raw).2 = parser_main fs root_exists entries raw.
Proof.
  unfold parser_main_log, parser_main.
  destruct (extract_html root_exists entries []) as [[|] htmls]; [|done]. cbn [negb].
  rewrite <- parse_html_log_result. destruct (parse_html_log fs now htmls []) as [cs [[[|] fcs]|]];
    [|done..]. cbn [snd mbind option_bind negb].
  by destruct (save_file fcs raw) as [[|] ?].
Qed.

Lemma at_level_warnings L cs : warnings cs -> L ≠ WARNING -> at_level L cs = [].
Proof.
  intros Hw HL. induction Hw as [|c cs Hc _ IH]; [done|]. rewrite at_level_out; [done|congruence].
Qed.

Lemma parse_one_log_warnings fp : warnings (parse_one_log fs now fp).1.
Proof.
  unfold parse_one_log, warnings.
  destruct (get_title fs fp []) as [[[|] ?]|]; [..|constructor];
  destruct (get_content fs fp []) as [[[|] ?]|]; try destruct (get_url fp []) as [[[|] ?]|];
  cbn [fst app]; repeat constructor.
Qed.

Lemma parse_loop_log_warnings htmls : warnings (parse_loop_log fs now htmls).1.
Proof.
  induction htmls as [|fp fps IH]; [constructor|]. cbn [parse_loop_log].
  pose proof (parse_one_log_warnings fp) as Hw.
  destruct (parse_one_log fs now fp) as [cs [item|]]; [|done].
  destruct (parse_loop_log fs now fps) as [cs' r']. by apply Forall_app.
Qed.

Lemma parse_html_log_warnings htmls fcs : warnings (parse_html_log fs now htmls fcs).1.
Proof.
  unfold parse_html_log. case_bool_decide; [repeat constructor|].
  pose proof (parse_loop_log_warnings htmls) as Hw. by destruct (parse_loop_log fs now htmls).
Qed.

(** The last call says how [main] ended. *)
Lemma parser_main_log_exit root_exists entries raw :
  let '(cs, r) := parser_main_log fs now root_exists entries raw in
  match r with
  | Some (k, _) =>
      (k = 0%Z /\ at_level FATAL cs = [] /\ last cs = Some (log_save_ok now))
      \/ ((k = 1 \/ k = 2 \/ k = 3)%Z /\ exists c, last cs = Some c /\ lc_level c = FATAL)
  | None => at_level FATAL cs = []
  end.
Proof.
  unfold parser_main_log. destruct root_exists; cbn [extract_html negb extract_html_log app];
    [|right; split; [lia | by eexists]].
  pose proof (parse_html_log_warnings (fst <$> filter (fun e => e.2 = true /\ extension e.1 = txt ".html") entries) [])
    as Hw.
  destruct (parse_html_log fs now _ []) as [cs2 [[[|] fcs]|]]; cbn [negb fst] in *.
  - destruct (save_file fcs raw) as [[|] raw']; cbn [negb].
    + left. split_and!; [done| |rewrite ?app_comm_cons, ?app_assoc; by rewrite last_snoc].
      rewrite at_level_out, !at_level_app, at_level_out, (at_level_warnings FATAL) by done. done.
    + right. split; [lia|]. eexists. rewrite ?app_comm_cons, ?app_assoc; by rewrite last_snoc.
  - right. split; [lia|]. eexists. rewrite ?app_comm_cons, ?app_assoc; by rewrite last_snoc.
  - by rewrite at_level_out, (at_level_warnings FATAL) by done.
Qed.

(** The calls of a run are well-formed when no path holds a line break. *)
Lemma parse_one_log_fine pid fp : newline ∉ fp -> Forall (call_fine pid) (parse_one_log fs now fp).1.
Proof.
  intros Hnl. unfold parse_one_log.
  destruct (get_title fs fp []) as [[[|] ?]|]; [..|constructor];
  destruct (get_content fs fp []) as [[[|] ?]|]; try destruct (get_url fp []) as [[[|] ?]|];
  cbn [fst app]; repeat (constructor; [call_fine_const; exact Hnl|]); constructor.
Qed.

Lemma parse_loop_log_fine pid htmls :
  Forall (fun fp => newline ∉ fp) htmls -> Forall (call_fine pid) (parse_loop_log fs now htmls).1.
Proof.
  induction 1 as [|fp fps Hfp _ IH]; [constructor|]. cbn [parse_loop_log].
  pose proof (parse_one_log_fine pid fp Hfp) as Hw.
  destruct (parse_one_log fs now fp) as [cs [item|]]; [|done].
  destruct (parse_loop_log fs now fps) as [cs' r']. by apply Forall_app.
Qed.

Lemma parser_main_log_fine pid root_exists entries raw :
  Forall (fun e => newline ∉ e.1) entries ->
  Forall (call_fine pid) (parser_main_log fs now root_exists entries raw).1.
Proof.
  intros He. unfold parser_main_log.
  destruct root_exists; cbn [extract_html negb extract_html_log app];
    [|repeat (constructor; [call_fine_const|]); constructor].
  set (htmls := fst <$> filter (fun e => e.2 = true /\ extension e.1 = txt ".html") entries).
  assert (Hh : Forall (fun fp => newline ∉ fp) htmls).
  { apply Forall_fmap, Forall_forall. intros e [_ Hin]%list_elem_of_filter.
    rewrite Forall_forall in He. exact (He e Hin). }
  assert (Hcs : Forall (call_fine pid) (parse_html_log fs now htmls []).1).
  { unfold parse_html_log. case_bool_decide; [repeat (constructor; [call_fine_const|]); constructor|].
    pose proof (parse_loop_log_fine pid htmls Hh). by destruct (parse_loop_log fs now htmls). }
  destruct (parse_html_log fs now htmls []) as [cs2 [[[|] fcs]|]]; cbn [negb fst] in *.
  - destruct (save_file fcs raw) as [[|] raw']; cbn [negb fst];
      (constructor; [call_fine_const|]); rewrite ?Forall_app; split_and!; try done;
      repeat (constructor; [call_fine_const|]); constructor.
  - constructor; [call_fine_const|]. apply Forall_app. split; [done|].
    repeat (constructor; [call_fine_const|]); constructor.
  - constructor; [call_fine_const | done].
Qed.
End lemmas.

(** ** The log of a parser run *)

Section properties.
Context (fs : text -> option text) (now : option tm).

(** A run of the parser ends as [Parser.parser_main] says, and the log
    it appends reads back record by record; its last record tells how
    the run ended: [info] and no [fatal] record for exit code 0, [fatal]
    for the exit codes 1, 2 and 3, and no [fatal] record at all when an
    exception ends the process. *)
Theorem parser_log_exit pid root_exists entries raw old :
  Forall (fun e => newline ∉ e.1) entries ->
  exists new recs,
    parser_process fs now pid root_exists entries raw (Some old)
      = Some (parser_main fs root_exists entries raw, mkLogState true (Some (old ++ new)) []) /\
    mapM parse_log_line (getlines new) = Some recs /\
    match parser_main fs root_exists entries raw with
    | Some (k, _) =>
        (k = 0%Z /\ Forall (fun r => r_level r ≠ txt "fatal") recs /\
         r_level <$> last recs = Some (txt "info"))
        \/ ((k = 1 \/ k = 2 \/ k = 3)%Z /\ r_level <$> last recs = Some (txt "fatal"))
    | None => Forall (fun r => r_level r ≠ txt "fatal") recs
    end.
Proof.
  intros He. pose proof (parser_main_log_fine fs now pid root_exists entries raw He) as Hf.
  pose proof (parser_main_log_exit fs now root_exists entries raw) as Hx.
  rewrite <- (parser_main_log_result fs now). unfold parser_process.
  destruct (parser_main_log fs now root_exists entries raw) as [cs r]. cbn [fst snd] in *.
  destruct (call_fine_split pid cs Hf) as [Hok [recs Hrecs]].
  destruct (run_log_lines pid cs old [] recs Hok Hrecs) as (ls & Hnl & Hp & Hrun).
  change (able_save (mkLogState false (Some old) [])) with (mkLogState true (Some old) []).
  rewrite Hrun. eexists _, recs. split_and!; [reflexivity | by rewrite getlines_unlines |].
  pose proof (records_last_level pid cs recs Hrecs) as Hl.
  pose proof (records_level_absent pid cs recs FATAL Hrecs) as Ha.
  destruct r as [[k raw']|]; [|by apply Ha].
  destruct Hx as [(-> & HF & Hlast) | (Hk & c & Hlast & Hc)].
  - left. split_and!; [done | by apply Ha | by rewrite Hl, Hlast].
  - right. split; [done|]. rewrite Hl, Hlast. simpl. by rewrite Hc.
Qed.
End properties.
