(* ===== verification/System.v ===== *)
(** * The system: the parser and the server on one file system

    The two programs of the repository meet only through files: the
    parser ([src/parser.cc]) appends the corpus to
    ["data/raw_html/raw.txt"] ([html_save_path]), the server
    ([src/http_server.cc]) reads the same path ([input]) at start-up, and
    both append their records to ["log.log"] ([file_name] of
    [src/Log.hpp]); the server also reads the stop-word file
    [STOP_WORD_PATH] of [src/tools.hpp].  The file system [disk] maps a
    path to its contents ([None]: the file cannot be opened) and is
    updated with stdpp's [<[path := contents]>] on functions.

    [run_parser] runs the parser's [main] on a disk and writes back the
    corpus and the log; [run_server] runs the server's [main] up to
    [svr.listen] and writes back the log; [serve] is the request loop of
    [svr.listen], one request after the other.  The HTML files the parser
    reads end in [.html], so they are neither the corpus nor the log: the
    parser reads them from the disk it starts with. *)

From S2P Require Import Prelude CppString Log Tokenizer Index Searcher Json Parser Pipeline Server ParserLog.
From stdpp Require Import functions.

(** ** Paths and the file system *)

(** [const std::string input] of [http_server.cc]. *)
Definition input : text := txt "data/raw_html/raw.txt".

(** [const std::string html_save_path] of [parser.cc]. *)
Definition html_save_path : text := txt "data/raw_html/raw.txt".

(** [STOP_WORD_PATH] of [tools.hpp]. *)
Definition STOP_WORD_PATH : text := txt "./dict/stop_words.utf8".

(** [std::string file_name] of [Log.hpp]. *)
Definition log_file_name : text := txt "log.log".

(** The contents of each path, [None] when it cannot be opened. *)
Definition disk := text -> option text.

(** ** The two programs *)

Section system.
Context `{seg : Segmenter} (now : option tm).

(** The parser process [pid] on the disk [d]: [root_exists] and
    [entries] are the directory walk of ["data/input"].  The result is
    the exit code ([None]: an exception ended the process) and the disk
    with the corpus and the log written back. *)
Definition run_parser (pid : Z) (root_exists : bool) (entries : list (text * bool)) (d : disk)
    : option (option Z * disk) :=
  '(r, s) ← parser_process d now pid root_exists entries (d html_save_path) (d log_file_name);
  let d1 := <[log_file_name := log_file s]> d in
  Some (match r with
        | Some (code, raw') => (Some code, <[html_save_path := raw']> d1)
        | None => (None, d1)
        end).

(** The server process [pid] from [main] to [svr.listen] on the disk
    [d]: the process state and the disk with the log written back. *)
Definition run_server (pid : Z) (d : disk) : option (process * disk) :=
  p ← server_start now pid (d STOP_WORD_PATH) (d input) (d log_file_name);
  Some (p, <[log_file_name := log_file (p_log p)]> d).

(** The loop of [svr.listen]: the requests [reqs] answered one after the
    other with the responses [resps]. *)
Inductive serve (pid : Z) (stop_file : option text)
    : process -> list params -> list response -> process -> Prop :=
  | serve_nil p : serve pid stop_file p [] [] p
  | serve_cons p ps resp p' reqs resps p'' :
      handle_request now pid stop_file ps p resp p' ->
      serve pid stop_file p' reqs resps p'' ->
      serve pid stop_file p (ps :: reqs) (resp :: resps) p''.

(** The [LOG] calls of a sequence of requests on the index [idx], with
    the tokenizer singleton after them ([None]: a request aborted the
    process). *)
Fixpoint requests_log (stop_file : option text) (inst : option JiebaUtil) (idx : Index)
    (reqs : list params) : option (list log_call * option JiebaUtil) :=
  match reqs with
  | [] => Some ([], inst)
  | ps :: reqs' =>
      '(cs, inst') ← request_log now stop_file inst idx ps;
      '(cs', inst'') ← requests_log stop_file inst' idx reqs';
      Some (cs ++ cs', inst'')
  end.
End system.

(** A one-page site for the witnesses: the page [Parser.demo_page], an
    image and a directory beside it, an empty corpus, an empty log and a
    stop-word file. *)
Definition demo_disk (p : text) : option text :=
  if bool_decide (p = txt "data/input/a.html") then Some demo_page
  else if bool_decide (p = html_save_path) then Some []
  else if bool_decide (p = log_file_name) then Some []
  else if bool_decide (p = STOP_WORD_PATH) then Some (txt "the") else None.

Definition demo_entries : list (text * bool) :=
  [(txt "data/input/a.html", true); (txt "data/input/img.png", true); (txt "data/input/doc", false)].

(** The levels of the records a [/s] request writes on the index [idx]:
    none without [query]; [info] for the query, then one [warning] per
    query word, lowered, that has no posting list. *)
Definition request_levels `{Segmenter} (j : JiebaUtil) (idx : Index) (ps : params) : list text :=
  match get_param_value ps (txt "query") with
  | None => []
  | Some q =>
      txt "info" :: replicate (length (filter (fun w => get_inverted_index idx (to_lower w) = None)
                                              (query_words j q))) (txt "warning")
  end.

(** ** Lemmas *)

(** The HTML files [extract_html] keeps. *)
Definition html_files (entries : list (text * bool)) : list text :=
  fst <$> filter (fun e => e.2 = true /\ extension e.1 = txt ".html") entries.

(** Reading a path after a write. *)
Lemma disk_insert_eq (d : disk) p c : <[p := c]> d p = c.
Proof. apply (fn_lookup_insert (A:=text) (T:=option text)). Qed.

Lemma disk_insert_ne (d : disk) p q c : p ≠ q -> <[p := c]> d q = d q.
Proof. apply (fn_lookup_insert_ne (A:=text) (T:=option text)). Qed.

Lemma paths_apart :
  log_file_name ≠ html_save_path /\ STOP_WORD_PATH ≠ html_save_path /\
  STOP_WORD_PATH ≠ log_file_name /\ input = html_save_path.
Proof. split_and!; [decide_by_vm.. | reflexivity]. Qed.

(** A run of the parser's [main] in which every file is read: exit code
    0 and the records appended to the corpus. *)
Lemma parser_main_success (d : disk) entries items r0 :
  html_files entries ≠ [] -> mapM (parse_one d) (html_files entries) = Some items ->
  parser_main d true entries (Some r0) = Some (0%Z, Some (r0 ++ mjoin (record_line <$> items))).
Proof.
  intros Hne Hm. unfold parser_main, extract_html. cbn [negb app].
  fold (html_files entries). unfold parse_html. rewrite bool_decide_eq_false_2 by done.
  rewrite Hm. done.
Qed.

(** The records the parser writes are the documents the server indexes. *)
Lemma corpus_forward_index `{seg : Segmenter} j items :
  Forall record_ok items ->
  forward_index (init_search j None (Some ([] ++ mjoin (record_line <$> items))))
  = zip_with to_doc items (seq 0 (length items)).
Proof.
  intros Hok. rewrite app_nil_l, forward_index_init_search_fresh.
  by rewrite getlines_records, corpus_docs_records.
Qed.

(** *** The request loop *)

Section serve_lemmas.
Context `{seg : Segmenter} (now : option tm) (pid : Z) (stop_file : option text).

(** A request with a query, when the query holds no line break. *)
Definition query_ok (ps : params) : Prop :=
  forall q, get_param_value ps (txt "query") = Some q -> newline ∉ q.

(** The loop is the requests' calls written in order; every response is
    the route's on the index the server started with, which the loop
    keeps. *)
Lemma serve_calls p reqs resps p' :
  jieba_ok stop_file (p_jieba p) -> serve now pid stop_file p reqs resps p' ->
  Forall2 (handle_s_code (InitJiebaUtil stop_file) (index_get_instance (p_index p))) reqs resps /\
  p_index p' = p_index p /\ jieba_ok stop_file (p_jieba p') /\
  exists cs, requests_log now stop_file (p_jieba p) (index_get_instance (p_index p)) reqs
             = Some (cs, p_jieba p') /\ run_log pid cs (p_log p) = Some (p_log p').
Proof.
  intros Hi Hs. revert Hi. induction Hs as [p|p ps resp p1 reqs resps p2 Hh _ IH]; intros Hi.
  - split_and!; [constructor | done | done | by exists []].
  - destruct (handle_request_spec now pid stop_file ps p resp p1 Hi Hh) as (Hr & Hidx & Hi1 & cs1 & Hcs1 & Hrun1).
    destruct (IH Hi1) as (Hrs & Hidx2 & Hi2 & cs2 & Hcs2 & Hrun2). rewrite Hidx in Hrs, Hcs2.
    split_and!; [by constructor | congruence | done |].
    exists (cs1 ++ cs2). cbn [requests_log]. rewrite Hcs1. bind_red. rewrite Hcs2. bind_red.
    split; [done|]. by rewrite run_log_app, Hrun1.
Qed.

(** The records of the loop have the levels [request_levels] gives, in
    order, on an index [create_index] built. *)
Lemma requests_log_levels j0 inst idx reqs cs inst' :
  jieba_ok stop_file inst -> index_wf j0 idx ->
  requests_log now stop_file inst idx reqs = Some (cs, inst') ->
  (fun c => get_level (lc_level c)) <$> cs = reqs ≫= request_levels (InitJiebaUtil stop_file) idx.
Proof.
  intros Hi Hwf. revert inst cs inst' Hi. induction reqs as [|ps reqs IH]; intros inst cs inst' Hi Hc;
    cbn [requests_log] in Hc; [by injection Hc as <- _|].
  rewrite bind_cons. unfold request_log in Hc. unfold request_levels at 1.
  destruct (get_param_value ps (txt "query")) as [q|].
  - destruct (get_instance inst stop_file) as [[j i1]|] eqn:Hg; [|done].
    destruct (get_instance_Some stop_file _ _ _ Hi Hg) as [-> ->]. bind_red in Hc.
    destruct (requests_log now stop_file _ idx reqs) as [[cs' i2]|] eqn:Hr; [|done].
    bind_red in Hc. injection Hc as <- _. rewrite fmap_cons, fmap_app, (IH _ _ _ (or_intror eq_refl) Hr).
    rewrite (search_log_wf now j0 idx _ _ Hwf (rank_perm _)), words_log_levels. done.
  - bind_red in Hc. destruct (requests_log now stop_file inst idx reqs) as [[cs' i2]|] eqn:Hr; [|done].
    bind_red in Hc. injection Hc as <- _. by rewrite (IH _ _ _ Hi Hr).
Qed.

Lemma requests_log_fine inst idx reqs cs inst' :
  Forall query_ok reqs -> requests_log now stop_file inst idx reqs = Some (cs, inst') ->
  Forall (call_fine pid) cs.
Proof.
  intros Hq. revert inst cs inst'. induction Hq as [|ps reqs Hps _ IH]; intros inst cs inst' Hc;
    cbn [requests_log] in Hc; [by injection Hc as <- _|].
  unfold request_log in Hc. destruct (get_param_value ps (txt "query")) as [q|] eqn:Eq.
  - destruct (get_instance inst stop_file) as [[j i1]|]; [|done]. bind_red in Hc.
    destruct (requests_log now stop_file i1 idx reqs) as [[cs' i2]|] eqn:Hr; [|done].
    bind_red in Hc. injection Hc as <- _. constructor; [|apply Forall_app; split; [apply search_log_fine | by eapply IH]].
    pose proof (Hps q Eq) as Hnl. call_fine_const. exact Hnl.
  - bind_red in Hc. destruct (requests_log now stop_file inst idx reqs) as [[cs' i2]|] eqn:Hr; [|done].
    bind_red in Hc. injection Hc as <- _. by eapply IH.
Qed.
End serve_lemmas.

(** ** Properties of the system *)

Section claims.
Context `{seg : Segmenter} (now : option tm).

(** C37. The parser, then the server, on one file system: when the walk of
    ["data/input"] finds HTML files, every file is read and gives a
    record the corpus carries intact, the corpus starts empty,
    ["log.log"] can be opened and the stop-word file [STOP_WORD_PATH]
    can be opened (without it the server aborts at the first record it
    indexes), the parser exits with 0, the server starts on the corpus it
    wrote and indexes page [i] as document [i], and ["log.log"] holds its
    old contents, then the parser's records, then the server's, every
    line of both readable as a record. *)
Theorem parser_then_server pid1 pid2 entries (d : disk) items old :
  html_files entries ≠ [] -> Forall (fun e => newline ∉ e.1) entries ->
  mapM (parse_one d) (html_files entries) = Some items -> Forall record_ok items ->
  d html_save_path = Some [] -> d log_file_name = Some old -> is_Some (d STOP_WORD_PATH) ->
  exists d1 p d2 new1 new2,
    run_parser now pid1 true entries d = Some (Some 0%Z, d1) /\
    run_server now pid2 d1 = Some (p, d2) /\
    forward_index <$> p_index p = Some (zip_with to_doc items (seq 0 (length items))) /\
    d2 log_file_name = Some (old ++ new1 ++ new2) /\
    is_Some (mapM parse_log_line (getlines new1)) /\
    is_Some (mapM parse_log_line (getlines new2)).
Proof.
  intros Hne Hnl Hm Hok Hraw Hlog Hstop. destruct paths_apart as (H1 & H2 & H3 & H4).
  destruct (parser_log_exit d now pid1 true entries (Some []) old Hnl) as (new1 & recs1 & Hpp & Hr1 & _).
  rewrite (parser_main_success d entries items []) in Hpp by done.
  set (corpus := [] ++ mjoin (record_line <$> items)).
  set (d1 := <[html_save_path := Some corpus]> (<[log_file_name := Some (old ++ new1)]> d)).
  destruct (server_start_spec now pid2 (d STOP_WORD_PATH) corpus (old ++ new1)) as [Hnone Hsome].
  destruct (server_start now pid2 (d STOP_WORD_PATH) (Some corpus) (Some (old ++ new1))) as [p|] eqn:Hs;
    [|destruct (proj1 Hnone eq_refl) as [Hsf _]; destruct Hstop; congruence].
  destruct (Hsome p eq_refl) as (new2 & recs2 & Hidx & _ & Hl & Hr2 & _).
  exists d1, p, (<[log_file_name := Some ((old ++ new1) ++ new2)]> d1), new1, new2.
  split_and!.
  - unfold run_parser. rewrite Hraw, Hlog, Hpp. reflexivity.
  - unfold run_server.
    assert (Hd1 : d1 STOP_WORD_PATH = d STOP_WORD_PATH /\ d1 input = Some corpus /\
                  d1 log_file_name = Some (old ++ new1)).
    { subst d1. rewrite H4. split_and!.
      - by rewrite !disk_insert_ne by done.
      - by rewrite disk_insert_eq.
      - by rewrite disk_insert_ne, disk_insert_eq by done. }
    destruct Hd1 as (-> & -> & ->). rewrite Hs. cbn [mbind option_bind]. by rewrite Hl.
  - rewrite Hidx. cbn [fmap option_fmap option_map]. f_equal. by apply corpus_forward_index.
  - by rewrite disk_insert_eq, app_assoc.
  - by eexists.
  - by eexists.
Qed.

End claims.

(** The whole system on the one-page site: the parser exits with 0 and
    logs its three stages, the server indexes the page and answers the
    query [boost] with the page, whose body starts with the title's
    text: [get_content] keeps the text of [<title>], so a title word also
    counts as a body word. *)
Example parse_serve_demo :
  match run_parser None 1 true demo_entries demo_disk with
  | Some (Some 0%Z, d1) =>
      match @run_server space_segmenter None 2 d1 with
      | Some (p, d2) =>
          (fmap r_level <$> (d2 log_file_name ≫= fun f => mapM parse_log_line (getlines f)),
           match handle_s (InitJiebaUtil (d1 STOP_WORD_PATH)) (index_get_instance (p_index p))
                          [(txt "query", txt "boost")] with
           | JsonText o => read_results o
           | _ => None
           end)
      | None => (None, None)
      end
  | _ => (None, None)
  end
  = (Some [txt "info"; txt "info"; txt "info"; txt "info"; txt "debug"; txt "info"; txt "info"],
     Some [mkResult (txt "Boost Intro") (txt "...Boost IntroHelloWorld...")
                    (url_head ++ txt "/a.html")]).
Proof. vm_compute. reflexivity. Qed.

(** ** Witnesses *)

Lemma parser_then_server_witness :
  exists d1 p d2 new1 new2,
    run_parser None 1 true demo_entries demo_disk = Some (Some 0%Z, d1) /\
    @run_server space_segmenter None 2 d1 = Some (p, d2) /\
    forward_index <$> p_index p
      = Some (zip_with to_doc [mkFileContent (txt "Boost Intro") (txt "Boost IntroHelloWorld")
                                             (url_head ++ txt "/a.html")] (seq 0 1)) /\
    d2 log_file_name = Some ([] ++ new1 ++ new2) /\
    is_Some (mapM parse_log_line (getlines new1)) /\
    is_Some (mapM parse_log_line (getlines new2)).
Proof.
  apply (parser_then_server None 1 2 demo_entries demo_disk); try decide_by_vm; try (vm_compute; reflexivity).
Defined.

