(* ===== verification/Serving.v ===== *)
(** * Concurrent requests: the [/s] handler on httplib's thread pool

    [svr.listen("0.0.0.0", 8080)] ([src/http_server.cc], line 28) hands
    every connection to a worker of httplib's thread pool, so the handler
    of ["/s"] (lines 15-26) runs in many threads at once.  Each run reads
    the index (nobody writes it after [init_search]), writes the log
    ([LOG(INFO,"query:%s",...)], then the WARNINGs of
    [Index::get_inverted_index] and [Index::get_forward_index] during
    [Searcher::search]), and calls [JiebaUtil::CutString], whose
    [get_instance] ([src/tools.hpp], lines 47-60) is a double-checked
    lock that publishes the new object in [instance] {e before} its
    [InitJiebaUtil] (lines 61-75) has loaded the stop words.  When the
    stop-word file cannot be opened, [new JiebaUtil()] aborts the whole
    process (the constructor of [cppjieba::Jieba]).

    The state [pool] is what the threads share: the [JiebaUtil] objects
    by allocation order ([heap]), the static [instance] ([jinstance], an
    index into [heap]), the static [mtx] ([jmtx], the worker holding it),
    the log ([plog], a [Log.log_state]), whether the process aborted
    ([aborted]; its threads are then gone) and, per worker, its request
    and its program counter [hpc] ([workers]).  [pool_step] has one
    constructor per statement of one worker, in any interleaving
    (sequential consistency); a statement that only reads the index and
    local data is one step with the following ones up to the next shared
    access.  A [LOG] call is atomic: [save_file] appends one record in
    one write.  [worker_step] is the executable form of [pool_step] that
    takes the spec's order in [search]; [run_pool] runs a schedule.

    The invariant [pool_inv] says that at most one object exists, that
    its stop-word table is complete unless a worker is inside
    [InitJiebaUtil], that [mtx] is held exactly by the worker between
    [lock] and [unlock], that a worker that returned gave the response
    the sequential handler gives, that the process aborts only without
    the stop-word file, and, when start-up created the tokenizer, that
    the log is the start-up log followed by the records the workers
    wrote so far, in some order. *)

From S2P Require Import Prelude CppString Log Tokenizer Index Searcher Pipeline Server System.

Module Serving.

(** Where a worker is in the handler.  [HInit ws] is the [getline] loop
    of [InitJiebaUtil] with the lines [ws] still to read; [HCut p] holds
    the pointer [get_instance] returned; [HSearch cs resp] is the rest of
    [search] after [CutString], with the [LOG] calls [cs] still to make
    and the response it sets. *)
Inductive hpc :=
  | HStart
  | HLog
  | HGet
  | HLock
  | HCheck
  | HInit (lines : list text)
  | HUnlock
  | HRet
  | HCut (p : nat)
  | HSearch (pending : list log_call) (resp : response)
  | HDone (resp : response).

Record pool := mkPool {
  heap : list JiebaUtil;
  jinstance : option nat;
  jmtx : option nat;
  plog : log_state;
  workers : list (params * hpc);
  aborted : bool;
}.

Definition set_worker (s : pool) (i : nat) (t : params * hpc) : pool :=
  mkPool (heap s) (jinstance s) (jmtx s) (plog s) (<[i := t]> (workers s)) (aborted s).

(** The workers about to run the handler on [reqs], with the tokenizer
    singleton and the log [main] left before [svr.listen]. *)
Definition pool_start (inst : option JiebaUtil) (l : log_state) (reqs : list params) : pool :=
  match inst with
  | Some j => mkPool [j] (Some 0) None l ((., HStart) <$> reqs) false
  | None => mkPool [] None None l ((., HStart) <$> reqs) false
  end.

(** [new JiebaUtil()], when it does not abort: the segmenter and an
    empty stop-word table. *)
Definition new_jieba : JiebaUtil := {| stop_words := ∅ |}.

(** [stop_words.insert({line,true})]. *)
Definition insert_stop_word (w : text) (j : JiebaUtil) : JiebaUtil :=
  {| stop_words := {[w]} ∪ stop_words j |}.

Section serving.
Context `{seg : Segmenter} (now : option tm) (pid : Z) (stop_file : option text) (idx : Index).

Inductive pool_step : pool -> pool -> Prop :=
  (* [if(!req.has_param("query"))]: [set_content("param query is required")], return *)
  | step_no_query s i ps :
      workers s !! i = Some (ps, HStart) -> get_param_value ps (txt "query") = None ->
      pool_step s (set_worker s i (ps, HDone (PlainText query_required)))
  | step_query s i ps q :
      workers s !! i = Some (ps, HStart) -> get_param_value ps (txt "query") = Some q ->
      pool_step s (set_worker s i (ps, HLog))
  (* [LOG(INFO,"query:%s",query.c_str())] *)
  | step_log s i ps q l :
      workers s !! i = Some (ps, HLog) -> get_param_value ps (txt "query") = Some q ->
      run_log pid [query_call now q] (plog s) = Some l ->
      pool_step s (mkPool (heap s) (jinstance s) (jmtx s) l (<[i := (ps, HGet)]> (workers s)) (aborted s))
  (* [search] calls [CutString], which calls [get_instance]: [if(nullptr == instance)] *)
  | step_fast s i ps p :
      workers s !! i = Some (ps, HGet) -> jinstance s = Some p ->
      pool_step s (set_worker s i (ps, HCut p))
  | step_slow s i ps :
      workers s !! i = Some (ps, HGet) -> jinstance s = None ->
      pool_step s (set_worker s i (ps, HLock))
  (* [mtx.lock()] *)
  | step_lock s i ps :
      workers s !! i = Some (ps, HLock) -> jmtx s = None ->
      pool_step s (mkPool (heap s) (jinstance s) (Some i) (plog s) (<[i := (ps, HCheck)]> (workers s))
                          (aborted s))
  (* [if(nullptr == instance)]: [instance = new JiebaUtil()], then
     [InitJiebaUtil] opens the stop-word file *)
  | step_new s i ps f :
      workers s !! i = Some (ps, HCheck) -> jinstance s = None -> stop_file = Some f ->
      pool_step s (mkPool (heap s ++ [new_jieba]) (Some (length (heap s))) (jmtx s) (plog s)
                      (<[i := (ps, HInit (getlines f))]> (workers s)) (aborted s))
  (* [new JiebaUtil()] without the stop-word file: the process aborts *)
  | step_abort s i ps :
      workers s !! i = Some (ps, HCheck) -> jinstance s = None -> stop_file = None ->
      pool_step s (mkPool (heap s) None None (plog s) [] true)
  | step_skip s i ps p :
      workers s !! i = Some (ps, HCheck) -> jinstance s = Some p ->
      pool_step s (set_worker s i (ps, HUnlock))
  (* one iteration of the [getline] loop: [instance->stop_words.insert] *)
  | step_init_word s i ps w ws p j :
      workers s !! i = Some (ps, HInit (w :: ws)) -> jinstance s = Some p ->
      heap s !! p = Some j ->
      pool_step s (mkPool (<[p := insert_stop_word w j]> (heap s)) (jinstance s) (jmtx s) (plog s)
                      (<[i := (ps, HInit ws)]> (workers s)) (aborted s))
  | step_init_done s i ps :
      workers s !! i = Some (ps, HInit []) ->
      pool_step s (set_worker s i (ps, HUnlock))
  (* [mtx.unlock()] *)
  | step_unlock s i ps :
      workers s !! i = Some (ps, HUnlock) ->
      pool_step s (mkPool (heap s) (jinstance s) None (plog s) (<[i := (ps, HRet)]> (workers s)) (aborted s))
  (* [return instance] *)
  | step_ret s i ps p :
      workers s !! i = Some (ps, HRet) -> jinstance s = Some p ->
      pool_step s (set_worker s i (ps, HCut p))
  (* [CutStringHelper] on the object as it is now; the rest of [search]
     reads the index and local data only, its calls are [search_log] *)
  | step_cut s i ps p j q inverted_all :
      workers s !! i = Some (ps, HCut p) -> heap s !! p = Some j ->
      get_param_value ps (txt "query") = Some q ->
      code_ranking (accumulate idx (query_words j q)) inverted_all ->
      pool_step s (set_worker s i (ps, HSearch (search_log now idx (query_words j q) inverted_all)
                                              (respond (build_results idx inverted_all))))
  (* one [LOG(Level::WARNING,...)] of [get_inverted_index] or [get_forward_index] *)
  | step_warn s i ps c cs resp l :
      workers s !! i = Some (ps, HSearch (c :: cs) resp) -> run_log pid [c] (plog s) = Some l ->
      pool_step s (mkPool (heap s) (jinstance s) (jmtx s) l (<[i := (ps, HSearch cs resp)]> (workers s))
                          (aborted s))
  (* [res.set_content(json_string, ...)] *)
  | step_reply s i ps resp :
      workers s !! i = Some (ps, HSearch [] resp) ->
      pool_step s (set_worker s i (ps, HDone resp)).

(** The statement thread [i] executes next, if it can; the search takes
    the spec's order, one of those of the code. *)
Definition worker_step (s : pool) (i : nat) : option pool :=
  '(ps, pc) ← workers s !! i;
  match pc with
  | HStart =>
      match get_param_value ps (txt "query") with
      | None => Some (set_worker s i (ps, HDone (PlainText query_required)))
      | Some _ => Some (set_worker s i (ps, HLog))
      end
  | HLog =>
      q ← get_param_value ps (txt "query");
      l ← run_log pid [query_call now q] (plog s);
      Some (mkPool (heap s) (jinstance s) (jmtx s) l (<[i := (ps, HGet)]> (workers s)) (aborted s))
  | HGet =>
      match jinstance s with
      | Some p => Some (set_worker s i (ps, HCut p))
      | None => Some (set_worker s i (ps, HLock))
      end
  | HLock =>
      match jmtx s with
      | None => Some (mkPool (heap s) (jinstance s) (Some i) (plog s) (<[i := (ps, HCheck)]> (workers s))
                             (aborted s))
      | Some _ => None
      end
  | HCheck =>
      match jinstance s, stop_file with
      | None, Some f => Some (mkPool (heap s ++ [new_jieba]) (Some (length (heap s))) (jmtx s) (plog s)
                                     (<[i := (ps, HInit (getlines f))]> (workers s)) (aborted s))
      | None, None => Some (mkPool (heap s) None None (plog s) [] true)
      | Some _, _ => Some (set_worker s i (ps, HUnlock))
      end
  | HInit (w :: ws) =>
      p ← jinstance s; j ← heap s !! p;
      Some (mkPool (<[p := insert_stop_word w j]> (heap s)) (jinstance s) (jmtx s) (plog s)
                    (<[i := (ps, HInit ws)]> (workers s)) (aborted s))
  | HInit [] => Some (set_worker s i (ps, HUnlock))
  | HUnlock => Some (mkPool (heap s) (jinstance s) None (plog s) (<[i := (ps, HRet)]> (workers s)) (aborted s))
  | HRet => p ← jinstance s; Some (set_worker s i (ps, HCut p))
  | HCut p =>
      j ← heap s !! p; q ← get_param_value ps (txt "query");
      let ranked := rank (accumulate idx (query_words j q)) in
      Some (set_worker s i (ps, HSearch (search_log now idx (query_words j q) ranked)
                                        (respond (build_results idx ranked))))
  | HSearch (c :: cs) resp =>
      l ← run_log pid [c] (plog s);
      Some (mkPool (heap s) (jinstance s) (jmtx s) l (<[i := (ps, HSearch cs resp)]> (workers s)) (aborted s))
  | HSearch [] resp => Some (set_worker s i (ps, HDone resp))
  | HDone _ => None
  end.

Fixpoint run_pool (s : pool) (sched : list nat) : option pool :=
  match sched with
  | [] => Some s
  | i :: sched' => s' ← worker_step s i; run_pool s' sched'
  end.
End serving.

(** ** The invariant *)

(** The calls of the sequential handler for [ps] on a well-formed index,
    with the complete table [j]: the query, then one WARNING per query
    word that has no posting list. *)
Definition full_calls `{Segmenter} (now : option tm) (j : JiebaUtil) (idx : Index) (ps : params)
    : list log_call :=
  match get_param_value ps (txt "query") with
  | Some q => query_call now q :: words_log now idx (query_words j q)
  | None => []
  end.

(** The calls a worker has made so far, when its table is [j]. *)
Definition emitted `{Segmenter} (now : option tm) (j : JiebaUtil) (idx : Index) (t : params * hpc)
    : list log_call :=
  match get_param_value t.1 (txt "query") with
  | None => []
  | Some q =>
      let W := words_log now idx (query_words j q) in
      match t.2 with
      | HStart | HLog => []
      | HSearch cs _ => query_call now q :: take (length W - length cs) W
      | HDone _ => query_call now q :: W
      | _ => [query_call now q]
      end
  end.

Definition done_pc (t : params * hpc) : bool :=
  match t.2 with HDone _ => true | _ => false end.

(** No worker has a statement left: every one returned, or the process
    aborted. *)
Definition finished (s : pool) : bool := forallb done_pc (workers s).

(** Every worker returned, and the process is alive. *)
Definition all_done (s : pool) : bool := negb (aborted s) && finished s.

(** Holding [mtx]: between [lock] and [unlock]. *)
Definition critical (pc : hpc) : Prop :=
  match pc with HCheck | HInit _ | HUnlock => True | _ => False end.

Definition is_init (pc : hpc) : Prop :=
  match pc with HInit _ => True | _ => False end.

(** A worker that has not yet needed the tokenizer. *)
Definition unused (t : params * hpc) : Prop :=
  match t.2 with
  | HStart | HLog | HGet | HLock | HCheck => True
  | HDone _ => get_param_value t.1 (txt "query") = None
  | _ => False
  end.

(** The number of words [CutForSearch] gives for the query: on a
    well-formed index, [search] makes at most that many [LOG] calls. *)
Definition qlen `{Segmenter} (ps : params) : nat :=
  match get_param_value ps (txt "query") with
  | Some q => length (cut_for_search q)
  | None => 0
  end.

Section invariant.
Context `{seg : Segmenter} (now : option tm) (pid : Z) (stop_file : option text) (idx : Index).
Context (inst0 : option JiebaUtil) (l0 : log_state) (reqs : list params).

(** The stop words loaded so far, with [ws] left to read. *)
Definition progress (j : JiebaUtil) (ws : list text) : Prop :=
  exists f done, stop_file = Some f /\ getlines f = done ++ ws /\ stop_words j = list_to_set done.

Definition worker_ok (s : pool) (t : params * hpc) : Prop :=
  match t.2 with
  | HStart => True
  | HDone resp => handle_s_code (InitJiebaUtil stop_file) idx t.1 resp
  | HSearch cs resp =>
      handle_s_code (InitJiebaUtil stop_file) idx t.1 resp /\
      Forall (fun c => forall l, is_Some (run_log pid [c] l)) cs /\
      exists q, get_param_value t.1 (txt "query") = Some q /\
        (inst0 ≠ None -> cs `suffix_of` words_log now idx (query_words (InitJiebaUtil stop_file) q))
  | pc =>
      is_Some (get_param_value t.1 (txt "query")) /\
      match pc with
      | HInit ws => jinstance s = Some 0 /\ inst0 = None /\ exists j, heap s = [j] /\ progress j ws
      | HUnlock | HRet => jinstance s = Some 0
      | HCut p => p = 0 /\ jinstance s = Some 0
      | _ => True
      end
  end.

Record pool_inv (s : pool) : Prop := {
  inv_reqs : aborted s = false -> fst <$> workers s = reqs;
  inv_abort : aborted s = true -> workers s = [] /\ inst0 = None /\ stop_file = None;
  inv_obj : match inst0 with
            | Some j0 => heap s = [j0] /\ jinstance s = Some 0
            | None => (heap s = [] /\ jinstance s = None) \/ (length (heap s) = 1 /\ jinstance s = Some 0)
            end;
  inv_table : forall j, inst0 = None -> heap s = [j] ->
              Forall (fun t => ¬ is_init t.2) (workers s) -> j = InitJiebaUtil stop_file;
  inv_mtx : forall i, jmtx s = Some i <-> exists t, workers s !! i = Some t /\ critical t.2;
  inv_threads : Forall (worker_ok s) (workers s);
  inv_unused : jinstance s = None -> Forall unused (workers s);
  inv_log : inst0 ≠ None ->
            exists cs, cs ≡ₚ workers s ≫= emitted now (InitJiebaUtil stop_file) idx
                       /\ run_log pid cs l0 = Some (plog s);
}.
End invariant.

(** Statements left to a worker, [LOG] calls of [search] included: the
    measure of termination; [n] is the number of lines of the stop-word
    file. *)
Definition worker_remaining `{Segmenter} (n : nat) (t : params * hpc) : nat :=
  match t.2 with
  | HDone _ => 0
  | HSearch cs _ => 1 + length cs
  | HCut _ => 2 + qlen t.1
  | HRet => 3 + qlen t.1
  | HUnlock => 4 + qlen t.1
  | HInit ws => 5 + qlen t.1 + length ws
  | HCheck => 6 + qlen t.1 + n
  | HLock => 7 + qlen t.1 + n
  | HGet => 8 + qlen t.1 + n
  | HLog => 9 + qlen t.1 + n
  | HStart => 10 + qlen t.1 + n
  end.

Definition pool_measure `{Segmenter} (n : nat) (s : pool) : nat := sum_list (worker_remaining n <$> workers s).

Definition stop_lines (stop_file : option text) : nat := length (default [] (getlines <$> stop_file)).

(** ** Runs for the witnesses *)

(** A corpus of one document, the stop-word file ["a"], and three
    requests: two queries and one request without [query]. *)
Definition demo_corpus : text := txt "Boost" ++ [SEP] ++ txt "fast search" ++ [SEP] ++ txt "u".

Definition demo_stop_file : option text := Some (txt "a").

Definition demo_reqs : list params :=
  [[(txt "query", txt "search")]; []; [(txt "query", txt "boost")]].

Definition demo_process : process :=
  default (mkProcess None None log_init)
          (server_start (seg := space_segmenter) None 1 demo_stop_file (Some demo_corpus) (Some [])).

Definition demo_schedule : list nat := [0; 2; 0; 2; 1; 0; 2; 0; 2; 0; 2].

Definition demo_final : pool :=
  default (pool_start None log_init [])
          (run_pool (seg := space_segmenter) None 1 demo_stop_file (index_get_instance (p_index demo_process))
                    (pool_start (p_jieba demo_process) (p_log demo_process) demo_reqs) demo_schedule).

(** A corpus with no well-formed line: the tokenizer is not created at
    start-up, and two requests for the stop word ["a"] race to create it. *)
Definition early_stop_file : text := txt "a" ++ [newline] ++ txt "b".

Definition early_req : params := [(txt "query", txt "a")].

Definition early_process : process :=
  default (mkProcess None None log_init)
          (server_start (seg := space_segmenter) None 1 (Some early_stop_file) (Some (txt "x")) (Some [])).

Definition early_schedule : list nat := [0; 0; 0; 0; 0; 1; 1; 1].

Definition early_state : pool :=
  default (pool_start None log_init [])
          (run_pool (seg := space_segmenter) None 1 (Some early_stop_file)
                    (index_get_instance (p_index early_process))
                    (pool_start (p_jieba early_process) (p_log early_process) [early_req; early_req])
                    early_schedule).

(** ** Lemmas *)

Lemma run_log_query_call pid now q l : exists l', run_log pid [query_call now q] l = Some l'.
Proof. eexists; reflexivity. Qed.

Lemma fst_insert (ts : list (params * hpc)) i ps pc pc' :
  ts !! i = Some (ps, pc) -> fst <$> <[i := (ps, pc')]> ts = fst <$> ts.
Proof. intros Hi. by apply (fmap_insert_same fst _ _ _ _ Hi). Qed.

(** Every [LOG] call of [search] writes its record. *)
Lemma search_log_runs pid now idx ws inverted_all :
  Forall (fun c => forall l, is_Some (run_log pid [c] l)) (search_log now idx ws inverted_all).
Proof.
  unfold search_log, words_log. apply Forall_app. split; apply Forall_bind, Forall_forall; intros x _;
    unfold compose, get_inverted_index_log, get_forward_index_log; case_match;
    repeat constructor; intros l; eexists; reflexivity.
Qed.

Lemma length_words_log now idx ws : length (words_log now idx ws) <= length ws.
Proof.
  unfold words_log. induction ws as [|w ws IH]; [done|]. rewrite bind_cons, length_app.
  assert (length (get_inverted_index_log now idx (to_lower w)) <= 1)
    by (unfold get_inverted_index_log; case_match; cbn; lia).
  cbn [length]. lia.
Qed.

(** One more call of [search] made: the calls made so far grow by it. *)
Lemma take_pending {B} (pre cs : list B) c :
  take (length (pre ++ c :: cs) - length cs) (pre ++ c :: cs)
  = take (length (pre ++ c :: cs) - length (c :: cs)) (pre ++ c :: cs) ++ [c].
Proof.
  rewrite length_app. cbn [length].
  replace (length pre + S (length cs) - length cs) with (length pre + 1) by lia.
  replace (length pre + S (length cs) - S (length cs)) with (length pre) by lia.
  by rewrite take_app_add, take_app_length.
Qed.

(** On a well-formed index, [search] makes at most one [LOG] call per
    word [CutForSearch] gives. *)
Lemma search_log_length `{seg : Segmenter} now j0 j idx q inverted_all :
  index_wf j0 idx -> code_ranking (accumulate idx (query_words j q)) inverted_all ->
  length (search_log now idx (query_words j q) inverted_all) <= length (cut_for_search q).
Proof.
  intros Hwf Hr. rewrite (search_log_wf now j0 idx _ _ Hwf (proj1 Hr)).
  etransitivity; [apply length_words_log|]. apply length_filter.
Qed.

Section exec.
Context `{seg : Segmenter} (now : option tm) (pid : Z) (stop_file : option text) (idx : Index).

(** The executable [worker_step] makes a statement of [pool_step]. *)
Lemma worker_step_sound s i s' : worker_step now pid stop_file idx s i = Some s' -> pool_step now pid stop_file idx s s'.
Proof.
  unfold worker_step. destruct (workers s !! i) as [[ps pc]|] eqn:Hi; [cbn|done].
  destruct pc as [| | | | |[|w ws]| | |p|[|c cs] resp|resp].
  - destruct (get_param_value ps _) eqn:Hq; intros [= <-]; by econstructor.
  - destruct (get_param_value ps _) as [q|] eqn:Hq; [cbn|done].
    destruct (run_log pid [query_call now q] (plog s)) eqn:Hl; intros [= <-]; by econstructor.
  - destruct (jinstance s) eqn:?; intros [= <-]; by econstructor.
  - destruct (jmtx s) eqn:?; intros [= <-]; by econstructor.
  - destruct (jinstance s) eqn:?; [intros [= <-]; by econstructor|].
    destruct stop_file eqn:?; intros [= <-]; [eapply step_new | eapply step_abort]; done.
  - intros [= <-]. by econstructor.
  - destruct (jinstance s) as [p|] eqn:Hp; [cbn|done]. destruct (heap s !! p) eqn:?; [cbn|done].
    intros [= <-]. rewrite <- Hp. by eapply step_init_word.
  - intros [= <-]. by econstructor.
  - destruct (jinstance s) eqn:?; intros [= <-]; by econstructor.
  - destruct (heap s !! p) as [j|] eqn:Hj; [cbn|done].
    destruct (get_param_value ps _) as [q|] eqn:Hq; intros [= <-].
    eapply step_cut; [done.. | apply rank_code_ranking].
  - intros [= <-]. by econstructor.
  - destruct (log_message _ _ _ _ _ _ pid (plog s)) eqn:Hl; [|done]. cbn. intros [= <-].
    eapply step_warn; [done|]. cbn. by rewrite Hl.
  - done.
Qed.

Lemma run_pool_rtc s sched s' : run_pool now pid stop_file idx s sched = Some s' -> rtc (pool_step now pid stop_file idx) s s'.
Proof.
  revert s. induction sched as [|i sched IH]; intros s H; cbn in H.
  - by injection H as ->.
  - destruct (worker_step _ _ _ _ s i) as [s1|] eqn:E; [|done].
    eapply rtc_l; [exact (worker_step_sound _ _ _ E) | by apply IH].
Qed.
End exec.

Section lemmas.
Context `{seg : Segmenter} (now : option tm) (pid : Z) (stop_file : option text) (idx : Index).
Context (inst0 : option JiebaUtil) (l0 : log_state) (reqs : list params).
Hypothesis Hstart : inst0 = Some (InitJiebaUtil stop_file) \/ (inst0 = None /\ idx = empty_index).
Hypothesis Hwf : index_wf (InitJiebaUtil stop_file) idx.

Local Abbreviation INV := (pool_inv now pid stop_file idx inst0 l0 reqs).
Local Abbreviation OK := (worker_ok now pid stop_file idx inst0).
Local Abbreviation EM := (emitted now (InitJiebaUtil stop_file) idx).
Local Abbreviation W q := (words_log now idx (query_words (InitJiebaUtil stop_file) q)).

Lemma thread_ok_shared s s' t :
  heap s' = heap s -> jinstance s' = jinstance s -> OK s t -> OK s' t.
Proof. intros Hh Hi. destruct t as [ps []]; cbn; by rewrite ?Hh, ?Hi. Qed.

Lemma thread_ok_not_init s s' t :
  jinstance s' = jinstance s -> ¬ is_init t.2 -> OK s t -> OK s' t.
Proof. intros Hi. destruct t as [ps []]; cbn; by rewrite ?Hi. Qed.

Lemma thread_ok_unused s s' t : unused t -> OK s t -> OK s' t.
Proof. destruct t as [ps []]; cbn; naive_solver. Qed.

Lemma inv_instance s p : INV s -> jinstance s = Some p -> p = 0 /\ exists j, heap s = [j].
Proof.
  intros Hinv Hp. pose proof (inv_obj _ _ _ _ _ _ _ _ Hinv) as Ho.
  destruct inst0; [destruct Ho as [-> Hi]; rewrite Hi in Hp; naive_solver|].
  destruct Ho as [[_ Hi]|[Hl Hi]]; rewrite Hi in Hp; [done|].
  destruct (heap s) as [|j [|]]; simplify_eq/=; eauto.
Qed.

(** With the tokenizer created at start-up, the object is the complete
    table and [instance] never changes. *)
Lemma inv_set_at_start s j0 : INV s -> inst0 = Some j0 -> heap s = [InitJiebaUtil stop_file] /\ jinstance s = Some 0.
Proof.
  intros Hinv H0. pose proof (inv_obj _ _ _ _ _ _ _ _ Hinv) as Ho. rewrite H0 in Ho.
  destruct Hstart as [H1 | [H1 _]]; rewrite H0 in H1; [|done]. injection H1 as ->. done.
Qed.

Lemma inv_thread_ok s i t : INV s -> workers s !! i = Some t -> OK s t.
Proof. intros Hinv Hi. eapply Forall_lookup_1; [apply Hinv | exact Hi]. Qed.

(** A process with a worker has not aborted. *)
Lemma inv_alive s i t : INV s -> workers s !! i = Some t -> aborted s = false.
Proof.
  intros Hinv Hi. destruct (aborted s) eqn:Ha; [|done].
  destruct (inv_abort _ _ _ _ _ _ _ _ Hinv Ha) as [Hw _]. by rewrite Hw in Hi.
Qed.

(** A worker past [get_instance] sees [instance] set. *)
Lemma inv_used s i ps pc : INV s -> workers s !! i = Some (ps, pc) -> ¬ unused (ps, pc) -> jinstance s ≠ None.
Proof.
  intros Hinv Hi Hu Hn. apply Hu. exact (Forall_lookup_1 _ _ _ _ (inv_unused _ _ _ _ _ _ _ _ Hinv Hn) Hi).
Qed.

(** At most one worker holds [mtx]. *)
Lemma inv_critical_unique s i k t t' :
  INV s -> workers s !! i = Some t -> critical t.2 -> workers s !! k = Some t' -> critical t'.2 ->
  k = i.
Proof.
  intros Hinv Hi Hc Hk Hc'.
  assert (Hmi : jmtx s = Some i) by (apply (inv_mtx _ _ _ _ _ _ _ _ Hinv); eauto).
  assert (Hmk : jmtx s = Some k) by (apply (inv_mtx _ _ _ _ _ _ _ _ Hinv); eauto).
  congruence.
Qed.

(** The response of a worker that cut its query with the object [j]: the
    sequential one when [j] is complete, or when the index is empty. *)
Lemma handle_s_cut j ps q r :
  (j = InitJiebaUtil stop_file \/ idx = empty_index) ->
  get_param_value ps (txt "query") = Some q -> search_code j idx q r ->
  handle_s_code (InitJiebaUtil stop_file) idx ps (respond r).
Proof.
  intros Hj Hq Hr. unfold handle_s_code. rewrite Hq. destruct Hj as [<- | ->]; [by exists r|].
  apply search_code_no_scores in Hr as ->; [|apply accumulate_empty_index].
  exists (Some []). split; [|done]. apply search_code_no_scores; [apply accumulate_empty_index | done].
Qed.

Lemma pool_inv_start : INV (pool_start inst0 l0 reqs).
Proof.
  assert (Hts : forall P : params * hpc -> Prop, (forall ps, P (ps, HStart)) ->
                Forall P ((., HStart) <$> reqs)).
  { intros P HP. apply Forall_fmap, Forall_forall. intros ps _. apply HP. }
  assert (Hfst : fst <$> ((., HStart) <$> reqs) = reqs).
  { rewrite <- list_fmap_compose. apply list_fmap_id. }
  assert (Hem : (((., HStart) <$> reqs) ≫= EM) = []).
  { clear Hts Hfst. induction reqs as [|ps rs IH]; [done|]. rewrite fmap_cons, bind_cons, IH, app_nil_r.
    unfold emitted. cbn [fst snd]. by destruct (get_param_value ps _). }
  assert (Hmtx : forall i, None = Some i <->
                 exists t, ((., HStart) <$> reqs) !! i = Some t /\ critical t.2).
  { intros i. split; [done|]. intros (t & Ht & Hc).
    apply list_lookup_fmap_Some in Ht as (ps & -> & _). done. }
  destruct Hstart as [-> | [-> _]]; split; cbn [heap jinstance jmtx workers plog aborted pool_start];
    try exact Hfst; try exact Hmtx; try (apply Hts; intros; exact I); try done.
  - intros _. exists []. rewrite Hem. by split.
  - by left.
  - intros _. apply Hts. intros; exact I.
Qed.

(** A statement of worker [i] that leaves the tokenizer alone: it moves
    from [pc] to [pc'], may take or release [mtx] ([m']) and may write
    the calls [new] to the log. *)
Lemma inv_update s i ps pc pc' m' l' new :
  INV s -> workers s !! i = Some (ps, pc) ->
  (forall j, inst0 = None -> heap s = [j] ->
     Forall (fun t => ¬ is_init t.2) (<[i := (ps, pc')]> (workers s)) -> j = InitJiebaUtil stop_file) ->
  (forall k, m' = Some k <-> exists t, <[i := (ps, pc')]> (workers s) !! k = Some t /\ critical t.2) ->
  (inst0 ≠ None -> EM (ps, pc') = EM (ps, pc) ++ new) ->
  run_log pid new (plog s) = Some l' ->
  OK s (ps, pc') -> (jinstance s = None -> unused (ps, pc')) ->
  INV (mkPool (heap s) (jinstance s) m' l' (<[i := (ps, pc')]> (workers s)) (aborted s)).
Proof.
  intros Hinv Hi Htab Hm' He Hnew Hok Hun. pose proof (inv_alive s i _ Hinv Hi) as Ha.
  destruct Hinv as [Hr Hab Ho Ht Hm Hth Hu Hl].
  split; cbn [heap jinstance jmtx plog workers aborted].
  - intros _. by rewrite (fst_insert _ _ _ _ _ Hi), Hr.
  - by rewrite Ha.
  - done.
  - exact Htab.
  - exact Hm'.
  - eapply Forall_insert_at; [exact Hth | | exact Hok]. intros. by eapply thread_ok_shared.
  - intros Hn. eapply Forall_insert_at; [exact (Hu Hn) | | exact (Hun Hn)]. done.
  - intros H0. destruct (Hl H0) as (cs & Hp & Hrun). exists (cs ++ new). split.
    + pose proof (bind_insert_perm EM _ _ _ (ps, pc') Hi) as Hb.
      rewrite (He H0), (assoc (++)) in Hb.
      assert (Hb' : <[i := (ps, pc')]> (workers s) ≫= EM ≡ₚ (workers s ≫= EM) ++ new).
      { apply (Permutation_app_inv_r (EM (ps, pc))). rewrite Hb. solve_Permutation. }
      by rewrite Hp, Hb'.
    + by rewrite run_log_app, Hrun.
Qed.

(** The table is complete when no worker is in [InitJiebaUtil]; a
    worker that is not there cannot change that. *)
Lemma table_same s i ps pc pc' :
  INV s -> workers s !! i = Some (ps, pc) -> ¬ is_init pc ->
  forall j, inst0 = None -> heap s = [j] ->
    Forall (fun t => ¬ is_init t.2) (<[i := (ps, pc')]> (workers s)) -> j = InitJiebaUtil stop_file.
Proof.
  intros Hinv Hi Hni j H0 Hj Hall. apply (inv_table _ _ _ _ _ _ _ _ Hinv); [done..|].
  rewrite Forall_lookup in Hall |- *. intros k t Hk.
  destruct (decide (k = i)) as [->|Hki]; [by simplify_eq|].
  apply (Hall k). by rewrite (lookup_insert_at _ _ _ _ _ Hi), decide_False.
Qed.

(** [mtx] is unchanged when worker [i] neither enters nor leaves the
    critical section. *)
Lemma mtx_same s i ps pc pc' :
  INV s -> workers s !! i = Some (ps, pc) -> (critical pc' <-> critical pc) ->
  forall k, jmtx s = Some k <-> exists t, <[i := (ps, pc')]> (workers s) !! k = Some t /\ critical t.2.
Proof.
  intros Hinv Hi Hc k. rewrite (inv_mtx _ _ _ _ _ _ _ _ Hinv), (lookup_insert_at _ _ _ _ _ Hi).
  case_decide; [subst|done]. rewrite Hi. naive_solver.
Qed.

Lemma inv_set_pc s i ps pc pc' :
  INV s -> workers s !! i = Some (ps, pc) -> ¬ is_init pc ->
  (critical pc' <-> critical pc) -> (inst0 ≠ None -> EM (ps, pc') = EM (ps, pc)) ->
  OK s (ps, pc') -> (jinstance s = None -> unused (ps, pc')) ->
  INV (set_worker s i (ps, pc')).
Proof.
  intros Hinv Hi Hni Hc He Hok Hun. unfold set_worker.
  eapply (inv_update _ _ _ _ _ _ _ []); try done.
  - by apply (table_same s i ps pc).
  - by apply (mtx_same s i ps pc).
  - intros H0. by rewrite app_nil_r, He.
Qed.

(** Only the worker holding [mtx] runs [InitJiebaUtil]. *)
Lemma init_unique s i ps ws k t :
  INV s -> workers s !! i = Some (ps, HInit ws) -> workers s !! k = Some t -> is_init t.2 -> k = i.
Proof.
  intros Hinv Hi Hk Ht. eapply inv_critical_unique; [exact Hinv | exact Hi | done | exact Hk |].
  destruct t as [? []]; done.
Qed.

(** [instance = new JiebaUtil()]: the object is published with no stop word. *)
Lemma inv_new s i ps f :
  INV s -> workers s !! i = Some (ps, HCheck) -> jinstance s = None -> stop_file = Some f ->
  INV (mkPool (heap s ++ [new_jieba]) (Some (length (heap s))) (jmtx s) (plog s)
               (<[i := (ps, HInit (getlines f))]> (workers s)) (aborted s)).
Proof.
  intros Hinv Hi Hn Hsf. pose proof (inv_alive s i _ Hinv Hi) as Ha.
  destruct Hinv as [Hr Hab Ho Ht Hm Hth Hu Hl] eqn:Hinv'.
  assert (H0 : inst0 = None /\ heap s = []).
  { destruct inst0; [destruct Ho; congruence|]. destruct Ho as [[??]|[? ?]]; [done | congruence]. }
  destruct H0 as [H0 Hh]. rewrite Hh. pose proof (Hu Hn) as Hun.
  split; cbn [heap jinstance jmtx plog workers aborted app length].
  - intros _. by rewrite (fst_insert _ _ _ _ _ Hi), Hr.
  - by rewrite Ha.
  - rewrite H0. by right.
  - intros j _ _ Hall. rewrite Forall_lookup in Hall.
    destruct (Hall i (ps, HInit (getlines f))); [|done].
    rewrite list_lookup_insert_eq; [done|]. by eapply lookup_lt_Some.
  - by apply (mtx_same s i ps HCheck).
  - eapply Forall_insert_at; [exact Hun | | ].
    + intros k t _ Hk Ht'. eapply thread_ok_unused; [exact Ht'|]. eapply Forall_lookup_1; [exact Hth | exact Hk].
    + pose proof (inv_thread_ok s i _ Hinv Hi) as [Hq _]. cbn. split; [done|]. split_and!; [done..|].
      exists new_jieba. split; [done|]. exists f, []. split_and!; done.
  - done.
  - by rewrite H0.
Qed.

(** [new JiebaUtil()] without the stop-word file: the process is gone. *)
Lemma inv_abort_step s i ps :
  INV s -> workers s !! i = Some (ps, HCheck) -> jinstance s = None -> stop_file = None ->
  INV (mkPool (heap s) None None (plog s) [] true).
Proof.
  intros Hinv Hi Hn Hsf. destruct Hinv as [Hr Hab Ho Ht Hm Hth Hu Hl].
  assert (H0 : inst0 = None /\ heap s = []).
  { destruct inst0; [destruct Ho; congruence|]. destruct Ho as [[??]|[? ?]]; [done | congruence]. }
  destruct H0 as [H0 Hh].
  split; cbn [heap jinstance jmtx plog workers aborted].
  - done.
  - intros _. by split_and!.
  - rewrite H0. by left.
  - intros j _ Hj. congruence.
  - intros i'. split; [done|]. by intros (t & Ht' & _).
  - constructor.
  - intros _. constructor.
  - by rewrite H0.
Qed.

(** One line of the stop-word file read into the published object. *)
Lemma inv_init_word s i ps w ws p j :
  INV s -> workers s !! i = Some (ps, HInit (w :: ws)) -> jinstance s = Some p ->
  heap s !! p = Some j ->
  INV (mkPool (<[p := insert_stop_word w j]> (heap s)) (jinstance s) (jmtx s) (plog s)
               (<[i := (ps, HInit ws)]> (workers s)) (aborted s)).
Proof.
  intros Hinv Hi Hp Hj. pose proof (inv_alive s i _ Hinv Hi) as Ha.
  destruct (inv_thread_ok s i _ Hinv Hi) as [Hq (Hn & H0 & j0 & Hh & f & done & Hsf & Hlines & Hsw)].
  rewrite Hn in Hp. injection Hp as <-. rewrite Hh in Hj. injection Hj as ->.
  destruct Hinv as [Hr Hab Ho Ht Hm Hth Hu Hl] eqn:Hinv'.
  split; cbn [heap jinstance jmtx plog workers aborted]; rewrite ?Hh.
  - intros _. by rewrite (fst_insert _ _ _ _ _ Hi), Hr.
  - by rewrite Ha.
  - rewrite H0. right. by split.
  - intros j' _ _ Hall. rewrite Forall_lookup in Hall.
    destruct (Hall i (ps, HInit ws)); [|done].
    rewrite list_lookup_insert_eq; [done|]. by eapply lookup_lt_Some.
  - by apply (mtx_same s i ps (HInit (w :: ws))).
  - eapply Forall_insert_at; [exact Hth | |].
    + intros k t Hki Hk Hok. eapply (thread_ok_not_init s); [done | | exact Hok].
      intros Hit. by apply Hki, (init_unique s i ps (w :: ws) k t).
    + split; [done|]. split_and!; [done..|]. eexists. split; [done|].
      exists f, (done ++ [w]). split_and!; [done | by rewrite Hlines, <- (assoc (++)) |].
      cbn. rewrite Hsw, list_to_set_app_L. set_solver.
  - by rewrite Hn.
  - by rewrite H0.
Qed.

(** The end of the [getline] loop: the object holds the whole table. *)
Lemma inv_init_done s i ps :
  INV s -> workers s !! i = Some (ps, HInit []) -> INV (set_worker s i (ps, HUnlock)).
Proof.
  intros Hinv Hi.
  destruct (inv_thread_ok s i _ Hinv Hi) as [Hq (Hn & H0 & j0 & Hh & f & done & Hsf & Hlines & Hsw)].
  unfold set_worker. eapply (inv_update _ _ _ _ _ _ _ []); try done.
  - intros j _ Hj _. rewrite Hh in Hj. injection Hj as <-. rewrite Hsf. destruct j0 as [sw].
    cbn in Hsw |- *. by rewrite Hsw, Hlines, app_nil_r.
  - by apply (mtx_same s i ps (HInit [])).
  - by rewrite Hn.
Qed.

(** The side conditions on program counters. *)
Local Ltac solve_side :=
  solve [done | cbn; tauto | naive_solver
        | intros; unfold emitted; cbn [fst snd]; by destruct (get_param_value _ _)].

(** [mtx.lock()] with the mutex free, and [mtx.unlock()]. *)
Lemma mtx_take s i ps pc pc' :
  INV s -> workers s !! i = Some (ps, pc) -> jmtx s = None -> critical pc' ->
  forall k, Some i = Some k <-> exists t, <[i := (ps, pc')]> (workers s) !! k = Some t /\ critical t.2.
Proof.
  intros Hinv Hi Hm Hc k. rewrite (lookup_insert_at _ _ _ _ _ Hi).
  case_decide as Hk; [subst; naive_solver|]. split; [congruence|].
  intros Ht. apply (inv_mtx _ _ _ _ _ _ _ _ Hinv) in Ht. congruence.
Qed.

Lemma mtx_release s i ps pc' :
  INV s -> workers s !! i = Some (ps, HUnlock) -> ¬ critical pc' ->
  forall k, None = Some k <-> exists t, <[i := (ps, pc')]> (workers s) !! k = Some t /\ critical t.2.
Proof.
  intros Hinv Hi Hc k. rewrite (lookup_insert_at _ _ _ _ _ Hi).
  case_decide as Hk; [subst; naive_solver|]. split; [done|]. intros (t & Ht & Hct).
  exfalso. by apply Hk, eq_sym, (inv_critical_unique s i k (ps, HUnlock) t).
Qed.

(** [CutStringHelper], then the rest of [search] up to its first [LOG]
    call: with the tokenizer set at start-up, the calls left are those of
    the sequential handler. *)
Lemma inv_cut s i ps p j q inverted_all :
  INV s -> workers s !! i = Some (ps, HCut p) -> heap s !! p = Some j ->
  get_param_value ps (txt "query") = Some q ->
  code_ranking (accumulate idx (query_words j q)) inverted_all ->
  INV (set_worker s i (ps, HSearch (search_log now idx (query_words j q) inverted_all)
                                   (respond (build_results idx inverted_all)))).
Proof.
  intros Hinv Hi Hj Hq Hr. destruct (inv_thread_ok s i _ Hinv Hi) as [_ [-> Hn]].
  assert (Hjc : inst0 ≠ None -> j = InitJiebaUtil stop_file).
  { intros H0. assert (Hj0 : exists j0, inst0 = Some j0) by (destruct inst0; [eauto | done]).
    destruct Hj0 as [j0 E]. destruct (inv_set_at_start s j0 Hinv E) as [Hh _]. rewrite Hh in Hj. by injection Hj as <-. }
  assert (Hsl : inst0 ≠ None -> search_log now idx (query_words j q) inverted_all = W q).
  { intros H0. rewrite (Hjc H0) in Hr |- *. apply (search_log_wf now _ idx _ _ Hwf), Hr. }
  apply (inv_set_pc s i ps (HCut 0)); try solve_side.
  - intros H0. unfold emitted. cbn [fst snd]. rewrite Hq. cbn beta iota zeta.
    by rewrite (Hsl H0), Nat.sub_diag, take_0.
  - cbn [worker_ok fst snd]. split_and!.
    + apply (handle_s_cut j ps q); [| done | by exists inverted_all].
      destruct Hstart as [H0 | [_ ->]]; [left | by right]. apply Hjc. by rewrite H0.
    + apply search_log_runs.
    + exists q. split; [done|]. intros H0. rewrite (Hsl H0). by exists [].
Qed.

(** One [LOG] call of [search]. *)
Lemma inv_warn s i ps c cs resp l :
  INV s -> workers s !! i = Some (ps, HSearch (c :: cs) resp) -> run_log pid [c] (plog s) = Some l ->
  INV (mkPool (heap s) (jinstance s) (jmtx s) l (<[i := (ps, HSearch cs resp)]> (workers s)) (aborted s)).
Proof.
  intros Hinv Hi Hl. destruct (inv_thread_ok s i _ Hinv Hi) as (Hresp & Hruns & q & Hq & Hsuf).
  cbn [fst] in Hq.
  eapply (inv_update s i ps _ _ _ _ [c]); try solve_side.
  - apply (table_same s i ps (HSearch (c :: cs) resp)); solve_side.
  - apply (mtx_same s i ps (HSearch (c :: cs) resp)); solve_side.
  - intros H0. destruct (Hsuf H0) as [pre Hpre]. unfold emitted. cbn [fst snd]. rewrite Hq.
    cbn beta iota zeta. by rewrite Hpre, take_pending.
  - cbn [worker_ok fst snd]. split_and!; [done | by apply Forall_cons in Hruns as [_ ?] |].
    exists q. split; [done|]. intros H0. destruct (Hsuf H0) as [pre ->].
    exists (pre ++ [c]). by rewrite <- (assoc (++)).
  - intros Hn. exfalso. apply (inv_used s i ps (HSearch (c :: cs) resp) Hinv Hi); [cbn; tauto | done].
Qed.

(** [res.set_content]: the worker returns with the calls of the
    sequential handler made. *)
Lemma inv_reply s i ps resp :
  INV s -> workers s !! i = Some (ps, HSearch [] resp) -> INV (set_worker s i (ps, HDone resp)).
Proof.
  intros Hinv Hi. destruct (inv_thread_ok s i _ Hinv Hi) as (Hresp & _ & q & Hq & _).
  cbn [fst] in Hq.
  apply (inv_set_pc s i ps (HSearch [] resp)); try solve_side.
  - intros _. unfold emitted. cbn [fst snd]. rewrite Hq. cbn beta iota zeta.
    rewrite Nat.sub_0_r, take_ge; done.
  - intros Hn. exfalso. apply (inv_used s i ps (HSearch [] resp) Hinv Hi); [cbn; tauto | done].
Qed.

(** The invariant is preserved by every statement of every worker. *)
Lemma pool_inv_step s s' : INV s -> pool_step now pid stop_file idx s s' -> INV s'.
Proof.
  intros Hinv Hst.
  destruct Hst as [s i ps Hi Hq|s i ps q Hi Hq|s i ps q l Hi Hq Hl|s i ps p Hi Hp|s i ps Hi Hn
                  |s i ps Hi Hm|s i ps f Hi Hn Hsf|s i ps Hi Hn Hsf|s i ps p Hi Hp|s i ps w ws p j Hi Hp Hj
                  |s i ps Hi|s i ps Hi|s i ps p Hi Hp|s i ps p j q r Hi Hj Hq Hr|s i ps c cs resp l Hi Hl
                  |s i ps resp Hi];
    pose proof (inv_thread_ok s i _ Hinv Hi) as Hok; cbn in Hok.
  - apply (inv_set_pc s i ps HStart); try solve_side.
    cbn [worker_ok fst snd]. unfold handle_s_code. by rewrite Hq.
  - apply (inv_set_pc s i ps HStart); try solve_side.
  - eapply (inv_update s i ps HLog _ _ _ [query_call now q]); try solve_side.
    + apply (table_same s i ps HLog); solve_side.
    + apply (mtx_same s i ps HLog); solve_side.
    + intros _. unfold emitted. cbn [fst snd]. by rewrite Hq.
  - destruct (inv_instance s p Hinv Hp) as [-> _].
    apply (inv_set_pc s i ps HGet); solve_side.
  - apply (inv_set_pc s i ps HGet); solve_side.
  - eapply (inv_update s i ps HLock _ _ _ []); try solve_side.
    + apply (table_same s i ps HLock); solve_side.
    + apply (mtx_take s i ps HLock); solve_side.
  - by eapply inv_new.
  - by eapply inv_abort_step.
  - destruct (inv_instance s p Hinv Hp) as [-> _].
    apply (inv_set_pc s i ps HCheck); solve_side.
  - by eapply inv_init_word.
  - by apply inv_init_done.
  - eapply (inv_update s i ps HUnlock _ _ _ []); try solve_side.
    + apply (table_same s i ps HUnlock); solve_side.
    + apply (mtx_release s i ps HRet); solve_side.
  - destruct (inv_instance s p Hinv Hp) as [-> _].
    apply (inv_set_pc s i ps HRet); solve_side.
  - by eapply inv_cut.
  - by eapply inv_warn.
  - by apply inv_reply.
Qed.

Lemma pool_rtc_inv s s' : rtc (pool_step now pid stop_file idx) s s' -> INV s -> INV s'.
Proof. induction 1; eauto using pool_inv_step. Qed.

(** A worker that has not returned can run a statement, unless it waits
    for [mtx]. *)
Lemma worker_step_blocked s i t :
  INV s -> workers s !! i = Some t -> done_pc t = false -> worker_step now pid stop_file idx s i = None ->
  t.2 = HLock /\ exists h, jmtx s = Some h.
Proof.
  intros Hinv Hi Hd. pose proof (inv_thread_ok s i _ Hinv Hi) as Hok.
  unfold worker_step. rewrite Hi. destruct t as [ps pc]; cbn -[get_param_value run_log].
  destruct pc as [| | | | |[|w ws]| | |p|[|c cs] resp|resp]; cbn -[get_param_value run_log] in Hok |- *.
  - by destruct (get_param_value ps _).
  - destruct Hok as [[q ->] _]. cbn -[run_log].
    by destruct (run_log_query_call pid now q (plog s)) as [? ->].
  - by destruct (jinstance s).
  - destruct (jmtx s); [eauto | done].
  - by destruct (jinstance s), stop_file.
  - done.
  - destruct Hok as [_ (-> & _ & j & -> & _)]. done.
  - done.
  - destruct Hok as [_ ->]. done.
  - destruct Hok as [[q ->] [-> Hn]]. destruct (inv_instance s 0 Hinv Hn) as [_ [j ->]]. done.
  - done.
  - destruct Hok as (_ & Hruns & _). apply Forall_cons in Hruns as [Hc _].
    destruct (Hc (plog s)) as [l Hl]. by rewrite Hl.
  - done.
Qed.

(** No deadlock: while a worker has a statement left, some statement can
    run. *)
Lemma pool_progress s : INV s -> finished s = false -> exists s', pool_step now pid stop_file idx s s'.
Proof.
  intros Hinv Hnd. destruct (forallb_false _ _ Hnd) as (i & t & Hi & Ht).
  destruct (worker_step now pid stop_file idx s i) as [s'|] eqn:E; [eauto using worker_step_sound|].
  destruct (worker_step_blocked s i t Hinv Hi Ht E) as [_ [h Hh]].
  apply (inv_mtx _ _ _ _ _ _ _ _ Hinv) in Hh as (t' & Hh & Hc).
  destruct (worker_step now pid stop_file idx s h) as [s'|] eqn:Eh; [eauto using worker_step_sound|].
  destruct (worker_step_blocked s h t' Hinv Hh) as [Hl _]; [|done|].
  - destruct t' as [? []]; done.
  - by rewrite Hl in Hc.
Qed.

(** Every statement decreases the statements left. *)
Lemma pool_step_measure s s' :
  pool_step now pid stop_file idx s s' -> pool_measure (stop_lines stop_file) s' < pool_measure (stop_lines stop_file) s.
Proof.
  unfold pool_measure. intros Hst.
  destruct Hst as [s i ps Hi Hq|s i ps q Hi Hq|s i ps q l Hi Hq Hl|s i ps p Hi Hp|s i ps Hi Hn
                  |s i ps Hi Hm|s i ps f Hi Hn Hsf|s i ps Hi Hn Hsf|s i ps p Hi Hp|s i ps w ws p j Hi Hp Hj
                  |s i ps Hi|s i ps Hi|s i ps p Hi Hp|s i ps p j q r Hi Hj Hq Hr|s i ps c cs resp l Hi Hl
                  |s i ps resp Hi];
    unfold set_worker; cbn [workers];
    try match goal with Hi : workers _ !! _ = Some ?x |- context [<[_ := ?y]> _] =>
      pose proof (sum_list_insert (worker_remaining (stop_lines stop_file)) _ _ x y Hi) end;
    cbn [worker_remaining fst snd length] in *; try lia.
  - unfold stop_lines in *. rewrite Hsf in *. cbn in *. lia.
  - pose proof (sum_list_insert (worker_remaining (stop_lines stop_file)) _ _ _ (ps, HDone (PlainText [])) Hi).
    unfold worker_remaining in H at 2 4. cbn [fst snd] in H. cbn [fmap list_fmap sum_list_with]. lia.
  - pose proof (search_log_length now _ j idx q r Hwf Hr). unfold qlen in *. cbn [fst] in *.
    rewrite Hq in *. lia.
Qed.

(** From every state of the invariant, every worker can run to its
    end. *)
Lemma pool_terminates s : INV s -> exists s', rtc (pool_step now pid stop_file idx) s s' /\ finished s' = true.
Proof.
  remember (pool_measure (stop_lines stop_file) s) as m eqn:Hm. revert s Hm.
  induction m as [m IH] using lt_wf_ind. intros s -> Hinv.
  destruct (finished s) eqn:Hd; [by exists s|].
  destruct (pool_progress s Hinv Hd) as [s1 Hs1].
  destruct (IH _ (pool_step_measure s s1 Hs1) s1 eq_refl (pool_inv_step s s1 Hinv Hs1)) as (s2 & Hr & Hd2).
  exists s2. split; [by eapply rtc_l | done].
Qed.

(** Once every worker has returned, the calls made are those of the
    sequential handler, request by request. *)
Lemma finished_emitted (ts : list (params * hpc)) :
  forallb done_pc ts = true -> ts ≫= EM = (fst <$> ts) ≫= full_calls now (InitJiebaUtil stop_file) idx.
Proof.
  induction ts as [|[ps pc] ts IH]; [done|]. cbn [forallb]. intros [Hd Hts]%andb_prop.
  rewrite fmap_cons, !bind_cons, IH by done. f_equal.
  destruct pc; try done; unfold emitted, full_calls; cbn [fst snd]; by destruct (get_param_value ps _).
Qed.
End lemmas.

(** The sequential loop on a well-formed index, with the tokenizer set. *)
Lemma requests_log_full `{seg : Segmenter} now stop_file idx reqs :
  index_wf (InitJiebaUtil stop_file) idx ->
  requests_log now stop_file (Some (InitJiebaUtil stop_file)) idx reqs
  = Some (reqs ≫= full_calls now (InitJiebaUtil stop_file) idx, Some (InitJiebaUtil stop_file)).
Proof.
  intros Hwf. induction reqs as [|ps rs IH]; [done|]. cbn [requests_log]. unfold request_log.
  rewrite bind_cons. unfold full_calls at 1. destruct (get_param_value ps (txt "query")) as [q|].
  - cbn [get_instance]. bind_red. rewrite IH. bind_red.
    by rewrite (search_log_wf now _ idx _ _ Hwf (rank_perm _)).
  - bind_red. rewrite IH. bind_red. done.
Qed.

Lemma pool_start_measure `{seg : Segmenter} n inst l reqs :
  pool_measure n (pool_start inst l reqs) = sum_list ((fun ps => 10 + qlen ps + n) <$> reqs).
Proof. unfold pool_measure, pool_start. destruct inst; cbn [workers]; by rewrite <- list_fmap_compose. Qed.

Lemma all_done_finished s : all_done s = true <-> aborted s = false /\ finished s = true.
Proof. unfold all_done. destruct (aborted s), (finished s); naive_solver. Qed.

Lemma CutStringHelper_new_jieba `{seg : Segmenter} q : CutStringHelper new_jieba q = cut_for_search q.
Proof.
  unfold CutStringHelper. induction (cut_for_search q) as [|w ws IH]; [done|].
  rewrite filter_cons_True by set_solver. by rewrite IH.
Qed.

(** ** Properties of concurrent serving *)

Section claims.
Context `{seg : Segmenter} (now : option tm) (pid : Z) (stop_file : option text).

(** C13. Concurrent requests are served as sequential ones: after
    start-up, whatever the interleaving of the workers running the
    [/s] handler on the requests [reqs], once they have all returned
    (the process alive) each request got a response the sequential
    handler may give on the index built at start-up and at most one
    tokenizer object was ever created.  When start-up created the
    tokenizer (some corpus line was indexed), [log.log] is moreover the
    start-up log followed by the records the sequential loop
    [System.serve] writes for [reqs], in some order: the query record
    of each request and the WARNINGs of its search, interleaved across
    requests. *)
Theorem concurrent_requests input log0 p reqs s :
  server_start now pid stop_file input log0 = Some p ->
  rtc (pool_step now pid stop_file (index_get_instance (p_index p)))
      (pool_start (p_jieba p) (p_log p) reqs) s ->
  all_done s = true ->
  fst <$> workers s = reqs
  /\ (forall i ps resp, workers s !! i = Some (ps, HDone resp) ->
        handle_s_code (InitJiebaUtil stop_file) (index_get_instance (p_index p)) ps resp)
  /\ length (heap s) <= 1
  /\ (p_jieba p ≠ None ->
      exists cs cs_seq inst',
        requests_log now stop_file (p_jieba p) (index_get_instance (p_index p)) reqs = Some (cs_seq, inst')
        /\ cs ≡ₚ cs_seq /\ run_log pid cs (p_log p) = Some (plog s)).
Proof.
  intros Hp Hr Hd. destruct (server_start_state now pid stop_file input log0 p Hp) as [Hwf Hstart].
  assert (Hinv : pool_inv now pid stop_file (index_get_instance (p_index p)) (p_jieba p) (p_log p) reqs s)
    by (eapply pool_rtc_inv; eauto using pool_inv_start).
  apply all_done_finished in Hd as [Ha Hf].
  split_and!.
  - exact (inv_reqs _ _ _ _ _ _ _ _ Hinv Ha).
  - intros i ps resp Hi. exact (Forall_lookup_1 _ _ _ _ (inv_threads _ _ _ _ _ _ _ _ Hinv) Hi).
  - pose proof (inv_obj _ _ _ _ _ _ _ _ Hinv) as Ho.
    destruct (p_jieba p); [destruct Ho as [-> _]; cbn; lia|]. destruct Ho as [[-> _]|[-> _]]; cbn; lia.
  - intros Hj. destruct Hstart as [H0 | [H0 _]]; [|done].
    destruct (inv_log _ _ _ _ _ _ _ _ Hinv) as (cs & Hcs & Hrun); [by rewrite H0|].
    rewrite H0, (requests_log_full now stop_file _ reqs Hwf).
    eexists cs, _, _. split_and!; [reflexivity | | done].
    by rewrite Hcs, (finished_emitted now stop_file _ (workers s) Hf), (inv_reqs _ _ _ _ _ _ _ _ Hinv Ha).
Qed.

(** C20. Concurrent serving terminates: from every state the workers
    reach after start-up, they can all run to their end (no deadlock):
    every worker returns, or the process aborts, which happens only when
    the stop-word file cannot be opened and start-up indexed no line
    (the first query constructs the tokenizer).  Every statement
    decreases [pool_measure], which starts at the sum over the requests
    of [10 + W + L], [W] the number of words [CutForSearch] gives for
    the query (bounding the [LOG] calls of [search]) and [L] the number
    of lines of the stop-word file: every interleaving ends after at
    most that many statements. *)
Theorem concurrent_requests_terminate input log0 p reqs s :
  server_start now pid stop_file input log0 = Some p ->
  rtc (pool_step now pid stop_file (index_get_instance (p_index p)))
      (pool_start (p_jieba p) (p_log p) reqs) s ->
  (exists s', rtc (pool_step now pid stop_file (index_get_instance (p_index p))) s s'
              /\ (all_done s' = true \/ (aborted s' = true /\ stop_file = None /\ p_jieba p = None)))
  /\ (forall s', pool_step now pid stop_file (index_get_instance (p_index p)) s s' ->
        pool_measure (stop_lines stop_file) s' < pool_measure (stop_lines stop_file) s)
  /\ pool_measure (stop_lines stop_file) (pool_start (p_jieba p) (p_log p) reqs)
     = sum_list ((fun ps => 10 + qlen ps + stop_lines stop_file) <$> reqs).
Proof.
  intros Hp Hr. destruct (server_start_state now pid stop_file input log0 p Hp) as [Hwf Hstart].
  assert (Hinv : pool_inv now pid stop_file (index_get_instance (p_index p)) (p_jieba p) (p_log p) reqs s)
    by (eapply pool_rtc_inv; eauto using pool_inv_start).
  split_and!.
  - destruct (pool_terminates now pid stop_file _ _ _ reqs Hstart Hwf s Hinv) as (s' & Hr' & Hf).
    exists s'. split; [done|].
    pose proof (pool_rtc_inv now pid stop_file _ _ _ reqs Hstart Hwf _ _ Hr' Hinv) as Hinv'.
    destruct (aborted s') eqn:Ha.
    + right. destruct (inv_abort _ _ _ _ _ _ _ _ Hinv' Ha) as (_ & H0 & Hsf). done.
    + left. by apply all_done_finished.
  - intros s' Hs'. by eapply pool_step_measure.
  - apply pool_start_measure.
Qed.

(** C22. Mutual exclusion in [JiebaUtil::get_instance]: in every state
    the workers reach after start-up, at most one worker is between
    [mtx.lock()] and [mtx.unlock()] (so at most one runs the constructor
    and [InitJiebaUtil]), and whenever no worker is inside
    [InitJiebaUtil], every tokenizer object holds the complete stop-word
    table. *)
Theorem pool_mutual_exclusion input log0 p reqs s :
  server_start now pid stop_file input log0 = Some p ->
  rtc (pool_step now pid stop_file (index_get_instance (p_index p)))
      (pool_start (p_jieba p) (p_log p) reqs) s ->
  (forall i k t t', workers s !! i = Some t -> critical t.2 -> workers s !! k = Some t' -> critical t'.2 ->
                    k = i)
  /\ (Forall (fun t => ¬ is_init t.2) (workers s) -> Forall (fun j => j = InitJiebaUtil stop_file) (heap s)).
Proof.
  intros Hp Hr. destruct (server_start_state now pid stop_file input log0 p Hp) as [Hwf Hstart].
  assert (Hinv : pool_inv now pid stop_file (index_get_instance (p_index p)) (p_jieba p) (p_log p) reqs s)
    by (eapply pool_rtc_inv; eauto using pool_inv_start).
  split; [intros; by eapply inv_critical_unique|]. intros Hall.
  pose proof (inv_obj _ _ _ _ _ _ _ _ Hinv) as Ho.
  destruct Hstart as [H0 | [H0 _]]; rewrite H0 in Ho.
  - destruct Ho as [-> _]. by repeat constructor.
  - destruct Ho as [[-> _] | [Hl _]]; [constructor|].
    destruct (heap s) as [|j [|]] eqn:Hh; try done.
    repeat constructor. by apply (inv_table _ _ _ _ _ _ _ _ Hinv).
Qed.

(** C17. The tokenizer is published before its stop words are loaded,
    and the log shows it: when start-up indexed no line (the index is
    empty) and the stop-word file opens, of two requests for the same
    query [q], the first may take [mtx], publish the object with an
    empty table and start [InitJiebaUtil] while the second finds
    [instance] set on the unlocked fast path of [get_instance] and cuts
    its query with the empty table: its [search] then writes one
    WARNING for every word [CutForSearch] gives, stop words included,
    where the sequential handler writes one per word left after the
    stop words are removed. *)
Theorem tokenizer_published_early f input log0 p q :
  server_start now pid (Some f) input log0 = Some p -> p_jieba p = None ->
  exists s resp,
    rtc (pool_step now pid (Some f) (index_get_instance (p_index p)))
        (pool_start (p_jieba p) (p_log p) [[(txt "query", q)]; [(txt "query", q)]]) s
    /\ workers s !! 0 = Some ([(txt "query", q)], HInit (getlines f))
    /\ heap s = [new_jieba]
    /\ workers s !! 1 = Some ([(txt "query", q)], HSearch (words_log now empty_index (cut_for_search q)) resp)
    /\ request_log now (Some f) None (index_get_instance (p_index p)) [(txt "query", q)]
       = Some (query_call now q :: words_log now empty_index (CutStringHelper (InitJiebaUtil (Some f)) q),
               Some (InitJiebaUtil (Some f))).
Proof.
  intros Hp Hj. destruct (server_start_state now pid (Some f) input log0 p Hp) as [_ [Hj' | [_ Hidx]]];
    [congruence|]. rewrite Hidx, Hj.
  assert (Hq : get_param_value [(txt "query", q)] (txt "query") = Some q) by reflexivity.
  assert (Hr : forall ws, code_ranking (accumulate empty_index ws) []).
  { intros ws. rewrite accumulate_empty_index. split; [by rewrite map_to_list_empty | constructor]. }
  assert (Hs : forall ws, search_log now empty_index ws [] = words_log now empty_index ws).
  { intros ws. apply app_nil_r. }
  destruct (run_log_query_call pid now q (p_log p)) as [l1 Hl1].
  destruct (run_log_query_call pid now q l1) as [l2 Hl2].
  eexists _, _. split_and!.
  - eapply rtc_l; [eapply step_query with (i := 0); [reflexivity | exact Hq]|].
    eapply rtc_l; [eapply step_log with (i := 0); [reflexivity | exact Hq | exact Hl1]|].
    eapply rtc_l; [eapply step_slow with (i := 0); reflexivity|].
    eapply rtc_l; [eapply step_lock with (i := 0); reflexivity|].
    eapply rtc_l; [eapply step_new with (i := 0) (f := f); reflexivity|].
    eapply rtc_l; [eapply step_query with (i := 1); [reflexivity | exact Hq]|].
    eapply rtc_l; [eapply step_log with (i := 1); [reflexivity | exact Hq | exact Hl2]|].
    eapply rtc_l; [eapply step_fast with (i := 1) (p := 0); reflexivity|].
    eapply rtc_l; [eapply step_cut with (i := 1) (p := 0) (j := new_jieba) (q := q);
                   [reflexivity | reflexivity | exact Hq | apply Hr]|].
    apply rtc_refl.
  - reflexivity.
  - reflexivity.
  - cbn [workers set_worker]. rewrite <- (CutStringHelper_new_jieba q), <- Hs. reflexivity.
  - unfold request_log. rewrite Hq. cbn [get_instance new_JiebaUtil]. bind_red.
    rewrite accumulate_empty_index. unfold rank. rewrite map_to_list_empty. by rewrite Hs.
Qed.
End claims.

(** ** Witnesses *)

Lemma concurrent_requests_witness :
  all_done demo_final = true /\ fst <$> workers demo_final = demo_reqs /\ length (heap demo_final) <= 1.
Proof.
  assert (Hp : server_start None 1 demo_stop_file (Some demo_corpus) (Some []) = Some demo_process)
    by (vm_compute; reflexivity).
  assert (Hr : rtc (pool_step None 1 demo_stop_file (index_get_instance (p_index demo_process)))
                   (pool_start (p_jieba demo_process) (p_log demo_process) demo_reqs) demo_final)
    by (apply (run_pool_rtc _ _ _ _ _ demo_schedule); vm_compute; reflexivity).
  assert (Hd : all_done demo_final = true) by (vm_compute; reflexivity).
  destruct (concurrent_requests None 1 demo_stop_file (Some demo_corpus) (Some []) demo_process demo_reqs
              demo_final Hp Hr Hd) as (Hreqs & _ & Hlen & _).
  split_and!; [exact Hd | exact Hreqs | exact Hlen].
Defined.

Lemma concurrent_requests_terminate_witness :
  pool_measure (stop_lines demo_stop_file) (pool_start (p_jieba demo_process) (p_log demo_process) demo_reqs)
  = 35.
Proof.
  assert (Hp : server_start None 1 demo_stop_file (Some demo_corpus) (Some []) = Some demo_process)
    by (vm_compute; reflexivity).
  destruct (concurrent_requests_terminate None 1 demo_stop_file (Some demo_corpus) (Some []) demo_process
              demo_reqs _ Hp (rtc_refl _ _)) as (_ & _ & Hm).
  rewrite Hm. reflexivity.
Defined.

(** Two requests racing to create the tokenizer: the first is inside
    [InitJiebaUtil]. *)
Lemma pool_mutual_exclusion_witness :
  (forall i k t t', workers early_state !! i = Some t -> critical t.2 ->
                    workers early_state !! k = Some t' -> critical t'.2 -> k = i)
  /\ (Forall (fun t => ¬ is_init t.2) (workers early_state) ->
      Forall (fun j => j = InitJiebaUtil (Some early_stop_file)) (heap early_state)).
Proof.
  assert (Hp : server_start (seg := space_segmenter) None 1 (Some early_stop_file) (Some (txt "x")) (Some [])
               = Some early_process) by (vm_compute; reflexivity).
  assert (Hr : rtc (pool_step None 1 (Some early_stop_file) (index_get_instance (p_index early_process)))
                   (pool_start (p_jieba early_process) (p_log early_process) [early_req; early_req]) early_state)
    by (apply (run_pool_rtc _ _ _ _ _ early_schedule); vm_compute; reflexivity).
  exact (pool_mutual_exclusion None 1 (Some early_stop_file) (Some (txt "x")) (Some []) early_process _ _ Hp Hr).
Defined.

(** The stop word ["a"] queried twice on an empty corpus: the second
    worker writes one WARNING for ["a"], the sequential handler none. *)
Lemma tokenizer_published_early_witness :
  (exists s resp,
    rtc (pool_step None 1 (Some early_stop_file) (index_get_instance (p_index early_process)))
        (pool_start (p_jieba early_process) (p_log early_process) [early_req; early_req]) s
    /\ workers s !! 0 = Some (early_req, HInit (getlines early_stop_file))
    /\ heap s = [new_jieba]
    /\ workers s !! 1 = Some (early_req, HSearch (words_log None empty_index (@cut_for_search space_segmenter (txt "a"))) resp)
    /\ request_log (seg := space_segmenter) None (Some early_stop_file) None (index_get_instance (p_index early_process)) early_req
       = Some (query_call None (txt "a") :: words_log None empty_index (CutStringHelper (InitJiebaUtil (Some early_stop_file)) (txt "a")),
               Some (InitJiebaUtil (Some early_stop_file))))
  /\ length (words_log None empty_index (@cut_for_search space_segmenter (txt "a"))) = 1
  /\ length (words_log None empty_index (@CutStringHelper space_segmenter (InitJiebaUtil (Some early_stop_file)) (txt "a"))) = 0.
Proof.
  assert (Hp : server_start (seg := space_segmenter) None 1 (Some early_stop_file) (Some (txt "x")) (Some [])
               = Some early_process) by (vm_compute; reflexivity).
  split_and!; [|vm_compute; reflexivity..].
  apply (tokenizer_published_early None 1 early_stop_file (Some (txt "x")) (Some []) early_process (txt "a") Hp).
  vm_compute. reflexivity.
Defined.

End Serving.
